(** * TikTok_auto: the text overlay tools

    A shallow embedding of [text_overlay.py] and [text_overlay_pov.py]
    (classes [TextOverlay] and [POVTextOverlay]) and of the parts of
    [pipeline.py] that drive them, with the properties of the layout and
    compositing code.

    Python values are modelled as follows.
    - [str]: a list of characters ([list ascii], code points 0..255);
      file names are kept as [string] so that they can key finite maps.
    - [int]: [Z].  [float]: the binary64 numbers of Rocq's kernel
      ([PrimFloat]), so that [width / 15] or [height * 0.35] are computed
      with the roundings Python performs.
    - a call that may raise: [Exn + A].
    - the file system, the fonts, the decoded images and the files written
      so far: the record [World], passed explicitly; a sequence of calls
      that may write and then raise threads the world ([io]), so that
      what was done before an exception stays done.

    Pillow is not part of the repository.  Its operations are modelled from
    their documented behaviour, pixel by pixel where the code depends on it
    (rectangle fill, alpha compositing, mode conversion, the paste of a
    text through the mask of its glyphs).  The font engine, which measures
    a text and renders its mask, is a field of the world; every text drawn
    on an image is also kept in the image's list of text operations. *)

From Stdlib Require Import ZArith List Ascii String Floats Uint63 Bool Lia.
From Stdlib Require Import DecimalString.
From stdpp Require Import gmap strings list.
Import ListNotations.

Set Warnings "-inexact-float".
Local Open Scope Z_scope.

(* ===================================================================== *)
(** * Python strings *)
(* ===================================================================== *)

Abbreviation str := (list ascii).

(** A literal. *)
Definition py (s : string) : str := list_ascii_of_string s.

Definition ord (c : ascii) : Z := Z.of_N (N_of_ascii c).

(** [str.isspace] on one character, for the code points below 256:
    TAB, LF, VT, FF, CR, the separators FS GS RS US, the space, NEL and the
    no-break space. *)
Definition isspace (c : ascii) : bool :=
  let n := ord c in
  ((9 <=? n) && (n <=? 13)) || ((28 <=? n) && (n <=? 32))
  || (n =? 133) || (n =? 160).

Definition SPACE : ascii := ascii_of_nat 32.
Definition NEWLINE : ascii := ascii_of_nat 10.

(** [text.split()]: the maximal runs of non-whitespace characters, in order.
    [cur] is the run being read. *)
Fixpoint split_from (cur : str) (s : str) : list str :=
  match s with
  | [] => match cur with [] => [] | _ => [cur] end
  | c :: s' =>
      if isspace c
      then match cur with
           | [] => split_from [] s'
           | _ => cur :: split_from [] s'
           end
      else split_from (cur ++ [c]) s'
  end.

Definition split (s : str) : list str := split_from [] s.

(** [text.split(sep)] for a one-character separator: every occurrence cuts,
    empty pieces are kept, and there is always at least one piece. *)
Fixpoint split_on (sep : ascii) (s : str) : list str :=
  match s with
  | [] => [[]]
  | c :: s' =>
      if Ascii.eqb c sep then [] :: split_on sep s'
      else match split_on sep s' with
           | [] => [[c]]
           | p :: ps => (c :: p) :: ps
           end
  end.

(** [sep.join(parts)]. *)
Fixpoint join (sep : str) (parts : list str) : str :=
  match parts with
  | [] => []
  | [p] => p
  | p :: ps => p ++ sep ++ join sep ps
  end.

(** [q.strip()]: whitespace removed at both ends. *)
Fixpoint lstrip (s : str) : str :=
  match s with
  | [] => []
  | c :: s' => if isspace c then lstrip s' else s
  end.

Definition rstrip (s : str) : str := rev (lstrip (rev s)).
Definition strip (s : str) : str := rstrip (lstrip s).

(** [c.lower()] on the code points below 256. *)
Definition lower_char (c : ascii) : ascii :=
  let n := ord c in
  if ((65 <=? n) && (n <=? 90))
     || ((192 <=? n) && (n <=? 222) && negb (n =? 215))
  then ascii_of_N (Z.to_N (n + 32)) else c.

Definition lower (s : str) : str := map lower_char s.

(** [range(a, b)]. *)
Definition py_range (a b : Z) : list Z :=
  map (fun k => a + Z.of_nat k) (seq 0 (Z.to_nat (b - a))).

(** Truth value of a [str] and of a list. *)
Definition truthy {A} (l : list A) : bool :=
  match l with [] => false | _ => true end.

(* ===================================================================== *)
(** * Python numbers *)
(* ===================================================================== *)

(** [float(n)] for an [int] of magnitude below 2^63. *)
Definition float_of_Z (z : Z) : float :=
  if z <? 0 then PrimFloat.opp (PrimFloat.of_uint63 (Uint63.of_Z (- z)))
  else PrimFloat.of_uint63 (Uint63.of_Z z).

(** [int(x)] for a finite float: truncation toward zero.  (Python raises
    on infinities and NaN; callers test for them with [is_finite].) *)
Definition int_of_float (x : float) : Z :=
  match Prim2SF x with
  | S754_finite s m e =>
      let a := if 0 <=? e then Z.shiftl (Zpos m) e
               else Z.shiftr (Zpos m) (- e) in
      if s then - a else a
  | _ => 0
  end.

Definition is_finite (x : float) : bool :=
  match Prim2SF x with
  | S754_infinity _ | S754_nan => false
  | _ => true
  end.

(** [a / b] on two [int]s (true division). *)
Definition truediv (a b : Z) : float :=
  PrimFloat.div (float_of_Z a) (float_of_Z b).

(* ===================================================================== *)
(** * Exceptions *)
(* ===================================================================== *)

Inductive Exn : Type :=
  | FileNotFoundError (msg : string)
  | FileExistsError
  | PermissionError
  | UnidentifiedImageError
  | OSError
  | ValueError (msg : string)
  | ZeroDivisionError.

(** What a call gives its caller: an exception or a value. *)
Definition res (A : Type) : Type := Exn + A.

Definition raise {A} (e : Exn) : res A := inl e.
Definition ret {A} (a : A) : res A := inr a.
Definition bind {A B} (m : res A) (k : A -> res B) : res B :=
  match m with inl e => inl e | inr a => k a end.

Notation "x <- m ;; k" := (bind m (fun x => k))
  (at level 100, m at next level, right associativity).

(* ===================================================================== *)
(** * Pillow: images, fonts, drawing *)
(* ===================================================================== *)

(** A pixel, as the four bands (r, g, b, a) of Pillow's 32-bit storage. *)
Definition Color := (Z * Z * Z * Z)%type.

Inductive Mode := RGB | RGBA | LUMA.

Inductive Align := AlignLeft | AlignCenter.

(** [ImageFont.truetype(path, size)]. *)
Record Font := { font_file : string; font_size : Z }.

(** One call of [draw.text(xy, text, font=, fill=, align=)]. *)
Record TextOp := {
  op_xy : Z * Z;
  op_text : str;
  op_font : Font;
  op_fill : Color;
  op_align : Align
}.

(** An image: its mode, its size, its pixels and, in drawing order, the
    calls that drew text on it (a record of what was drawn: the pixels
    already hold the ink). *)
Record Image := {
  im_mode : Mode;
  im_size : Z * Z;
  im_px : Z -> Z -> Color;
  im_text : list TextOp
}.

Definition BBox := (Z * Z * Z * Z)%type.

(** The font engine.  [bbox_of]: the bounding box (left, top, right,
    bottom) of a text rendered at the origin with the default anchor; left
    and top are the offsets of the ink from the drawing position.
    [coverage]: the mask the engine renders for the text, as the share,
    from 0 to 255, that the glyphs cover of the pixel at an offset from
    the drawing position; it is 0 where there is no ink.  (The lines of a
    text are taken not to overlap.) *)
Record Metrics := {
  bbox_of :> Font -> Align -> str -> BBox;
  coverage : Font -> Align -> str -> Z -> Z -> Z
}.

(** [Image.new(mode, size, color)]. *)
Definition Image_new (mode : Mode) (size : Z * Z) (color : Color) : Image :=
  {| im_mode := mode; im_size := size; im_px := fun _ _ => color;
     im_text := [] |}.

(** ITU-R 601-2 luma, as [convert('L')] rounds it. *)
Definition luma (c : Color) : Z :=
  let '(r, g, b, _) := c in
  Z.shiftr (r * 19595 + g * 38470 + b * 7471 + 32768) 16.

Definition convert_px (from to : Mode) (c : Color) : Color :=
  let '(r, g, b, a) := c in
  match to with
  | RGBA => match from with RGBA => c | _ => (r, g, b, 255) end
  | RGB => (r, g, b, 255)
  | LUMA => match from with
            | LUMA => c
            | _ => let l := luma c in (l, l, l, 255)
            end
  end.

(** [img.convert(mode)]. *)
Definition convert (im : Image) (mode : Mode) : Image :=
  {| im_mode := mode; im_size := im_size im;
     im_px := fun x y => convert_px (im_mode im) mode (im_px im x y);
     im_text := im_text im |}.

Definition in_image (im : Image) (x y : Z) : bool :=
  (0 <=? x) && (x <? fst (im_size im)) && (0 <=? y) && (y <? snd (im_size im)).

(** [draw.rectangle([x0, y0, x1, y1], fill=c)] on an image of the drawing's
    own mode: the corners are cast to C [int]s and every pixel of the image
    between them, both ends included, receives the ink itself.  (Inks are
    blended only when an RGB image is drawn on in RGBA mode.) *)
Definition rectangle (im : Image) (xy : float * float * float * float)
    (fill : Color) : Image :=
  let '(x0, y0, x1, y1) := xy in
  let X0 := int_of_float x0 in let Y0 := int_of_float y0 in
  let X1 := int_of_float x1 in let Y1 := int_of_float y1 in
  {| im_mode := im_mode im; im_size := im_size im;
     im_px := fun x y =>
       if in_image im x y
          && (Z.min X0 X1 <=? x) && (x <=? Z.max X0 X1)
          && (Z.min Y0 Y1 <=? y) && (y <=? Z.max Y0 Y1)
       then fill else im_px im x y;
     im_text := im_text im |}.

(** Pillow's rounded division by 255 of a 16-bit quantity,
    [SHIFTFORDIV255]. *)
Definition shift_for_div255 (a : Z) : Z := Z.shiftr (Z.shiftr a 8 + a) 8.

(** One pixel of [Image.alpha_composite(dst, src)], as [AlphaComposite.c]
    computes it with 7 extra bits of precision. *)
Definition composite_px (dst src : Color) : Color :=
  let '(dr, dg, db, da) := dst in
  let '(sr, sg, sb, sa) := src in
  if sa =? 0 then dst
  else
    let blend := da * (255 - sa) in
    let outa255 := sa * 255 + blend in
    let coef1 := sa * 255 * 255 * 128 / outa255 in
    let coef2 := 255 * 128 - coef1 in
    let ch s d := Z.shiftr (shift_for_div255 (s * coef1 + d * coef2 + 128 * 128)) 7 in
    (ch sr dr, ch sg dg, ch sb db, shift_for_div255 (outa255 + 128)).

(** [Image.alpha_composite(im1, im2)]: [im2] over [im1]. *)
Definition alpha_composite (im1 im2 : Image) : res Image :=
  match im1.(im_mode), im2.(im_mode) with
  | RGBA, RGBA =>
      if (fst (im_size im1) =? fst (im_size im2))
         && (snd (im_size im1) =? snd (im_size im2))
      then ret {| im_mode := RGBA; im_size := im_size im1;
                  im_px := fun x y => composite_px (im_px im1 x y) (im_px im2 x y);
                  im_text := im_text im1 |}
      else raise (ValueError "images do not match")
  | _, _ => raise (ValueError "image has wrong mode")
  end.

(** [draw.textbbox(xy, text, font=, align=)]: the box of the text at the
    origin, moved to [xy]. *)
Definition textbbox (m : Metrics) (xy : Z * Z) (text : str) (font : Font)
    (align : Align) : BBox :=
  let '(l, t, r, b) := m font align text in
  (fst xy + l, snd xy + t, fst xy + r, snd xy + b).

(** Pillow's [BLEND8]: a band of a pixel mixed with the ink through a mask
    value. *)
Definition blend8 (mask out ink : Z) : Z :=
  shift_for_div255 (out * (255 - mask) + ink * mask + 128).

(** One pixel of a text: the ink is pasted through the mask of the glyphs
    ([ImagingFill2] with a mask of mode L).  Where the mask is 0 the pixel
    is kept; on an image with an alpha band, a pixel that is fully
    transparent takes the colour of the ink unmixed. *)
Definition paint_px (mode : Mode) (mask : Z) (dst ink : Color) : Color :=
  if mask =? 0 then dst
  else
    let '(r, g, b, a) := dst in
    let '(ir, ig, ib, ia) := ink in
    let channel_mask :=
      match mode with
      | RGBA => if a =? 0 then 255 else mask
      | _ => mask
      end in
    (blend8 channel_mask r ir, blend8 channel_mask g ig,
     blend8 channel_mask b ib, blend8 mask a ia).

(** [draw.text(xy, text, font=, fill=, align=)]: the pixels under the
    glyphs are painted, and the call is added to the texts of the image. *)
Definition draw_text (m : Metrics) (im : Image) (xy : Z * Z) (text : str)
    (font : Font) (fill : Color) (align : Align) : Image :=
  {| im_mode := im_mode im; im_size := im_size im;
     im_px := fun x y =>
       if in_image im x y
       then paint_px (im_mode im)
              (coverage m font align text (x - fst xy) (y - snd xy))
              (im_px im x y) fill
       else im_px im x y;
     im_text := im_text im ++
       [{| op_xy := xy; op_text := text; op_font := font; op_fill := fill;
           op_align := align |}] |}.

(** Where the ink of a text operation lies: [textbbox] at its position. *)
Definition ink_bbox (m : Metrics) (op : TextOp) : BBox :=
  textbbox m (op_xy op) (op_text op) (op_font op) (op_align op).

(* ===================================================================== *)
(** * [os.path] *)
(* ===================================================================== *)

Definition SLASH : ascii := ascii_of_nat 47.
Definition DOT : ascii := ascii_of_nat 46.

Fixpoint dropwhile_slash (p : str) : str :=
  match p with
  | c :: p' => if Ascii.eqb c SLASH then dropwhile_slash p' else p
  | [] => []
  end.

(** The part of [p] after its last [sep], and [p] itself without one:
    [p[p.rfind(sep) + 1:]]. *)
Fixpoint after_last (sep : ascii) (p : str) : str :=
  match p with
  | [] => []
  | c :: p' =>
      if existsb (Ascii.eqb sep) p' then after_last sep p'
      else if Ascii.eqb c sep then p' else p
  end.

(** [os.path.basename(p)]. *)
Definition basename (p : str) : str := after_last SLASH p.

(** [os.path.dirname(p)]: what comes before the last slash, without the
    slashes at its end unless it is made of slashes only. *)
Definition dirname (p : str) : str :=
  let head := firstn (length p - length (after_last SLASH p))%nat p in
  if forallb (Ascii.eqb SLASH) head then head
  else rev (dropwhile_slash (rev head)).

(** [os.path.splitext(p)[0]]: the extension starts at the last dot of the
    last component, unless only dots come before it there. *)
Definition splitext_root (p : str) : str :=
  let base := basename p in
  let ext := after_last DOT base in
  if existsb (Ascii.eqb DOT) base then
    let stem := firstn (length base - length ext - 1)%nat base in
    if forallb (Ascii.eqb DOT) stem then p
    else firstn (length p - length ext - 1)%nat p
  else p.

(** [os.path.splitext(p)[1]]. *)
Definition splitext_ext (p : str) : str := skipn (length (splitext_root p)) p.

(** [os.path.join(a, b)]. *)
Definition path_join (a b : str) : str :=
  match b with
  | c :: _ => if Ascii.eqb c SLASH then b
              else match a with
                   | [] => b
                   | _ => if Ascii.eqb (List.last a SLASH) SLASH then a ++ b
                          else a ++ [SLASH] ++ b
                   end
  | [] => match a with
          | [] => []
          | _ => if Ascii.eqb (List.last a SLASH) SLASH then a else a ++ [SLASH]
          end
  end.

Definition file (p : str) : string := string_of_list_ascii p.

(* ===================================================================== *)
(** * The world: files, fonts, the sink, the terminal *)
(* ===================================================================== *)

(** What the tools print. *)
Inductive Printed :=
  | PrCreated (path : string)
  | PrErrorAddingText (e : Exn)
  | PrErrorAddingPOVText (e : Exn)
  | PrNoQuotes
  | PrErrorRandomQuote (e : Exn)
  | PrUsingComicSans (path : string)
  | PrComicSansNotFound
  | PrUsingFallback (path : string)
  | PrQuotesFileNotFound (path : string)
  | PrNoQuotesWarning (path : string)
  | PrErrorReadingQuotes (e : Exn)
  | PrImagesDirNotFound (path : string)
  | PrNoImagesWarning (path : string)
  | PrErrorFindingImages (e : Exn)
  | PrCannotGenerate (what : string)
  | PrSampleCreated (path : string)
  | PrSampleFailed (e : Exn)
  | PrStarting (num_posts : Z)
  | PrStopping
  | PrGenerating (post num_posts : Z) (image : string)
  | PrFailedPost (post : Z)
  | PrComplete (generated_count num_posts : Z).

Record World := {
  w_dirs : gset string;             (* the directories that exist *)
  w_files : gset string;            (* the regular files that exist *)
  w_denied : gset string;           (* paths that cannot be created or written *)
  w_images : gmap string Image;     (* the files that decode, as [Image.open] gives them *)
  w_fonts : gset string;            (* the files FreeType loads *)
  w_metrics : Metrics;              (* the metrics of the fonts *)
  w_texts : gmap string str;        (* the contents of the text files *)
  w_extensions : gset string;       (* the file extensions Pillow has a writer for *)
  w_codec : Image -> Image;         (* an image as it comes back once encoded to a file *)
  w_saved : list (string * Image);  (* the sink: every image saved, oldest first *)
  w_stdout : list Printed           (* the terminal, oldest first *)
}.

Definition print (w : World) (p : Printed) : World :=
  {| w_dirs := w_dirs w; w_files := w_files w; w_denied := w_denied w;
     w_images := w_images w; w_fonts := w_fonts w; w_metrics := w_metrics w;
     w_texts := w_texts w;
     w_extensions := w_extensions w; w_codec := w_codec w; w_saved := w_saved w;
     w_stdout := w_stdout w ++ [p] |}.

(** [os.path.exists(path)]. *)
Definition os_path_exists (w : World) (path : string) : bool :=
  negb (String.eqb path "")
  && (bool_decide (path ∈ w_files w) || bool_decide (path ∈ w_dirs w)).

(** [os.makedirs(path, exist_ok=True)]: nothing to do for a directory that
    exists; otherwise the directory is created, unless a file has the name
    or the path may not be created. *)
Definition os_makedirs (w : World) (path : string) : res World :=
  if String.eqb path "" then raise (FileNotFoundError "")
  else if bool_decide (path ∈ w_dirs w) then ret w
  else if bool_decide (path ∈ w_files w) then raise FileExistsError
  else if bool_decide (path ∈ w_denied w) then raise PermissionError
  else ret {| w_dirs := {[ path ]} ∪ w_dirs w; w_files := w_files w;
              w_denied := w_denied w; w_images := w_images w;
              w_fonts := w_fonts w; w_metrics := w_metrics w;
              w_texts := w_texts w;
              w_extensions := w_extensions w; w_codec := w_codec w;
              w_saved := w_saved w; w_stdout := w_stdout w |}.

(** [Image.open(path)] followed by the load that [convert] forces. *)
Definition Image_open (w : World) (path : string) : res Image :=
  match w_images w !! path with
  | Some im => ret im
  | None => if bool_decide (path ∈ w_files w) then raise UnidentifiedImageError
            else if bool_decide (path ∈ w_dirs w) then raise OSError
            else raise (FileNotFoundError path)
  end.

(** [ImageFont.truetype(path, size)]. *)
Definition truetype (w : World) (path : string) (size : Z) : res Font :=
  if size <=? 0 then raise (ValueError "font size must be greater than 0")
  else if bool_decide (path ∈ w_fonts w)
       then ret {| font_file := path; font_size := size |}
       else raise OSError.

(** Whether a directory named as [os.path.dirname] names it exists: the
    current directory (the empty name) and the root always do. *)
Definition dir_exists (w : World) (d : str) : bool :=
  forallb (Ascii.eqb SLASH) d || bool_decide (file d ∈ w_dirs w).

(** [img.save(path, quality=95)]: the format is chosen from the extension
    of the name, in lower case, which fails for an extension without a
    writer; then the file is opened for writing, which fails for a
    directory, a directory that does not exist and a path that may not be
    written.  All this comes before anything is written.  On success the
    file exists, holds the image as the codec keeps it, and the sink has
    received the image.  (An image the encoder refuses is not
    modelled.) *)
Definition save (w : World) (path : string) (im : Image) : res World :=
  if negb (bool_decide (file (lower (splitext_ext (py path))) ∈ w_extensions w))
  then raise (ValueError "unknown file extension")
  else if String.eqb path "" then raise (FileNotFoundError "")
  else if bool_decide (path ∈ w_dirs w) then raise OSError
  else if negb (dir_exists w (dirname (py path)))
       then raise (FileNotFoundError path)
  else if bool_decide (path ∈ w_denied w) then raise PermissionError
  else ret {| w_dirs := w_dirs w; w_files := {[ path ]} ∪ w_files w;
              w_denied := w_denied w;
              w_images := <[ path := w_codec w im ]> (w_images w);
              w_fonts := w_fonts w; w_metrics := w_metrics w;
              w_texts := w_texts w;
              w_extensions := w_extensions w; w_codec := w_codec w;
              w_saved := w_saved w ++ [(path, im)];
              w_stdout := w_stdout w |}.

(* ===================================================================== *)
(** * Calls that change the world *)
(* ===================================================================== *)

(** A sequence of calls: from the world before it, the world it leaves
    and an exception or a value.  What was done before an exception stays
    done. *)
Definition io (A : Type) : Type := World -> World * res A.

Definition io_ret {A} (a : A) : io A := fun w => (w, inr a).

Definition io_bind {A B} (m : io A) (k : A -> io B) : io B :=
  fun w =>
    let '(w', r) := m w in
    match r with
    | inl e => (w', inl e)
    | inr a => k a w'
    end.

Notation "x <~ m ;; k" := (io_bind m (fun x => k))
  (at level 100, m at next level, right associativity).

(** A call that looks at the world and leaves it as it is. *)
Definition reads {A} (f : World -> res A) : io A := fun w => (w, f w).

(** A call that changes the world unless it raises. *)
Definition writes (f : World -> res World) : io unit :=
  fun w => match f w with
           | inl e => (w, inl e)
           | inr w' => (w', inr tt)
           end.

(** [print(...)]. *)
Definition prints (p : Printed) : io unit := fun w => (print w p, inr tt).

(** [str.splitlines()]: the line boundaries among the code points below 256
    are LF, VT, FF, CR (and CR LF as one), FS, GS, RS and NEL; no empty last
    line is produced. *)
Definition is_linebreak (c : ascii) : bool :=
  let n := ord c in
  ((10 <=? n) && (n <=? 13)) || ((28 <=? n) && (n <=? 30)) || (n =? 133).

Fixpoint splitlines_from (cur : str) (s : str) : list str :=
  match s with
  | [] => match cur with [] => [] | _ => [cur] end
  | c :: s' =>
      if is_linebreak c then
        match s' with
        | d :: s'' =>
            if (ord c =? 13) && (ord d =? 10)
            then cur :: splitlines_from [] s''
            else cur :: splitlines_from [] s'
        | [] => [cur]
        end
      else splitlines_from (cur ++ [c]) s'
  end.

Definition splitlines (s : str) : list str := splitlines_from [] s.

(** [random.choice(seq)] for a non-empty sequence; [r] is the number the
    generator draws. *)
Definition random_choice {A} (r : nat) (seq : list A) : option A :=
  nth_error seq (r mod length seq)%nat.

(** [open(path, 'r').read()]. *)
Definition read_text (w : World) (path : string) : res str :=
  match w_texts w !! path with
  | Some s => ret s
  | None => if bool_decide (path ∈ w_dirs w) then raise OSError
            else raise (FileNotFoundError path)
  end.

(* ===================================================================== *)
(** * The vignette of both overlay tools *)
(* ===================================================================== *)

Definition fsub := PrimFloat.sub.
Definition fadd := PrimFloat.add.
Definition fmul := PrimFloat.mul.
Definition fdiv := PrimFloat.div.

(** The corners of band [i]:
    [[width/2 - width/2 * (1 - i/100), height/2 - height/2 * (1 - i/100),
      width/2 + width/2 * (1 - i/100), height/2 + height/2 * (1 - i/100)]]. *)
Definition vignette_band (width height i : Z) : float * float * float * float :=
  let k := fsub (float_of_Z 1) (truediv i 100) in
  (fsub (truediv width 2) (fmul (truediv width 2) k),
   fsub (truediv height 2) (fmul (truediv height 2) k),
   fadd (truediv width 2) (fmul (truediv width 2) k),
   fadd (truediv height 2) (fmul (truediv height 2) k)).

(** The loop [for i in range(100)] on the overlay. *)
Definition vignette (width height : Z) (overlay : Image) : Image :=
  fold_left
    (fun overlay i =>
       let alpha := 100 - i in
       rectangle overlay (vignette_band width height i) (0, 0, 0, alpha))
    (py_range 0 100) overlay.

Definition WHITE : Color := (255, 255, 255, 255).
Definition BLACK : Color := (0, 0, 0, 255).

(** The nested loops of [draw_text_with_outline], shared by the two
    classes (the first one draws with Pillow's default alignment). *)
Definition outline_loop (m : Metrics) (im : Image) (x y : Z) (text : str)
    (font : Font) (outline : Color) (outline_width : Z) (align : Align)
    : Image :=
  fold_left
    (fun im offset_x =>
       fold_left
         (fun im offset_y =>
            if (offset_x =? 0) && (offset_y =? 0) then im
            else draw_text m im (x + offset_x, y + offset_y) text font outline
                   align)
         (py_range (- outline_width) (outline_width + 1)) im)
    (py_range (- outline_width) (outline_width + 1)) im.

(* ===================================================================== *)
(** * [text_overlay.py]: class [TextOverlay] *)
(* ===================================================================== *)

Module TextOverlay.

Record t := { font_path : string; output_dir : string }.

Definition system_fonts : list string := [
  "/usr/share/fonts/truetype/dejavu/DejaVuSans-Bold.ttf";
  "/usr/share/fonts/truetype/liberation/LiberationSans-Bold.ttf";
  "/usr/share/fonts/truetype/ubuntu/Ubuntu-Bold.ttf";
  "/usr/share/fonts/truetype/freefont/FreeSansBold.ttf"
]%string.

Definition NO_FONT : Exn :=
  FileNotFoundError "No suitable font found. Please provide a valid font path.".

(** [font_path and os.path.exists(font_path)]. *)
Definition explicit_font_usable (w : World) (font_path : option string) : bool :=
  match font_path with
  | Some p => negb (String.eqb p "") && os_path_exists w p
  | None => false
  end.

(** [__init__(self, font_path=None, output_dir="output")]. *)
Definition init (w : World) (font_path : option string) (output_dir : string)
    : res (World * t) :=
  w <- os_makedirs w output_dir ;;
  if explicit_font_usable w font_path then
    ret (w, {| font_path := default ""%string font_path; output_dir := output_dir |})
  else
    match find (os_path_exists w) system_fonts with
    | Some font => ret (w, {| font_path := font; output_dir := output_dir |})
    | None => raise NO_FONT
    end.

(** The width [text_bbox[2] - text_bbox[0]] of a line, as [wrap_text]
    measures it. *)
Definition line_width (m : Metrics) (font : Font) (line : str) : Z :=
  let '(x0, _, x1, _) := textbbox m (0, 0) line font AlignLeft in
  x1 - x0.

(** The loop [for word in words]; the state is
    [(wrapped_lines, current_line)]. *)
Fixpoint wrap_loop (m : Metrics) (font : Font) (max_width : Z)
    (words : list str) (wrapped_lines current_line : list str)
    : list str * list str :=
  match words with
  | [] => (wrapped_lines, current_line)
  | word :: words =>
      let test_line := join [SPACE] (current_line ++ [word]) in
      let text_width := line_width m font test_line in
      if text_width <=? max_width then
        wrap_loop m font max_width words wrapped_lines (current_line ++ [word])
      else
        let wrapped_lines :=
          if truthy current_line
          then wrapped_lines ++ [join [SPACE] current_line]
          else wrapped_lines in
        wrap_loop m font max_width words wrapped_lines [word]
  end.

(** [wrapped_lines] when [wrap_text] returns. *)
Definition wrap_lines (m : Metrics) (text : str) (font : Font) (max_width : Z)
    : list str :=
  let words := split text in
  let '(wrapped_lines, current_line) := wrap_loop m font max_width words [] [] in
  if truthy current_line
  then wrapped_lines ++ [join [SPACE] current_line]
  else wrapped_lines.

(** [wrap_text(self, text, font, max_width)]. *)
Definition wrap_text (m : Metrics) (text : str) (font : Font) (max_width : Z)
    : str :=
  join [NEWLINE] (wrap_lines m text font max_width).

(** [draw_text_with_outline(self, draw, position, text, font, fill,
    outline, outline_width=2)]. *)
Definition draw_text_with_outline (m : Metrics) (im : Image)
    (position : Z * Z) (text : str) (font : Font) (fill outline : Color)
    (outline_width : Z) : Image :=
  let '(x, y) := position in
  let im := outline_loop m im x y text font outline outline_width AlignLeft in
  draw_text m im (x, y) text font fill AlignLeft.

(** The name given to the output when the caller gives none. *)
Definition default_output (self : t) (image_path : string) : string :=
  let base_name := splitext_root (basename (py image_path)) in
  file (path_join (py (output_dir self)) (base_name ++ py "_quote.jpg")).

(** What is computed between the vignette and the drawing. *)
Record Layout := {
  lay_font : Font;
  lay_text : str;
  lay_xy : Z * Z
}.

Definition layout (m : Metrics) (font : Font) (width height : Z) (text : str)
    : Layout :=
  let margin := 20 in
  let max_width := width - 2 * margin in
  let wrapped_text := wrap_text m text font max_width in
  let '(b0, b1, b2, b3) := textbbox m (0, 0) wrapped_text font AlignLeft in
  let text_width := b2 - b0 in
  let text_height := b3 - b1 in
  let text_x := (width - text_width) / 2 in
  let text_y := (height - text_height) / 2 in
  {| lay_font := font; lay_text := wrapped_text; lay_xy := (text_x, text_y) |}.

(** The body of the [try] of [add_text_to_image]. *)
Definition add_text_body (w : World) (self : t) (image_path : string)
    (text : str) (output_filename : option string) : World * res string :=
  (img <~ reads (fun w => Image_open w image_path) ;;
   let img := convert img RGBA in
   let img_with_text := img in
   let width := fst (im_size img) in
   let height := snd (im_size img) in
   let overlay := Image_new RGBA (im_size img) (0, 0, 0, 0) in
   let overlay := vignette width height overlay in
   img_with_text <~ reads (fun _ => alpha_composite img_with_text overlay) ;;
   let font_size := int_of_float (truediv width 15) in
   font <~ reads (fun w => truetype w (font_path self) font_size) ;;
   engine <~ reads (fun w => ret (w_metrics w)) ;;
   let lay := layout engine font width height text in
   let img_with_text :=
     draw_text_with_outline engine img_with_text (lay_xy lay) (lay_text lay)
       font WHITE BLACK 2 in
   let img_with_text := convert img_with_text RGB in
   let output_filename :=
     match output_filename with
     | Some f => if String.eqb f "" then default_output self image_path else f
     | None => default_output self image_path
     end in
   _ <~ writes (fun w => save w output_filename img_with_text) ;;
   _ <~ prints (PrCreated output_filename) ;;
   io_ret output_filename) w.

(** [add_text_to_image(self, image_path, text, output_filename=None)]:
    every exception of the body is caught, printed, and turned into
    [None]; what the body did before it raised is kept. *)
Definition add_text_to_image (w : World) (self : t) (image_path : string)
    (text : str) (output_filename : option string) : World * option string :=
  let '(w, result) := add_text_body w self image_path text output_filename in
  match result with
  | inr output_filename => (w, Some output_filename)
  | inl e => (print w (PrErrorAddingText e), None)
  end.

(** [process_random_quote(self, image_path, quotes_file,
    output_filename=None)]; [r] is the draw of [random.choice]. *)
Definition process_random_quote (w : World) (self : t) (r : nat)
    (image_path quotes_file : string) (output_filename : option string)
    : World * option string :=
  match read_text w quotes_file with
  | inl e => (print w (PrErrorRandomQuote e), None)
  | inr content =>
      let quotes := splitlines content in
      let quotes := List.filter (fun q => truthy (strip q)) quotes in
      if negb (truthy quotes) then (print w PrNoQuotes, None)
      else
        match random_choice r quotes with
        | Some quote => add_text_to_image w self image_path quote output_filename
        | None => (w, None)
        end
  end.

End TextOverlay.

(* ===================================================================== *)
(** * [textwrap.wrap] of the Python library *)
(* ===================================================================== *)

Module textwrap.

Definition len (s : str) : Z := Z.of_nat (length s).

Definition TAB : ascii := ascii_of_nat 9.
Definition HYPHEN : ascii := ascii_of_nat 45.

(** [text.expandtabs(8)]; [col] is the column reached on the current
    line. *)
Fixpoint expandtabs_from (col : nat) (s : str) : str :=
  match s with
  | [] => []
  | c :: s' =>
      if Ascii.eqb c TAB then
        repeat SPACE (8 - col mod 8)%nat ++ expandtabs_from 0 s'
      else if (ord c =? 10) || (ord c =? 13) then c :: expandtabs_from 0 s'
      else c :: expandtabs_from (S col) s'
  end.

(** The characters of [string.whitespace], which [TextWrapper] replaces by
    spaces. *)
Definition ascii_whitespace (c : ascii) : bool :=
  let n := ord c in ((9 <=? n) && (n <=? 13)) || (n =? 32).

Definition munge_whitespace (text : str) : str :=
  map (fun c => if ascii_whitespace c then SPACE else c)
      (expandtabs_from 0 text).

(** [chunk.strip() == '']. *)
Definition is_blank (chunk : str) : bool := forallb isspace chunk.

(** The inner [while chunks] of [_wrap_chunks]: chunks are moved to the
    current line as long as they fit. *)
Fixpoint take_fitting (width : Z) (chunks cur_line : list str) (cur_len : Z)
    : list str * list str * Z :=
  match chunks with
  | [] => ([], cur_line, cur_len)
  | c :: rest =>
      if cur_len + len c <=? width
      then take_fitting width rest (cur_line ++ [c]) (cur_len + len c)
      else (chunks, cur_line, cur_len)
  end.

(** [chunk.rfind('-', 0, stop)]: the last position below [stop] that
    holds a hyphen, or -1. *)
Fixpoint rfind_hyphen_from (i : Z) (chunk : str) (stop : Z) (found : Z) : Z :=
  match chunk with
  | [] => found
  | c :: chunk' =>
      if i <? stop
      then rfind_hyphen_from (i + 1) chunk' stop
             (if Ascii.eqb c HYPHEN then i else found)
      else found
  end.

Definition rfind_hyphen (chunk : str) (stop : Z) : Z :=
  rfind_hyphen_from 0 chunk stop (-1).

(** [_handle_long_word], with [break_long_words] and [break_on_hyphens]
    set: the first chunk is cut and its head goes to the current line. *)
Definition handle_long_word (chunks cur_line : list str) (cur_len width : Z)
    : list str * list str :=
  let space_left := if width <? 1 then 1 else width - cur_len in
  match chunks with
  | [] => (chunks, cur_line)
  | chunk :: rest =>
      let hyphen := rfind_hyphen chunk space_left in
      let end_ :=
        if (len chunk >? space_left) && (hyphen >? 0)
           && existsb (fun c => negb (Ascii.eqb c HYPHEN))
                (firstn (Z.to_nat hyphen) chunk)
        then hyphen + 1 else space_left in
      (skipn (Z.to_nat end_) chunk :: rest,
       cur_line ++ [firstn (Z.to_nat end_) chunk])
  end.

(** One turn of the outer [while chunks] of [_wrap_chunks]. *)
Definition wrap_step (width : Z) (chunks lines : list str)
    : list str * list str :=
  let chunks :=
    match chunks with
    | c :: rest => if is_blank c && truthy lines then rest else chunks
    | [] => chunks
    end in
  let '(chunks, cur_line, cur_len) := take_fitting width chunks [] 0 in
  let '(chunks, cur_line) :=
    match chunks with
    | c :: _ => if len c >? width
                then handle_long_word chunks cur_line cur_len width
                else (chunks, cur_line)
    | [] => (chunks, cur_line)
    end in
  let cur_line :=
    match rev cur_line with
    | c :: before => if is_blank c then rev before else cur_line
    | [] => cur_line
    end in
  (chunks, if truthy cur_line then lines ++ [concat cur_line] else lines).

(** The loop, for at most [fuel] turns; [None] when the turns are used up
    with chunks left. *)
Fixpoint wrap_loop (fuel : nat) (width : Z) (chunks lines : list str)
    : option (list str) :=
  match chunks with
  | [] => Some lines
  | _ :: _ =>
      match fuel with
      | O => None
      | S fuel =>
          let '(chunks, lines) := wrap_step width chunks lines in
          wrap_loop fuel width chunks lines
      end
  end.

(** Every turn on a positive width removes a chunk or a character, so
    this many turns are enough. *)
Definition weight (chunks : list str) : nat :=
  fold_right (fun c n => (S (length c) + n)%nat) 0%nat chunks.

(** [_wrap_chunks(chunks)]. *)
Definition wrap_chunks (width : Z) (chunks : list str) : res (list str) :=
  if width <=? 0 then raise (ValueError "invalid width (must be > 0)")
  else ret (default [] (wrap_loop (weight chunks) width chunks [])).

(** [textwrap.wrap(text, width=width)].  [wordsep] is the cut of the text
    by the regular expression [wordsep_re]; its empty chunks are
    discarded. *)
Definition wrap (wordsep : str -> list str) (text : str) (width : Z)
    : res (list str) :=
  let chunks := wordsep (munge_whitespace text) in
  let chunks := List.filter (fun c : str => truthy c) chunks in
  wrap_chunks width chunks.

(** The cut at the runs of blanks, [wordsep_simple_re]: what [wordsep_re]
    does on a text without hyphens. *)
Fixpoint wordsep_simple_from (cur : str) (s : str) : list str :=
  match s with
  | [] => match cur with [] => [] | _ => [cur] end
  | c :: s' =>
      match cur with
      | [] => wordsep_simple_from [c] s'
      | d :: _ =>
          if Bool.eqb (ascii_whitespace c) (ascii_whitespace d)
          then wordsep_simple_from (cur ++ [c]) s'
          else cur :: wordsep_simple_from [c] s'
      end
  end.

Definition wordsep_simple (s : str) : list str := wordsep_simple_from [] s.

End textwrap.

(* ===================================================================== *)
(** * [text_overlay_pov.py]: class [POVTextOverlay] *)
(* ===================================================================== *)

Module POVTextOverlay.

Record t := { font_path : string; output_dir : string }.

Definition comic_sans_paths : list string := [
  "/usr/share/fonts/truetype/msttcorefonts/Comic_Sans_MS.ttf";
  "/usr/share/fonts/truetype/comic/comic.ttf"
]%string.

Definition system_fonts : list string := TextOverlay.system_fonts.

Definition NO_FONT : Exn :=
  FileNotFoundError
    "No suitable font found. Please provide a valid font path or install Comic Sans.".

(** [__init__(self, font_path=None, output_dir="output")]. *)
Definition init (w : World) (font_path : option string) (output_dir : string)
    : res (World * t) :=
  w <- os_makedirs w output_dir ;;
  let '(w, found_font) :=
    if TextOverlay.explicit_font_usable w font_path then (w, font_path)
    else match find (os_path_exists w) comic_sans_paths with
         | Some path => (print w (PrUsingComicSans path), Some path)
         | None => (w, None)
         end in
  match found_font with
  | Some f => ret (w, {| font_path := f; output_dir := output_dir |})
  | None =>
      let w := print w PrComicSansNotFound in
      match find (os_path_exists w) system_fonts with
      | Some font =>
          ret (print w (PrUsingFallback font),
               {| font_path := font; output_dir := output_dir |})
      | None => raise NO_FONT
      end
  end.

(** The characters per line: [int(max_width / (font.size * 0.5))]. *)
Definition chars_per_line (font : Font) (max_width : Z) : res Z :=
  let d := fmul (float_of_Z (font_size font)) 0.5%float in
  if PrimFloat.eqb d 0%float then raise ZeroDivisionError
  else ret (int_of_float (fdiv (float_of_Z max_width) d)).

(** [wrap_text(self, text, font, max_width)]. *)
Definition wrap_text (wordsep : str -> list str) (text : str) (font : Font)
    (max_width : Z) : res str :=
  width <- chars_per_line font max_width ;;
  lines <- textwrap.wrap wordsep text width ;;
  ret (join [NEWLINE] lines).

(** [draw_text_with_outline(self, draw, position, text, font, fill,
    outline, outline_width=2, align="left")]. *)
Definition draw_text_with_outline (m : Metrics) (im : Image)
    (position : Z * Z) (text : str) (font : Font) (fill outline : Color)
    (outline_width : Z) (align : Align) : Image :=
  let '(x, y) := position in
  let im := outline_loop m im x y text font outline outline_width align in
  draw_text m im (x, y) text font fill align.

Definition default_output (self : t) (image_path : string) : string :=
  let base_name := splitext_root (basename (py image_path)) in
  file (path_join (py (output_dir self))
          (base_name ++ py "_pov_quote_centered.jpg")).

(** The placement of the two blocks. *)
Record Layout := {
  pov_xy : Z * Z;
  pov_height : Z;
  quote_text : str;
  quote_xy : Z * Z
}.

Definition pov_text : str := py "POV".

Definition layout (m : Metrics) (pov_font quote_font : Font)
    (width height : Z) (wrapped_quote : str) : Layout :=
  let '(p0, p1, p2, p3) := textbbox m (0, 0) pov_text pov_font AlignLeft in
  let pov_width := p2 - p0 in
  let pov_height := p3 - p1 in
  let pov_x := (width - pov_width) / 2 in
  let pov_y := int_of_float (fmul (float_of_Z height) 0.35%float) in
  let '(q0, q1, q2, q3) :=
    textbbox m (0, 0) wrapped_quote quote_font AlignCenter in
  let quote_width := q2 - q0 in
  let quote_height := q3 - q1 in
  let quote_x := (width - quote_width) / 2 in
  let quote_y :=
    pov_y + pov_height + int_of_float (fmul (float_of_Z height) 0.05%float) in
  {| pov_xy := (pov_x, pov_y); pov_height := pov_height;
     quote_text := wrapped_quote; quote_xy := (quote_x, quote_y) |}.

(** The body of the [try] of [add_pov_text_to_image]. *)
Definition add_pov_text_body (wordsep : str -> list str) (w : World)
    (self : t) (image_path : string) (quote_text : str)
    (output_filename : option string) : World * res string :=
  (img <~ reads (fun w => Image_open w image_path) ;;
   let img := convert img RGBA in
   let img_with_text := img in
   let width := fst (im_size img) in
   let height := snd (im_size img) in
   let overlay := Image_new RGBA (im_size img) (0, 0, 0, 0) in
   let overlay := vignette width height overlay in
   img_with_text <~ reads (fun _ => alpha_composite img_with_text overlay) ;;
   let pov_font_size := int_of_float (truediv width 12) in
   let quote_font_size := int_of_float (truediv width 18) in
   pov_font <~ reads (fun w => truetype w (font_path self) pov_font_size) ;;
   quote_font <~ reads (fun w => truetype w (font_path self) quote_font_size) ;;
   let margin := 40 in
   let max_width := width - 2 * margin in
   wrapped_quote <~
     reads (fun _ => wrap_text wordsep quote_text quote_font max_width) ;;
   engine <~ reads (fun w => ret (w_metrics w)) ;;
   let lay := layout engine pov_font quote_font width height wrapped_quote in
   let img_with_text :=
     draw_text_with_outline engine img_with_text (pov_xy lay) pov_text
       pov_font WHITE BLACK 2 AlignCenter in
   let img_with_text :=
     draw_text_with_outline engine img_with_text (quote_xy lay) wrapped_quote
       quote_font WHITE BLACK 2 AlignCenter in
   let img_with_text := convert img_with_text RGB in
   let output_filename :=
     match output_filename with
     | Some f => if String.eqb f "" then default_output self image_path else f
     | None => default_output self image_path
     end in
   _ <~ writes (fun w => save w output_filename img_with_text) ;;
   _ <~ prints (PrCreated output_filename) ;;
   io_ret output_filename) w.

(** [add_pov_text_to_image(self, image_path, quote_text,
    output_filename=None)]: every exception of the body is caught,
    printed, and turned into [None]; what the body did before it raised is
    kept. *)
Definition add_pov_text_to_image (wordsep : str -> list str) (w : World)
    (self : t) (image_path : string) (quote_text : str)
    (output_filename : option string) : World * option string :=
  let '(w, result) :=
    add_pov_text_body wordsep w self image_path quote_text output_filename in
  match result with
  | inr output_filename => (w, Some output_filename)
  | inl e => (print w (PrErrorAddingPOVText e), None)
  end.

(** [process_random_quote(self, image_path, quotes_file,
    output_filename=None)]. *)
Definition process_random_quote (wordsep : str -> list str) (w : World)
    (self : t) (r : nat) (image_path quotes_file : string)
    (output_filename : option string) : World * option string :=
  match read_text w quotes_file with
  | inl e => (print w (PrErrorRandomQuote e), None)
  | inr content =>
      let quotes :=
        map strip (List.filter (fun q => truthy (strip q)) (splitlines content)) in
      if negb (truthy quotes) then (print w PrNoQuotes, None)
      else
        match random_choice r quotes with
        | Some quote =>
            add_pov_text_to_image wordsep w self image_path quote output_filename
        | None => (w, None)
        end
  end.

End POVTextOverlay.

(* ===================================================================== *)
(** * [pipeline.py]: class [ContentPipeline] *)
(* ===================================================================== *)

(** [os.path.isdir(path)]. *)
Definition os_path_isdir (w : World) (path : string) : bool :=
  bool_decide (path ∈ w_dirs w).

(** [os.listdir(path)]: the names of the files and directories of the
    world that lie directly in [path], in the order of the set. *)
Definition os_listdir (w : World) (path : string) : res (list str) :=
  if os_path_isdir w path then
    ret (omap (fun p : string =>
                 let name := basename (py p) in
                 if truthy name
                    && String.eqb (file (path_join (py path) name)) p
                 then Some name else None)
           (elements (w_files w ∪ w_dirs w)))
  else raise (FileNotFoundError path).

(** [s.endswith(suffix)]. *)
Definition endswith (s suffix : str) : bool :=
  (length suffix <=? length s)%nat
  && bool_decide (skipn (length s - length suffix) s = suffix).

(** The lines a text file gives when iterated over: each ends with its
    newline, but possibly the last. *)
Fixpoint readlines_from (cur : str) (s : str) : list str :=
  match s with
  | [] => match cur with [] => [] | _ => [cur] end
  | c :: s' =>
      if Ascii.eqb c NEWLINE then (cur ++ [c]) :: readlines_from [] s'
      else readlines_from (cur ++ [c]) s'
  end.

Definition readlines (s : str) : list str := readlines_from [] s.

(** [f"{n:03d}"] for [n >= 0]. *)
Definition format_03d (n : Z) : str :=
  let digits := py (NilZero.string_of_int (Z.to_int n)) in
  repeat (ascii_of_nat 48) (3 - length digits) ++ digits.

Module ContentPipeline.

(** The constants of the module, from the directory [base] of the
    script. *)
Definition QUOTES_DIR (base : str) : str := path_join base (py "quotes").
Definition IMAGES_DIR (base : str) : str := path_join base (py "images").
Definition OUTPUT_DIR (base : str) : str := path_join base (py "output").
Definition QUOTES_FILE (base : str) : str :=
  path_join (QUOTES_DIR base) (py "quotes.txt").

Record t := {
  quotes : list str;
  images : list string;
  overlay_tool : POVTextOverlay.t;
  used_quotes : gset str;
  used_images : gset string
}.

(** [_load_quotes(self)]. *)
Definition load_quotes (w : World) (base : str) : World * list str :=
  let QUOTES_FILE := file (QUOTES_FILE base) in
  if negb (os_path_exists w QUOTES_FILE) then
    (print w (PrQuotesFileNotFound QUOTES_FILE), [])
  else
    match read_text w QUOTES_FILE with
    | inr content =>
        let quotes :=
          map strip (List.filter (fun line => truthy (strip line))
                       (readlines content)) in
        if negb (truthy quotes)
        then (print w (PrNoQuotesWarning QUOTES_FILE), quotes)
        else (w, quotes)
    | inl e => (print w (PrErrorReadingQuotes e), [])
    end.

Definition image_suffixes : list str :=
  [py ".png"; py ".jpg"; py ".jpeg"; py ".webp"].

(** [_find_images(self)]. *)
Definition find_images (w : World) (base : str) : World * list string :=
  let IMAGES_DIR := IMAGES_DIR base in
  if negb (os_path_isdir w (file IMAGES_DIR)) then
    (print w (PrImagesDirNotFound (file IMAGES_DIR)), [])
  else
    match os_listdir w (file IMAGES_DIR) with
    | inr names =>
        let images :=
          map (fun f => file (path_join IMAGES_DIR f))
            (List.filter
               (fun f => existsb (endswith (lower f)) image_suffixes)
               names) in
        if negb (truthy images)
        then (print w (PrNoImagesWarning (file IMAGES_DIR)), images)
        else (w, images)
    | inl e => (print w (PrErrorFindingImages e), [])
    end.

(** [__init__(self)]. *)
Definition init (w : World) (base : str) : res (World * t) :=
  let '(w, quotes) := load_quotes w base in
  let '(w, images) := find_images w base in
  r <- POVTextOverlay.init w None (file (OUTPUT_DIR base)) ;;
  ret (fst r, {| quotes := quotes; images := images; overlay_tool := snd r;
                 used_quotes := ∅; used_images := ∅ |}).

(** [_get_random_quote(self)]; [r] is the draw of [random.choice]. *)
Definition get_random_quote (self : t) (r : nat) : t * option str :=
  let available_quotes :=
    List.filter (fun q => negb (bool_decide (q ∈ used_quotes self)))
      (quotes self) in
  let '(self, available_quotes) :=
    if negb (truthy available_quotes) then
      ({| quotes := quotes self; images := images self;
          overlay_tool := overlay_tool self; used_quotes := ∅;
          used_images := used_images self |}, quotes self)
    else (self, available_quotes) in
  if negb (truthy available_quotes) then (self, None)
  else
    match random_choice r available_quotes with
    | Some quote =>
        ({| quotes := quotes self; images := images self;
            overlay_tool := overlay_tool self;
            used_quotes := {[ quote ]} ∪ used_quotes self;
            used_images := used_images self |}, Some quote)
    | None => (self, None)
    end.

(** [_get_random_image(self)]. *)
Definition get_random_image (self : t) (r : nat) : t * option string :=
  let available_images :=
    List.filter (fun img => negb (bool_decide (img ∈ used_images self)))
      (images self) in
  let '(self, available_images) :=
    if negb (truthy available_images) then
      ({| quotes := quotes self; images := images self;
          overlay_tool := overlay_tool self; used_quotes := used_quotes self;
          used_images := ∅ |}, images self)
    else (self, available_images) in
  if negb (truthy available_images) then (self, None)
  else
    match random_choice r available_images with
    | Some image_path =>
        ({| quotes := quotes self; images := images self;
            overlay_tool := overlay_tool self;
            used_quotes := used_quotes self;
            used_images := {[ image_path ]} ∪ used_images self |},
         Some image_path)
    | None => (self, None)
    end.

(** The state of the loop of [generate_content]. *)
Record Loop := {
  lp_world : World;
  lp_self : t;
  lp_count : Z;
  lp_stopped : bool
}.

(** The name of post number [n]. *)
Definition post_name (base : str) (n : Z) : string :=
  file (path_join (OUTPUT_DIR base)
          (py "post_pov_" ++ format_03d n ++ py ".jpg")).

(** One turn of [for i in range(num_posts)]; [draw i] gives the two
    random draws of the turn.  After the [break] the turns do nothing. *)
Definition post (wordsep : str -> list str) (base : str) (num_posts : Z)
    (draw : Z -> nat * nat) (st : Loop) (i : Z) : Loop :=
  if lp_stopped st then st
  else
    let '(self, quote) := get_random_quote (lp_self st) (fst (draw i)) in
    let '(self, image_path) := get_random_image self (snd (draw i)) in
    match quote, image_path with
    | Some quote, Some image_path =>
        if truthy quote && negb (String.eqb image_path "") then
          let output_filename := post_name base (i + 1) in
          let w := print (lp_world st)
                     (PrGenerating (i + 1) num_posts
                        (file (basename (py image_path)))) in
          let '(w, result_path) :=
            POVTextOverlay.add_pov_text_to_image wordsep w (overlay_tool self)
              image_path quote (Some output_filename) in
          match result_path with
          | Some p =>
              if negb (String.eqb p "") then
                {| lp_world := w; lp_self := self;
                   lp_count := lp_count st + 1; lp_stopped := false |}
              else
                {| lp_world := print w (PrFailedPost (i + 1)); lp_self := self;
                   lp_count := lp_count st; lp_stopped := false |}
          | None =>
              {| lp_world := print w (PrFailedPost (i + 1)); lp_self := self;
                 lp_count := lp_count st; lp_stopped := false |}
          end
        else
          {| lp_world := print (lp_world st) PrStopping; lp_self := self;
             lp_count := lp_count st; lp_stopped := true |}
    | _, _ =>
        {| lp_world := print (lp_world st) PrStopping; lp_self := self;
           lp_count := lp_count st; lp_stopped := true |}
    end.

(** The loop of [generate_content] and its last message. *)
Definition run_posts (wordsep : str -> list str) (base : str) (w : World)
    (self : t) (num_posts : Z) (draw : Z -> nat * nat) : World * t :=
  let w := print w (PrStarting num_posts) in
  let st := fold_left (post wordsep base num_posts draw)
              (py_range 0 num_posts)
              {| lp_world := w; lp_self := self; lp_count := 0;
                 lp_stopped := false |} in
  (print (lp_world st) (PrComplete (lp_count st) num_posts), lp_self st).

(** [generate_content(self, num_posts=3)].  Messages printed one after the
    other are recorded as one. *)
Definition generate_content (wordsep : str -> list str) (base : str)
    (w : World) (self : t) (num_posts : Z) (draw : Z -> nat * nat)
    : World * t :=
  if negb (truthy (quotes self)) then
    (print w (PrCannotGenerate "No quotes loaded."), self)
  else if negb (truthy (images self)) then
    let w := print w (PrCannotGenerate "No images found.") in
    let sample_img := Image_new RGB (1080, 1920) (20, 20, 30, 255) in
    let sample_img_path :=
      file (path_join (IMAGES_DIR base) (py "sample_dark_bg.jpg")) in
    match save w sample_img_path sample_img with
    | inr w =>
        let self := {| quotes := quotes self; images := [sample_img_path];
                       overlay_tool := overlay_tool self;
                       used_quotes := used_quotes self;
                       used_images := used_images self |} in
        run_posts wordsep base (print w (PrSampleCreated sample_img_path))
          self num_posts draw
    | inl e => (print w (PrSampleFailed e), self)
    end
  else run_posts wordsep base w self num_posts draw.

End ContentPipeline.

(* ===================================================================== *)
(** * Vocabulary of the statements, and a small world to run the code in *)
(* ===================================================================== *)

(** A word: not empty, no whitespace in it. *)
Definition is_word (w : str) : Prop :=
  w <> [] /\ Forall (fun c => isspace c = false) w.

(** A group of words that makes a line the greedy wrap may produce: the
    line fits, or it is one word that does not. *)
Definition fits_or_single (m : Metrics) (font : Font) (max_width : Z)
    (g : list str) : Prop :=
  TextOverlay.line_width m font (join [SPACE] g) <= max_width
  \/ exists w, g = [w] /\ max_width < TextOverlay.line_width m font w.

(** The lines of the greedy wrap once the pending one is closed. *)
Definition finish (st : list str * list str) : list str :=
  if truthy (snd st) then fst st ++ [join [SPACE] (snd st)] else fst st.

(** A fixed-pitch font: every character advances by 3/5 of the size, the
    ink starts one fifth of the size below the drawing position, and lines
    are a size plus 4 pixels apart.  The empty text has the empty box.
    The ink fills the box. *)
Definition mono_box (font : Font) (text : str) : BBox :=
  match text with
  | [] => (0, 0, 0, 0)
  | _ =>
      let lines := split_on NEWLINE text in
      let advance := 3 * font_size font / 5 in
      let widest :=
        fold_right Z.max 0 (map (fun l => advance * Z.of_nat (length l)) lines) in
      (0, font_size font / 5, widest,
       (Z.of_nat (length lines) - 1) * (font_size font + 4) + font_size font)
  end.

(** The mask of an ink that fills a box. *)
Definition solid (box : BBox) (dx dy : Z) : Z :=
  let '(l, t, r, b) := box in
  if (l <=? dx) && (dx <? r) && (t <=? dy) && (dy <? b) then 255 else 0.

Definition mono_metrics : Metrics :=
  {| bbox_of := fun font _ text => mono_box font text;
     coverage := fun font _ text => solid (mono_box font text) |}.

Definition DEJAVU : string :=
  "/usr/share/fonts/truetype/dejavu/DejaVuSans-Bold.ttf".

(** The sample background of the tools: 1080 x 1920, uniformly (20, 20, 30). *)
Definition sample_dark_bg : Image := Image_new RGB (1080, 1920) (20, 20, 30, 255).

(** A machine with the first fallback font, the sample background and a
    file of quotes. *)
Definition studio : World := {|
  w_dirs := {[ "output"%string; "/proc"%string ]};
  w_files := {[ DEJAVU; "bg.jpg"%string; "quotes.txt"%string; "notes.txt"%string ]};
  w_denied := {[ "/proc/out.jpg"%string ]};
  w_images := {[ "bg.jpg"%string := sample_dark_bg ]};
  w_fonts := {[ DEJAVU ]};
  w_metrics := mono_metrics;
  w_texts := {[ "quotes.txt"%string := py "Discipline beats motivation." ]};
  w_extensions := {[ ".jpg"%string; ".jpeg"%string; ".png"%string ]};
  w_codec := fun im => im;
  w_saved := [];
  w_stdout := []
|}.

Definition overlay_tool : TextOverlay.t :=
  {| TextOverlay.font_path := DEJAVU; TextOverlay.output_dir := "output" |}.

Definition pov_tool : POVTextOverlay.t :=
  {| POVTextOverlay.font_path := DEJAVU; POVTextOverlay.output_dir := "output" |}.

(** An image on which more texts are drawn, one call after the other. *)
Definition add_ops (m : Metrics) (im : Image) (ops : list TextOp) : Image :=
  fold_left
    (fun im op =>
       draw_text m im (op_xy op) (op_text op) (op_font op) (op_fill op)
         (op_align op))
    ops im.

(** The offsets of the outline passes, in drawing order. *)
Definition outline_offsets (outline_width : Z) : list (Z * Z) :=
  List.filter (fun d => negb ((fst d =? 0) && (snd d =? 0)))
    (list_prod (py_range (- outline_width) (outline_width + 1))
               (py_range (- outline_width) (outline_width + 1))).

(** A pass of a text at an offset from (x, y). *)
Definition pass (x y : Z) (text : str) (font : Font) (color : Color)
    (align : Align) (d : Z * Z) : TextOp :=
  {| op_xy := (x + fst d, y + snd d); op_text := text; op_font := font;
     op_fill := color; op_align := align |}.

(** The paths font resolution may select: the explicit one when there is
    one, then the fallback list. *)
Definition candidates (font_path : option string) (fallback : list string)
    : list string :=
  match font_path with Some p => [p] | None => [] end ++ fallback.

(** The background under the vignette: what [alpha_composite] returns in
    the two tools. *)
Definition vignetted (img : Image) : Image :=
  {| im_mode := RGBA; im_size := im_size img;
     im_px := fun x y =>
       composite_px (im_px img x y)
         (im_px (vignette (fst (im_size img)) (snd (im_size img))
                   (Image_new RGBA (im_size img) (0, 0, 0, 0))) x y);
     im_text := im_text img |}.

(** The name under which an output is saved. *)
Definition output_name (default : string) (output_filename : option string)
    : string :=
  match output_filename with
  | Some f => if String.eqb f "" then default else f
  | None => default
  end.

(** The image [add_text_to_image] hands to [save]. *)
Definition rendered (m : Metrics) (font : Font) (img : Image) (text : str)
    : Image :=
  let img := convert img RGBA in
  let lay := TextOverlay.layout m font (fst (im_size img)) (snd (im_size img)) text in
  convert
    (TextOverlay.draw_text_with_outline m (vignetted img)
       (TextOverlay.lay_xy lay) (TextOverlay.lay_text lay) font WHITE BLACK 2)
    RGB.

(** The image [add_pov_text_to_image] hands to [save]. *)
Definition pov_rendered (m : Metrics) (pov_font quote_font : Font)
    (img : Image) (wrapped_quote : str) : Image :=
  let img := convert img RGBA in
  let lay := POVTextOverlay.layout m pov_font quote_font
               (fst (im_size img)) (snd (im_size img)) wrapped_quote in
  convert
    (POVTextOverlay.draw_text_with_outline m
       (POVTextOverlay.draw_text_with_outline m (vignetted img)
          (POVTextOverlay.pov_xy lay) POVTextOverlay.pov_text pov_font
          WHITE BLACK 2 AlignCenter)
       (POVTextOverlay.quote_xy lay) wrapped_quote quote_font
       WHITE BLACK 2 AlignCenter)
    RGB.

(** How much darker a pixel has become. *)
Definition darkening (before after : Color) : Z := luma before - luma after.

(** A world that differs from [w] by printed lines only. *)
Definition same_files (w w' : World) : Prop :=
  w_dirs w' = w_dirs w /\ w_files w' = w_files w /\ w_images w' = w_images w
  /\ w_saved w' = w_saved w.

(** [p] holds on the [n] integers from [z] on. *)
Fixpoint all_from (n : nat) (z : Z) (p : Z -> bool) : bool :=
  match n with
  | O => true
  | S n => p z && all_from n (z + 1) p
  end.

(** The largest side of an image the JPEG format can hold; the roundings
    below are checked up to it. *)
Definition MAX_SIDE : Z := 65535.

(** The roundings of the sizes and positions the two tools compute in
    floating point, against the integer quotients they stand for. *)
Definition sizes_as_quotients (n : Z) : bool :=
  (int_of_float (truediv n 15) =? n / 15)
  && (int_of_float (truediv n 12) =? n / 12)
  && (int_of_float (truediv n 18) =? n / 18)
  && (int_of_float (fmul (float_of_Z n) 0.05%float) =? n / 20)
  && (7 * n / 20 - 1 <=? int_of_float (fmul (float_of_Z n) 0.35%float))
  && (int_of_float (fmul (float_of_Z n) 0.35%float) <=? 7 * n / 20)
  && ((n =? 0) || negb (PrimFloat.eqb (fmul (float_of_Z n) 0.5%float) 0%float))
  && ((n <? 80)
      || (int_of_float (fdiv (float_of_Z (n - 80))
                          (fmul (float_of_Z (n / 18)) 0.5%float))
          =? 2 * (n - 80) / (n / 18))).

Definition color_eqb (c d : Color) : bool :=
  let '(r, g, b, a) := c in
  let '(r', g', b', a') := d in
  (r =? r') && (g =? g') && (b =? b') && (a =? a').

(** The boxes of the ink of the passes drawn in a colour. *)
Definition ink_of (m : Metrics) (c : Color) (im : Image) : list BBox :=
  map (ink_bbox m) (List.filter (fun op => color_eqb (op_fill op) c) (im_text im)).

(** The number of characters of a list of chunks. *)
Definition total_len (l : list str) : Z :=
  fold_right (fun c n => textwrap.len c + n) 0 l.

(** Whether the rectangle of corners [xy] reaches the pixel (x, y) of an
    image of the given size. *)
Definition covers (size : Z * Z) (xy : float * float * float * float)
    (x y : Z) : bool :=
  let '(x0, y0, x1, y1) := xy in
  (0 <=? x) && (x <? fst size) && (0 <=? y) && (y <? snd size)
  && (Z.min (int_of_float x0) (int_of_float x1) <=? x)
  && (x <=? Z.max (int_of_float x0) (int_of_float x1))
  && (Z.min (int_of_float y0) (int_of_float y1) <=? y)
  && (y <=? Z.max (int_of_float y0) (int_of_float y1)).

(** One channel of an opaque pixel under black of opacity [a], as
    [composite_px] computes it. *)
Definition under_black (d a : Z) : Z :=
  Z.shiftr (shift_for_div255 (0 * (a * 255 * 255 * 128 / (a * 255 + 255 * (255 - a)))
                              + d * (255 * 128
                                     - a * 255 * 255 * 128 / (a * 255 + 255 * (255 - a)))
                              + 128 * 128)) 7.

(** A channel under the vignette is not brighter than before and keeps
    at least 155/255 of its value, to the rounding. *)
Definition darkened_within (d a : Z) : bool :=
  let c := if a =? 0 then d else under_black d a in
  (c <=? d) && (155 * d <=? 255 * c + 128).

(** A line is closed only when the next word does not fit after it. *)
Fixpoint greedy (m : Metrics) (font : Font) (max_width : Z)
    (gs : list (list str)) : Prop :=
  match gs with
  | [] => True
  | g :: rest =>
      match rest with
      | (w :: _) :: _ =>
          max_width < TextOverlay.line_width m font (join [SPACE] (g ++ [w]))
      | _ => True
      end
      /\ greedy m font max_width rest
  end.

(** The bands drawn on an overlay, for any list of indices. *)
Definition bands (width height : Z) (l : list Z) (overlay : Image) : Image :=
  fold_left
    (fun overlay i =>
       let alpha := 100 - i in
       rectangle overlay (vignette_band width height i) (0, 0, 0, alpha))
    l overlay.


(** The budget of characters of the second tool on an image too narrow
    for it. *)
Definition budget_not_positive (W : Z) : bool :=
  match POVTextOverlay.chars_per_line
          {| font_file := ""; font_size := W / 18 |} (W - 2 * 40) with
  | inr b => b <=? 0
  | inl _ => true
  end.







(** No text of the given inks reaches the pixel (x, y): the masks of the
    passes of a text drawn at [xy], fill and outline of width
    [outline_width], are 0 there. *)
Definition clear_of_text (m : Metrics) (font : Font) (align : Align)
    (text : str) (xy : Z * Z) (outline_width : Z) (x y : Z) : Prop :=
  forall dx dy,
    - outline_width <= dx <= outline_width ->
    - outline_width <= dy <= outline_width ->
    coverage m font align text (x - (fst xy + dx)) (y - (snd xy + dy)) = 0.

(** The quotes that [runs] successive calls of [_get_random_quote] return,
    one draw per call. *)
Fixpoint quote_run (self : ContentPipeline.t) (draws : list nat)
    : list (option str) :=
  match draws with
  | [] => []
  | r :: draws =>
      snd (ContentPipeline.get_random_quote self r)
      :: quote_run (fst (ContentPipeline.get_random_quote self r)) draws
  end.

(** A machine with the files of the pipeline, under the directory
    [/app]. *)
Definition app : World := {|
  w_dirs := {[ "/app/images"%string; "/app/output"%string; "/app/quotes"%string;
               "/app/images/raw.PNG"%string; "/app/images/old"%string ]};
  w_files := {[ DEJAVU; "/app/quotes/quotes.txt"%string;
                "/app/images/a.jpg"%string; "/app/images/b.WebP"%string;
                "/app/images/notes.txt"%string;
                "/app/images/old/c.png"%string ]};
  w_denied := ∅;
  w_images := {[ "/app/images/a.jpg"%string := sample_dark_bg;
                 "/app/images/b.WebP"%string := sample_dark_bg ]};
  w_fonts := {[ DEJAVU ]};
  w_metrics := mono_metrics;
  w_texts := {[ "/app/quotes/quotes.txt"%string :=
                  py "  Stay hard. " ++ [NEWLINE] ++ [NEWLINE]
                  ++ py "Discipline beats motivation." ++ [NEWLINE] ]};
  w_extensions := {[ ".jpg"%string; ".jpeg"%string; ".png"%string ]};
  w_codec := fun im => im;
  w_saved := [];
  w_stdout := []
|}.

(* ===================================================================== *)
(** * Properties *)
(* ===================================================================== *)

(** ** Splitting and joining *)

Lemma isspace_SPACE : isspace SPACE = true.
Proof. reflexivity. Qed.

Lemma isspace_NEWLINE : isspace NEWLINE = true.
Proof. reflexivity. Qed.

Lemma join_cons (sep p q : str) (ps : list str) :
  join sep (p :: q :: ps) = p ++ sep ++ join sep (q :: ps).
Proof. reflexivity. Qed.

Lemma split_from_cut (a b cur : str) (c : ascii) :
  isspace c = true ->
  split_from cur (a ++ [c] ++ b) = split_from cur a ++ split b.
Proof.
  intros Hc. revert cur.
  induction a as [|x a IH]; intros cur; simpl.
  - rewrite Hc. destruct cur; reflexivity.
  - destruct (isspace x).
    + destruct cur; simpl; rewrite IH; reflexivity.
    + apply IH.
Qed.

Lemma split_from_run (w cur : str) :
  Forall (fun c => isspace c = false) w ->
  split_from cur w = match cur ++ w with [] => [] | _ => [cur ++ w] end.
Proof.
  intros Hw. revert cur.
  induction Hw as [|x w Hx Hw IH]; intros cur; simpl.
  - rewrite app_nil_r. reflexivity.
  - rewrite Hx, IH, <- app_assoc. reflexivity.
Qed.

Lemma split_word (w : str) : is_word w -> split w = [w].
Proof.
  intros [Hne Hw]. unfold split. rewrite split_from_run by assumption.
  simpl. destruct w; [contradiction | reflexivity].
Qed.

Lemma split_from_words (s cur : str) :
  Forall (fun c => isspace c = false) cur ->
  Forall is_word (split_from cur s).
Proof.
  revert cur. induction s as [|c s IH]; intros cur Hcur; simpl.
  - destruct cur; constructor; [|constructor].
    split; [discriminate | assumption].
  - destruct (isspace c) eqn:Hc.
    + destruct cur.
      * apply IH. constructor.
      * constructor; [split; [discriminate | assumption]|].
        apply IH. constructor.
    + apply IH. apply Forall_app. split; [assumption|].
      constructor; [assumption | constructor].
Qed.

(** [text.split()] only gives words. *)
Lemma split_words (s : str) : Forall is_word (split s).
Proof. apply split_from_words. constructor. Qed.

(** Joining words with one whitespace character and splitting again gives
    the words back. *)
Lemma split_join (sep : ascii) (ws : list str) :
  isspace sep = true -> Forall is_word ws -> split (join [sep] ws) = ws.
Proof.
  intros Hsep Hws. induction Hws as [|w ws Hw Hws IH]; [reflexivity|].
  destruct ws as [|w' ws].
  - simpl. apply split_word, Hw.
  - rewrite join_cons.
    unfold split at 1. rewrite split_from_cut by assumption.
    fold (split w). rewrite split_word by assumption. rewrite IH. reflexivity.
Qed.

(** The same over several lines: splitting the lines joined by a
    whitespace character gives the words of all the lines. *)
Lemma split_join_lines (sep : ascii) (ls : list str) :
  isspace sep = true ->
  split (join [sep] ls) = concat (map split ls).
Proof.
  intros Hsep. induction ls as [|l ls IH]; [reflexivity|].
  destruct ls as [|l' ls].
  - simpl. rewrite app_nil_r. reflexivity.
  - rewrite join_cons.
    unfold split at 1. rewrite split_from_cut by assumption.
    fold (split l). rewrite IH. reflexivity.
Qed.

Lemma join_no_char (sep c : ascii) (ws : list str) :
  c <> sep -> Forall (fun w => ~ In c w) ws -> ~ In c (join [sep] ws).
Proof.
  intros Hne Hws. induction Hws as [|w ws Hw Hws IH]; [intros []|].
  destruct ws as [|w' ws]; [exact Hw|].
  rewrite join_cons.
  rewrite !in_app_iff. simpl. intros [H | [[H | []] | H]]; auto.
Qed.

Lemma split_on_no_sep (sep : ascii) (l : str) :
  ~ In sep l -> split_on sep l = [l].
Proof.
  induction l as [|c l IH]; intros Hl; [reflexivity|]. simpl.
  destruct (Ascii.eqb_spec c sep) as [->|Hne].
  - exfalso. apply Hl. left. reflexivity.
  - rewrite IH; [reflexivity|]. intros H. apply Hl. right. exact H.
Qed.

Lemma split_on_cut (sep : ascii) (l rest : str) :
  ~ In sep l -> split_on sep (l ++ [sep] ++ rest) = l :: split_on sep rest.
Proof.
  change (l ++ [sep] ++ rest) with (l ++ sep :: rest).
  induction l as [|c l IH]; intros Hl; simpl.
  - rewrite Ascii.eqb_refl. reflexivity.
  - destruct (Ascii.eqb_spec c sep) as [->|Hne].
    + exfalso. apply Hl. left. reflexivity.
    + rewrite IH; [reflexivity|]. intros H. apply Hl. right. exact H.
Qed.

(** [sep.join(ls).split(sep)] is [ls] when there is a line and no line
    holds the separator. *)
Lemma split_on_join (sep : ascii) (ls : list str) :
  ls <> [] -> Forall (fun l => ~ In sep l) ls ->
  split_on sep (join [sep] ls) = ls.
Proof.
  intros Hne Hls. induction Hls as [|l ls Hl Hls IH]; [contradiction|].
  destruct ls as [|l' ls].
  - simpl. apply split_on_no_sep, Hl.
  - rewrite join_cons.
    rewrite split_on_cut by assumption.
    rewrite IH; [reflexivity | discriminate].
Qed.

Lemma lstrip_id (l : str) (c : ascii) :
  isspace c = false -> lstrip (c :: l) = c :: l.
Proof. intros H. simpl. rewrite H. reflexivity. Qed.

(** A text that starts and ends with a character that is not whitespace
    is its own [strip()]. *)
Lemma strip_id (l : str) (a b : ascii) :
  hd_error l = Some a -> hd_error (rev l) = Some b ->
  isspace a = false -> isspace b = false -> strip l = l.
Proof.
  intros Ha Hb Hna Hnb. unfold strip, rstrip.
  destruct l as [|x l]; [discriminate|]. injection Ha as ->.
  rewrite lstrip_id by assumption.
  destruct (rev (a :: l)) as [|y r] eqn:Hr; [discriminate|].
  injection Hb as ->. rewrite lstrip_id by assumption.
  rewrite <- Hr. apply rev_involutive.
Qed.

(** A line made of words joined by single spaces is stripped. *)
Lemma join_words_stripped (g : list str) :
  g <> [] -> Forall is_word g ->
  join [SPACE] g <> [] /\ strip (join [SPACE] g) = join [SPACE] g.
Proof.
  intros Hne Hg.
  assert (H : exists a b, hd_error (join [SPACE] g) = Some a
                 /\ hd_error (rev (join [SPACE] g)) = Some b
                 /\ isspace a = false /\ isspace b = false).
  { induction Hg as [|w g Hw Hg IH]; [contradiction|].
    destruct Hw as [Hwne Hw].
    assert (Hhd : exists a, hd_error w = Some a /\ isspace a = false).
    { destruct w as [|a w]; [contradiction|]. exists a. split; [reflexivity|].
      inversion Hw; assumption. }
    assert (Hlast : exists b, hd_error (rev w) = Some b /\ isspace b = false).
    { destruct (rev w) as [|b r] eqn:Hr.
      - apply (f_equal (@rev ascii)) in Hr. rewrite rev_involutive in Hr.
        contradiction.
      - exists b. split; [reflexivity|].
        rewrite List.Forall_forall in Hw. apply Hw. apply in_rev. rewrite Hr.
        left. reflexivity. }
    destruct Hhd as [a [Ha Hna]]. destruct Hlast as [b [Hb Hnb]].
    destruct g as [|w' g].
    - exists a, b. simpl. auto.
    - destruct IH as [a' [b' [_ [Hb' [_ Hnb']]]]]; [discriminate|].
      exists a, b'.
      rewrite join_cons.
      repeat split; try assumption.
      + destruct w; [discriminate | exact Ha].
      + rewrite !rev_app_distr.
        destruct (rev (join [SPACE] (w' :: g))); [discriminate | exact Hb']. }
  destruct H as [a [b [Ha [Hb [Hna Hnb]]]]]. split.
  - destruct (join [SPACE] g); discriminate.
  - eapply strip_id; eassumption.
Qed.

Lemma word_no_newline (w : str) : is_word w -> ~ In NEWLINE w.
Proof.
  intros [_ Hw] Hin. rewrite List.Forall_forall in Hw.
  specialize (Hw _ Hin). discriminate.
Qed.

Lemma line_no_newline (g : list str) :
  Forall is_word g -> ~ In NEWLINE (join [SPACE] g).
Proof.
  intros Hg. apply join_no_char; [discriminate|].
  eapply List.Forall_impl; [|exact Hg]. intros w. apply word_no_newline.
Qed.

(** ** The helpers on strings and paths, on examples *)

Example basename_ex : basename (py "/a/b/pic.old.jpg") = py "pic.old.jpg".
Proof. reflexivity. Qed.

Example splitext_ex :
  map splitext_root
    [py "/a/b/pic.old.jpg"; py "/a.b/pic"; py ".bashrc"; py "a/..x"; py "x."]
  = [py "/a/b/pic.old"; py "/a.b/pic"; py ".bashrc"; py "a/..x"; py "x"].
Proof. reflexivity. Qed.

Example path_join_ex :
  map (fun '(a, b) => path_join (py a) (py b))
    [("out", "x.jpg"); ("out/", "x.jpg"); ("out", "/x.jpg"); ("", "x"); ("a", "")]%string
  = map py ["out/x.jpg"; "out/x.jpg"; "/x.jpg"; "x"; "a/"]%string.
Proof. reflexivity. Qed.

Example split_ex : split (py "  a bc   d ") = map py ["a"; "bc"; "d"]%string.
Proof. reflexivity. Qed.

Example splitlines_ex :
  splitlines [ascii_of_nat 97; ascii_of_nat 13; ascii_of_nat 10;
              ascii_of_nat 10; ascii_of_nat 98; ascii_of_nat 10]
  = [py "a"; []; py "b"].
Proof. reflexivity. Qed.

(** ** [TextOverlay.wrap_text]: the greedy wrap by measured width *)

Section Wrap.

Variable m : Metrics.
Variable font : Font.
Variable max_width : Z.

Let width := TextOverlay.line_width m font.

(** The loop cuts the words it is given, after the pending ones, into
    groups; every closed line is a group joined by spaces. *)
Lemma wrap_loop_groups (words : list str) : forall wl cl,
  (cl = [] \/ width (join [SPACE] cl) <= max_width \/ exists w, cl = [w]) ->
  exists gs,
    finish (TextOverlay.wrap_loop m font max_width words wl cl)
      = wl ++ map (join [SPACE]) gs
    /\ concat gs = cl ++ words
    /\ Forall (fun g => g <> []) gs
    /\ Forall (fits_or_single m font max_width) gs.
Proof.
  assert (Hsingle : forall cl,
    cl <> [] ->
    (cl = [] \/ width (join [SPACE] cl) <= max_width \/ exists w, cl = [w]) ->
    fits_or_single m font max_width cl).
  { unfold fits_or_single. intros cl Hne [H | [H | [w ->]]]; [contradiction | left; exact H |].
    simpl. fold width. destruct (Z_le_gt_dec (width w) max_width) as [H | H].
    - left. exact H.
    - right. exists w. split; [reflexivity | fold width; lia]. }
  induction words as [|word words IH]; intros wl cl Hcl.
  - simpl. unfold finish. simpl. destruct cl as [|c cl].
    + exists []. simpl. rewrite !app_nil_r.
      split; [reflexivity|]. split; [reflexivity|]. split; constructor.
    + exists [c :: cl]. simpl. rewrite !app_nil_r.
      split; [reflexivity|]. split; [reflexivity|].
      split; (constructor; [|constructor]); [discriminate|].
      apply Hsingle; [discriminate | exact Hcl].
  - simpl.
    destruct (Z.leb_spec (TextOverlay.line_width m font (join [SPACE] (cl ++ [word])))
                max_width) as [Hfit | Hover].
    + destruct (IH wl (cl ++ [word])) as [gs [H1 [H2 [H3 H4]]]].
      { right. left. exact Hfit. }
      exists gs. rewrite <- app_assoc in H2. auto.
    + destruct cl as [|c cl].
      * destruct (IH wl [word]) as [gs [H1 [H2 [H3 H4]]]].
        { right. right. exists word. reflexivity. }
        exists gs. auto.
      * destruct (IH (wl ++ [join [SPACE] (c :: cl)]) [word])
          as [gs [H1 [H2 [H3 H4]]]].
        { right. right. exists word. reflexivity. }
        exists ((c :: cl) :: gs).
        change (truthy (c :: cl)) with true. cbv iota.
        rewrite H1, <- app_assoc. simpl.
        rewrite H2. split; [reflexivity|]. split; [reflexivity|]. split.
        -- constructor; [discriminate | exact H3].
        -- constructor; [|exact H4]. apply Hsingle; [discriminate | exact Hcl].
Qed.

(** The lines of [wrap_text] are the words of the text, cut into groups
    that are not empty. *)
Lemma wrap_lines_groups (text : str) :
  exists gs,
    TextOverlay.wrap_lines m text font max_width = map (join [SPACE]) gs
    /\ concat gs = split text
    /\ Forall (fun g => g <> []) gs
    /\ Forall (fits_or_single m font max_width) gs.
Proof.
  destruct (wrap_loop_groups (split text) [] []) as [gs [H1 [H2 [H3 H4]]]].
  { left. reflexivity. }
  exists gs. repeat split; try assumption.
  unfold TextOverlay.wrap_lines.
  destruct (TextOverlay.wrap_loop m font max_width (split text) [] [])
    as [wl cl]. exact H1.
Qed.

End Wrap.

Lemma concat_parts_words (gs : list (list str)) :
  Forall is_word (concat gs) -> Forall (Forall is_word) gs.
Proof.
  induction gs as [|g gs IH]; intros H; constructor;
    simpl in H; apply Forall_app in H; destruct H as [Hg Hgs]; auto.
Qed.

Lemma split_from_nonblank (s cur : str) :
  (cur <> [] \/ exists c, In c s /\ isspace c = false) ->
  split_from cur s <> [].
Proof.
  revert cur. induction s as [|x s IH]; intros cur H; simpl.
  - destruct H as [H | [c [[] _]]]. destruct cur; [contradiction | discriminate].
  - destruct (isspace x) eqn:Hx.
    + destruct cur; [|discriminate]. apply IH.
      destruct H as [H | [c [[-> | Hin] Hc]]];
        [contradiction | congruence | right; eauto].
    + apply IH. left. destruct cur; discriminate.
Qed.






(** C10.  For a text with a character that is not whitespace, the wrap
    keeps the words: the returned text splits into the words of the input,
    in order; its lines (the pieces between newlines) are the wrapped
    lines, there is at least one, and each is non-empty and has no
    whitespace at either end. *)
Theorem wrap_text_preserves_words (m : Metrics) (text : str) (font : Font)
    (max_width : Z) :
  (exists c, In c text /\ isspace c = false) ->
  split (TextOverlay.wrap_text m text font max_width) = split text
  /\ TextOverlay.wrap_lines m text font max_width <> []
  /\ split_on NEWLINE (TextOverlay.wrap_text m text font max_width)
     = TextOverlay.wrap_lines m text font max_width
  /\ Forall (fun line => line <> [] /\ strip line = line)
       (TextOverlay.wrap_lines m text font max_width).
Proof.
  intros Hnb.
  destruct (wrap_lines_groups m font max_width text) as [gs [H1 [H2 [H3 _]]]].
  assert (Hwords : Forall (Forall is_word) gs).
  { apply concat_parts_words. rewrite H2. apply split_words. }
  assert (Hgs : gs <> []).
  { intros ->. simpl in H2. symmetry in H2. revert H2.
    apply split_from_nonblank. right. exact Hnb. }
  unfold TextOverlay.wrap_text. rewrite H1. repeat split.
  - rewrite split_join_lines by reflexivity. rewrite <- H2.
    rewrite map_map. clear -Hwords.
    induction Hwords as [|g gs Hg Hgs IH]; [reflexivity|].
    simpl. rewrite split_join by (reflexivity || assumption).
    rewrite IH. reflexivity.
  - destruct gs; [contradiction | discriminate].
  - apply split_on_join.
    + destruct gs; [contradiction | discriminate].
    + apply Forall_map. eapply List.Forall_impl; [|exact Hwords].
      intros g. apply line_no_newline.
  - apply Forall_map. clear -H3 Hwords.
    induction Hwords as [|g gs Hg Hgs IH]; constructor.
    + inversion H3; subst. apply join_words_stripped; assumption.
    + inversion H3; subst. apply IH. assumption.
Qed.

(** ** [draw_text_with_outline] *)

Lemma in_py_range (a b k : Z) : In k (py_range a b) <-> a <= k < b.
Proof.
  unfold py_range. rewrite in_map_iff. split.
  - intros [n [<- Hn]]. apply in_seq in Hn. lia.
  - intros H. exists (Z.to_nat (k - a)). split; [lia|].
    apply in_seq. lia.
Qed.

Lemma NoDup_map_inj {A B} (f : A -> B) (l : list A) :
  (forall x y, f x = f y -> x = y) -> List.NoDup l -> List.NoDup (map f l).
Proof.
  intros Hf Hl. induction Hl as [|a l Ha Hl IH]; simpl; constructor.
  - intros H. apply in_map_iff in H. destruct H as [x [Hx Hin]].
    apply Hf in Hx. subst x. contradiction.
  - exact IH.
Qed.

Lemma NoDup_py_range (a b : Z) : List.NoDup (py_range a b).
Proof.
  unfold py_range. apply NoDup_map_inj; [|apply List.seq_NoDup].
  intros i j H. lia.
Qed.

Lemma length_py_range (a b : Z) : a <= b -> Z.of_nat (length (py_range a b)) = b - a.
Proof. intros H. unfold py_range. rewrite length_map, length_seq. lia. Qed.

Lemma NoDup_list_prod {A B} (l : list A) (l' : list B) :
  List.NoDup l -> List.NoDup l' -> List.NoDup (list_prod l l').
Proof.
  intros Hl Hl'. induction Hl as [|a l Ha Hl IH]; simpl; [constructor|].
  apply List.NoDup_app.
  - apply NoDup_map_inj; [|exact Hl']. intros x y H. congruence.
  - exact IH.
  - intros [a' b'] H1 H2. apply in_map_iff in H1. destruct H1 as [y [H1 _]].
    injection H1 as <- <-. apply in_prod_iff in H2. apply Ha, H2.
Qed.

(** Removing the one occurrence of an element shortens a list by one. *)
Lemma length_filter_out {A} (f : A -> bool) (l : list A) (a : A) :
  List.NoDup l -> In a l -> (forall x, f x = false <-> x = a) ->
  S (length (List.filter f l)) = length l.
Proof.
  intros Hl Ha Hf. induction Hl as [|x l Hx Hl IH]; [destruct Ha|].
  simpl. destruct (f x) eqn:Hfx.
  - simpl. f_equal. apply IH. destruct Ha as [-> | Ha]; [|exact Ha].
    assert (f a = false) by (apply Hf; reflexivity). congruence.
  - apply Hf in Hfx. subst x. f_equal.
    clear -Hx Hf. induction l as [|y l IH]; [reflexivity|].
    simpl. destruct (f y) eqn:Hfy.
    + simpl. f_equal. apply IH. intros H. apply Hx. right. exact H.
    + apply Hf in Hfy. subst y. exfalso. apply Hx. left. reflexivity.
Qed.

Lemma add_ops_nil (m : Metrics) (im : Image) : add_ops m im [] = im.
Proof. reflexivity. Qed.

Lemma add_ops_app (m : Metrics) (im : Image) (a b : list TextOp) :
  add_ops m (add_ops m im a) b = add_ops m im (a ++ b).
Proof. unfold add_ops. rewrite fold_left_app. reflexivity. Qed.

(** A loop whose turns only draw texts draws them all, in order. *)
Lemma fold_add_ops {A} (m : Metrics) (g : A -> list TextOp) (l : list A)
    (im : Image) :
  fold_left (fun im a => add_ops m im (g a)) l im
  = add_ops m im (flat_map g l).
Proof.
  revert im. induction l as [|a l IH]; intros im; simpl.
  - reflexivity.
  - rewrite IH, add_ops_app. reflexivity.
Qed.

Lemma flat_map_filter_map {A B} (f : A -> bool) (g : A -> B) (l : list A) :
  flat_map (fun a => if f a then [g a] else []) l = map g (List.filter f l).
Proof.
  induction l as [|a l IH]; [reflexivity|]. simpl.
  destruct (f a); simpl; rewrite IH; reflexivity.
Qed.

Lemma outline_inner (m : Metrics) (Ry : list Z) (ox : Z) (im : Image)
    (x y : Z) (text : str) (font : Font) (outline : Color) (align : Align) :
  fold_left
    (fun im offset_y =>
       if (ox =? 0) && (offset_y =? 0) then im
       else draw_text m im (x + ox, y + offset_y) text font outline align)
    Ry im
  = add_ops m im
      (map (pass x y text font outline align)
         (List.filter (fun d => negb ((fst d =? 0) && (snd d =? 0)))
            (map (fun oy => (ox, oy)) Ry))).
Proof.
  revert im. induction Ry as [|oy Ry IH]; intros im; simpl.
  - reflexivity.
  - rewrite IH. destruct ((ox =? 0) && (oy =? 0)); simpl; [reflexivity|].
    change (draw_text m im (x + ox, y + oy) text font outline align)
      with (add_ops m im [pass x y text font outline align (ox, oy)]).
    rewrite add_ops_app. reflexivity.
Qed.

Lemma outline_outer (m : Metrics) (Rx Ry : list Z) (im : Image) (x y : Z)
    (text : str) (font : Font) (outline : Color) (align : Align) :
  fold_left
    (fun im offset_x =>
       fold_left
         (fun im offset_y =>
            if (offset_x =? 0) && (offset_y =? 0) then im
            else draw_text m im (x + offset_x, y + offset_y) text font outline
                   align)
         Ry im)
    Rx im
  = add_ops m im
      (map (pass x y text font outline align)
         (List.filter (fun d => negb ((fst d =? 0) && (snd d =? 0)))
            (list_prod Rx Ry))).
Proof.
  revert im. induction Rx as [|ox Rx IH]; intros im; simpl.
  - reflexivity.
  - rewrite IH, outline_inner, add_ops_app, List.filter_app, map_app. reflexivity.
Qed.

(** The two nested loops draw one pass per offset. *)
Lemma outline_loop_passes (m : Metrics) (im : Image) (x y : Z) (text : str)
    (font : Font) (outline : Color) (outline_width : Z) (align : Align) :
  outline_loop m im x y text font outline outline_width align
  = add_ops m im (map (pass x y text font outline align)
                      (outline_offsets outline_width)).
Proof. apply outline_outer. Qed.

Lemma in_outline_offsets (w : Z) (d : Z * Z) :
  In d (outline_offsets w)
  <-> - w <= fst d <= w /\ - w <= snd d <= w /\ d <> (0, 0).
Proof.
  unfold outline_offsets. rewrite filter_In. destruct d as [dx dy]. simpl.
  rewrite in_prod_iff, !in_py_range. split.
  - intros [[H1 H2] H3]. repeat split; try lia.
    intros H. injection H as -> ->. discriminate.
  - intros [H1 [H2 H3]]. repeat split; try lia.
    destruct (Z.eqb_spec dx 0) as [->|]; [|reflexivity].
    destruct (Z.eqb_spec dy 0) as [->|]; [|reflexivity].
    contradiction.
Qed.

Lemma NoDup_outline_offsets (w : Z) : List.NoDup (outline_offsets w).
Proof.
  apply List.NoDup_filter, NoDup_list_prod; apply NoDup_py_range.
Qed.

Lemma length_outline_offsets (w : Z) :
  0 <= w -> Z.of_nat (length (outline_offsets w)) = (2 * w + 1) ^ 2 - 1.
Proof.
  intros Hw. unfold outline_offsets.
  set (R := py_range (- w) (w + 1)).
  assert (HR : Z.of_nat (length R) = 2 * w + 1).
  { unfold R. rewrite length_py_range; lia. }
  assert (H : S (length (List.filter
                (fun d : Z * Z => negb ((fst d =? 0) && (snd d =? 0)))
                (list_prod R R))) = length (list_prod R R)).
  { apply (length_filter_out _ _ (0, 0)).
    - apply NoDup_list_prod; apply NoDup_py_range.
    - apply in_prod_iff. unfold R. rewrite !in_py_range. lia.
    - intros [dx dy]. simpl. split.
      + intros H. apply negb_false_iff, andb_true_iff in H.
        destruct H as [H1 H2]. f_equal; lia.
      + intros H. injection H as -> ->. reflexivity. }
  rewrite length_prod in H. nia.
Qed.

(** C4.  For an outline width [w >= 0] (so for every [w >= 1]),
    [draw_text_with_outline] of either class draws on the image, in this
    order: one pass of the text in the outline colour at [origin + (dx, dy)]
    for exactly every pair of integers [dx, dy] of [[-w, w]] other than
    [(0, 0)], each once, which makes [(2w+1)^2 - 1] passes, and then one
    pass at the origin in the fill colour.  The fill is drawn last, so no
    outline pass covers it.  The class [TextOverlay] draws with the
    default alignment. *)
Theorem draw_text_with_outline_passes (m : Metrics) (im : Image) (x y : Z)
    (text : str) (font : Font) (fill outline : Color) (w : Z) (align : Align) :
  0 <= w ->
  exists offsets,
    POVTextOverlay.draw_text_with_outline m im (x, y) text font fill outline w
      align
      = add_ops m im (map (pass x y text font outline align) offsets
                      ++ [pass x y text font fill align (0, 0)])
    /\ TextOverlay.draw_text_with_outline m im (x, y) text font fill outline w
      = add_ops m im (map (pass x y text font outline AlignLeft) offsets
                      ++ [pass x y text font fill AlignLeft (0, 0)])
    /\ (forall dx dy, In (dx, dy) offsets
          <-> - w <= dx <= w /\ - w <= dy <= w /\ (dx, dy) <> (0, 0))
    /\ List.NoDup offsets
    /\ Z.of_nat (length offsets) = (2 * w + 1) ^ 2 - 1.
Proof.
  intros Hw. exists (outline_offsets w).
  assert (Hfill : forall im c a,
    draw_text m im (x, y) text font c a
    = add_ops m im [pass x y text font c a (0, 0)]).
  { intros im' c a. unfold add_ops, pass. cbn [fold_left op_xy op_text op_font
      op_fill op_align fst snd]. rewrite !Z.add_0_r. reflexivity. }
  split; [|split; [|split; [|split]]].
  - unfold POVTextOverlay.draw_text_with_outline.
    rewrite outline_loop_passes, Hfill, add_ops_app. reflexivity.
  - unfold TextOverlay.draw_text_with_outline.
    rewrite outline_loop_passes, Hfill, add_ops_app. reflexivity.
  - intros dx dy. apply (in_outline_offsets w (dx, dy)).
  - apply NoDup_outline_offsets.
  - apply length_outline_offsets, Hw.
Qed.

Lemma draw_text_with_outline_passes_witness :
  exists offsets,
    POVTextOverlay.draw_text_with_outline mono_metrics sample_dark_bg (10, 20)
      (py "POV") {| font_file := DEJAVU; font_size := 90 |} WHITE BLACK 2
      AlignCenter
      = add_ops mono_metrics sample_dark_bg
          (map (pass 10 20 (py "POV") {| font_file := DEJAVU; font_size := 90 |}
                  BLACK AlignCenter) offsets
           ++ [pass 10 20 (py "POV") {| font_file := DEJAVU; font_size := 90 |}
                 WHITE AlignCenter (0, 0)])
    /\ Z.of_nat (length offsets) = 24.
Proof.
  destruct (draw_text_with_outline_passes mono_metrics sample_dark_bg 10 20
              (py "POV")
              {| font_file := DEJAVU; font_size := 90 |} WHITE BLACK 2
              AlignCenter ltac:(lia))
    as [offsets [H1 [_ [_ [_ H5]]]]].
  exists offsets. split; [exact H1 | exact H5].
Defined.

(** ** Font resolution *)

Lemma explicit_font_usable_exists (w : World) (p : string) :
  TextOverlay.explicit_font_usable w (Some p) = os_path_exists w p.
Proof.
  unfold TextOverlay.explicit_font_usable, os_path_exists.
  destruct (String.eqb p ""); reflexivity.
Qed.

Lemma find_first {A} (f : A -> bool) (pre post : list A) (x : A) :
  Forall (fun a => f a = false) pre -> f x = true ->
  find f (pre ++ x :: post) = Some x.
Proof.
  intros Hpre Hx. induction Hpre as [|a pre Ha Hpre IH]; simpl.
  - rewrite Hx. reflexivity.
  - rewrite Ha. exact IH.
Qed.

Lemma find_none_iff {A} (f : A -> bool) (l : list A) :
  find f l = None <-> forall a, In a l -> f a = false.
Proof.
  split; [apply find_none|].
  induction l as [|a l IH]; intros H; [reflexivity|]. simpl.
  rewrite (H a) by (left; reflexivity). apply IH.
  intros b Hb. apply H. right. exact Hb.
Qed.

(** C5 as stated fails: [__init__] creates the output directory before it
    looks for a font, and the error of [os.makedirs] escapes.  With an
    output directory that names an existing file, the construction raises
    [FileExistsError] although the first fallback font exists. *)
Lemma init_raises_with_font_present :
  TextOverlay.init studio None "bg.jpg" = inl FileExistsError
  /\ os_path_exists studio DEJAVU = true
  /\ In DEJAVU (candidates None TextOverlay.system_fonts)
  /\ FileExistsError <> TextOverlay.NO_FONT.
Proof.
  split; [vm_compute; reflexivity|]. split; [vm_compute; reflexivity|].
  split; [left; reflexivity | discriminate].
Qed.

(** C5, as the code has it.  Once [os.makedirs] has put the output
    directory in place, [TextOverlay.__init__] resolves the font as
    follows: an explicit path that exists is selected
    whatever the fallback fonts; otherwise the first path of the fallback
    list, in its order, that exists is selected; and the construction
    raises, with the font-not-found error and no other, exactly when no
    candidate exists. *)
Theorem font_resolution (w w1 : World) (font_path : option string)
    (output_dir : string) :
  os_makedirs w output_dir = inr w1 ->
  (forall p, font_path = Some p -> os_path_exists w1 p = true ->
     TextOverlay.init w font_path output_dir
     = inr (w1, {| TextOverlay.font_path := p;
                   TextOverlay.output_dir := output_dir |}))
  /\ (forall pre f post,
        TextOverlay.explicit_font_usable w1 font_path = false ->
        TextOverlay.system_fonts = pre ++ f :: post ->
        Forall (fun q => os_path_exists w1 q = false) pre ->
        os_path_exists w1 f = true ->
        TextOverlay.init w font_path output_dir
        = inr (w1, {| TextOverlay.font_path := f;
                      TextOverlay.output_dir := output_dir |}))
  /\ ((exists e, TextOverlay.init w font_path output_dir = inl e)
      <-> forall c, In c (candidates font_path TextOverlay.system_fonts) ->
                    os_path_exists w1 c = false)
  /\ (forall e, TextOverlay.init w font_path output_dir = inl e ->
                e = TextOverlay.NO_FONT).
Proof.
  intros Hmk. unfold TextOverlay.init. rewrite Hmk. unfold bind.
  split; [|split; [|split]].
  - intros p -> Hp. rewrite explicit_font_usable_exists, Hp. reflexivity.
  - intros pre f post Hno Hsplit Hpre Hf. rewrite Hno, Hsplit.
    rewrite find_first by assumption. reflexivity.
  - destruct (TextOverlay.explicit_font_usable w1 font_path) eqn:Hexp.
    + split; [intros [e He]; discriminate|].
      intros Hnone. destruct font_path as [p|]; [|discriminate].
      rewrite explicit_font_usable_exists in Hexp.
      rewrite Hnone in Hexp; [discriminate | left; reflexivity].
    + destruct (find (os_path_exists w1) TextOverlay.system_fonts) as [f|] eqn:Hfind.
      * split; [intros [e He]; discriminate|].
        intros Hnone. apply find_some in Hfind. destruct Hfind as [Hin Hf].
        rewrite Hnone in Hf; [discriminate|].
        unfold candidates. apply in_or_app. right. exact Hin.
      * split; [|intros _; eexists; reflexivity].
        intros _ c Hc. unfold candidates in Hc. apply in_app_or in Hc.
        destruct Hc as [Hc | Hc].
        -- destruct font_path as [p|]; [|destruct Hc].
           destruct Hc as [<- | []].
           rewrite explicit_font_usable_exists in Hexp. exact Hexp.
        -- rewrite find_none_iff in Hfind. apply Hfind, Hc.
  - intros e.
    destruct (TextOverlay.explicit_font_usable w1 font_path); [discriminate|].
    destruct (find (os_path_exists w1) TextOverlay.system_fonts);
      [discriminate|].
    intros H. injection H as <-. reflexivity.
Qed.

Lemma font_resolution_witness :
  TextOverlay.init studio None "output"
  = inr (studio, {| TextOverlay.font_path := DEJAVU;
                    TextOverlay.output_dir := "output" |}).
Proof.
  destruct (font_resolution studio studio None "output" eq_refl)
    as [_ [H _]].
  apply (H [] DEJAVU (tl TextOverlay.system_fonts)).
  - reflexivity.
  - reflexivity.
  - constructor.
  - vm_compute. reflexivity.
Defined.

(** ** The composers, stage by stage *)

Lemma rectangle_mode_size (im : Image) xy fill :
  im_mode (rectangle im xy fill) = im_mode im
  /\ im_size (rectangle im xy fill) = im_size im.
Proof. destruct xy as [[[x0 y0] x1] y1]. split; reflexivity. Qed.

Lemma fold_left_invariant {A B} (P : A -> Prop) (f : A -> B -> A)
    (l : list B) (a : A) :
  P a -> (forall a b, P a -> P (f a b)) -> P (fold_left f l a).
Proof.
  intros Ha Hf. revert a Ha. induction l as [|b l IH]; intros a Ha; simpl.
  - exact Ha.
  - apply IH, Hf, Ha.
Qed.

Lemma vignette_mode_size (width height : Z) (overlay : Image) :
  im_mode (vignette width height overlay) = im_mode overlay
  /\ im_size (vignette width height overlay) = im_size overlay.
Proof.
  unfold vignette.
  apply (fold_left_invariant
           (fun im => im_mode im = im_mode overlay
                      /\ im_size im = im_size overlay)).
  - split; reflexivity.
  - intros im i [H1 H2].
    destruct (rectangle_mode_size im (vignette_band width height i)
                (0, 0, 0, 100 - i)) as [H3 H4].
    split; [rewrite <- H1 | rewrite <- H2]; assumption.
Qed.

(** Compositing the vignette never fails. *)
Lemma alpha_composite_vignette (img : Image) :
  im_mode img = RGBA ->
  alpha_composite img
    (vignette (fst (im_size img)) (snd (im_size img))
       (Image_new RGBA (im_size img) (0, 0, 0, 0)))
  = inr (vignetted img).
Proof.
  intros Hmode. unfold alpha_composite.
  destruct (vignette_mode_size (fst (im_size img)) (snd (im_size img))
              (Image_new RGBA (im_size img) (0, 0, 0, 0))) as [H1 H2].
  change (im_mode (Image_new RGBA (im_size img) (0, 0, 0, 0))) with RGBA in H1.
  change (im_size (Image_new RGBA (im_size img) (0, 0, 0, 0)))
    with (im_size img) in H2.
  rewrite Hmode, H1, H2, !Z.eqb_refl. reflexivity.
Qed.

(** [add_text_to_image], read as its three stages that may fail: opening
    the image, loading the font at the size [int(width / 15)], saving. *)
Lemma add_text_body_stages (w : World) (self : TextOverlay.t)
    (image_path : string) (text : str) (output_filename : option string) :
  TextOverlay.add_text_body w self image_path text output_filename
  = (img <~ reads (fun w => Image_open w image_path) ;;
     font <~ reads (fun w => truetype w (TextOverlay.font_path self)
                               (int_of_float (truediv (fst (im_size img)) 15))) ;;
     engine <~ reads (fun w => ret (w_metrics w)) ;;
     let name := output_name (TextOverlay.default_output self image_path)
                   output_filename in
     _ <~ writes (fun w => save w name (rendered engine font img text)) ;;
     _ <~ prints (PrCreated name) ;;
     io_ret name) w.
Proof.
  unfold TextOverlay.add_text_body, io_bind, reads.
  destruct (Image_open w image_path) as [e | img]; [reflexivity|].
  rewrite (alpha_composite_vignette (convert img RGBA)) by reflexivity.
  reflexivity.
Qed.

Lemma add_pov_text_body_stages (wordsep : str -> list str) (w : World)
    (self : POVTextOverlay.t) (image_path : string) (quote_text : str)
    (output_filename : option string) :
  POVTextOverlay.add_pov_text_body wordsep w self image_path quote_text
    output_filename
  = (img <~ reads (fun w => Image_open w image_path) ;;
     pov_font <~ reads (fun w => truetype w (POVTextOverlay.font_path self)
                         (int_of_float (truediv (fst (im_size img)) 12))) ;;
     quote_font <~ reads (fun w => truetype w (POVTextOverlay.font_path self)
                           (int_of_float (truediv (fst (im_size img)) 18))) ;;
     wrapped_quote <~
       reads (fun _ => POVTextOverlay.wrap_text wordsep quote_text quote_font
                         (fst (im_size img) - 2 * 40)) ;;
     engine <~ reads (fun w => ret (w_metrics w)) ;;
     let name := output_name (POVTextOverlay.default_output self image_path)
                   output_filename in
     _ <~ writes (fun w => save w name
                    (pov_rendered engine pov_font quote_font img wrapped_quote)) ;;
     _ <~ prints (PrCreated name) ;;
     io_ret name) w.
Proof.
  unfold POVTextOverlay.add_pov_text_body, io_bind, reads.
  destruct (Image_open w image_path) as [e | img]; [reflexivity|].
  rewrite (alpha_composite_vignette (convert img RGBA)) by reflexivity.
  reflexivity.
Qed.

Arguments vignette : simpl never.
Arguments vignette_band : simpl never.
Arguments int_of_float : simpl never.
Arguments truediv : simpl never.

Lemma save_sink (w w' : World) (path : string) (im : Image) :
  save w path im = inr w' ->
  w_saved w' = w_saved w ++ [(path, im)] /\ w_stdout w' = w_stdout w.
Proof.
  unfold save. destruct (negb (bool_decide _)); [discriminate|].
  destruct (String.eqb path ""); [discriminate|].
  destruct (bool_decide (path ∈ w_dirs w)); [discriminate|].
  destruct (negb (dir_exists w (dirname (py path)))); [discriminate|].
  destruct (bool_decide (path ∈ w_denied w)); [discriminate|].
  intros H. injection H as <-. split; reflexivity.
Qed.

(** The body of [add_text_to_image] writes last: when it raises, the
    world is as it found it; when it returns, every stage has succeeded
    and the world is the one [save] left, with one line printed. *)
Lemma add_text_body_outcome (w : World) (self : TextOverlay.t)
    (image_path : string) (text : str) (output_filename : option string) :
  let body := TextOverlay.add_text_body w self image_path text
                output_filename in
  match snd body with
  | inl e => fst body = w
  | inr name =>
      exists img font w1,
        Image_open w image_path = inr img
        /\ truetype w (TextOverlay.font_path self)
             (int_of_float (truediv (fst (im_size img)) 15)) = inr font
        /\ name = output_name (TextOverlay.default_output self image_path)
                    output_filename
        /\ save w name (rendered (w_metrics w) font img text) = inr w1
        /\ fst body = print w1 (PrCreated name)
  end.
Proof.
  cbv zeta. rewrite add_text_body_stages.
  unfold io_bind, reads, writes, prints, io_ret, ret.
  destruct (Image_open w image_path) as [e | img]; [reflexivity|].
  destruct (truetype w _ _) as [e | font] eqn:Hfont; [reflexivity|].
  destruct (save w _ _) as [e | w1] eqn:Hsave; [reflexivity|].
  cbn [fst snd]. exists img, font, w1.
  split; [reflexivity|]. split; [exact Hfont|]. split; [reflexivity|].
  split; [exact Hsave | reflexivity].
Qed.

Lemma add_pov_text_body_outcome (wordsep : str -> list str) (w : World)
    (self : POVTextOverlay.t) (image_path : string) (quote_text : str)
    (output_filename : option string) :
  let body := POVTextOverlay.add_pov_text_body wordsep w self image_path
                quote_text output_filename in
  match snd body with
  | inl e => fst body = w
  | inr name =>
      exists img pov_font quote_font wrapped_quote w1,
        Image_open w image_path = inr img
        /\ truetype w (POVTextOverlay.font_path self)
             (int_of_float (truediv (fst (im_size img)) 12)) = inr pov_font
        /\ truetype w (POVTextOverlay.font_path self)
             (int_of_float (truediv (fst (im_size img)) 18)) = inr quote_font
        /\ POVTextOverlay.wrap_text wordsep quote_text quote_font
             (fst (im_size img) - 2 * 40) = inr wrapped_quote
        /\ name = output_name (POVTextOverlay.default_output self image_path)
                    output_filename
        /\ save w name (pov_rendered (w_metrics w) pov_font quote_font img
                          wrapped_quote) = inr w1
        /\ fst body = print w1 (PrCreated name)
  end.
Proof.
  cbv zeta. rewrite add_pov_text_body_stages.
  unfold io_bind, reads, writes, prints, io_ret, ret.
  destruct (Image_open w image_path) as [e | img]; [reflexivity|].
  destruct (truetype w _ (int_of_float (truediv (fst (im_size img)) 12)))
    as [e | pov_font] eqn:Hpf; [reflexivity|].
  destruct (truetype w _ (int_of_float (truediv (fst (im_size img)) 18)))
    as [e | quote_font] eqn:Hqf; [reflexivity|].
  destruct (POVTextOverlay.wrap_text wordsep quote_text quote_font _)
    as [e | wrapped_quote] eqn:Hwrap; [reflexivity|].
  destruct (save w _ _) as [e | w1] eqn:Hsave; [reflexivity|].
  cbn [fst snd]. exists img, pov_font, quote_font, wrapped_quote, w1.
  split; [reflexivity|]. split; [exact Hpf|]. split; [exact Hqf|].
  split; [exact Hwrap|]. split; [reflexivity|].
  split; [exact Hsave | reflexivity].
Qed.

(** What a call of [add_text_to_image] leaves: either [None], one printed
    line and nothing else changed, because a stage raised; or a name, and
    then the sink has received one image under that name, the final one. *)
Lemma add_text_to_image_outcome (w : World) (self : TextOverlay.t)
    (image_path : string) (text : str) (output_filename : option string) :
  let out := TextOverlay.add_text_to_image w self image_path text
               output_filename in
  match snd out with
  | None =>
      exists e,
        snd (TextOverlay.add_text_body w self image_path text output_filename)
          = inl e
        /\ fst out = print w (PrErrorAddingText e)
  | Some name =>
      exists img font,
        Image_open w image_path = inr img
        /\ truetype w (TextOverlay.font_path self)
             (int_of_float (truediv (fst (im_size img)) 15)) = inr font
        /\ name = output_name (TextOverlay.default_output self image_path)
                    output_filename
        /\ w_saved (fst out)
           = w_saved w ++ [(name, rendered (w_metrics w) font img text)]
        /\ w_stdout (fst out) = w_stdout w ++ [PrCreated name]
  end.
Proof.
  pose proof (add_text_body_outcome w self image_path text output_filename)
    as Hbody.
  cbv zeta in *. unfold TextOverlay.add_text_to_image.
  destruct (TextOverlay.add_text_body w self image_path text output_filename)
    as [wb [e | name]]; cbn [fst snd] in *.
  - exists e. subst wb. split; reflexivity.
  - destruct Hbody as [img [font [w1 [Hopen [Hfont [Hname [Hsave Hw]]]]]]].
    subst wb. apply save_sink in Hsave. destruct Hsave as [Hs Ho].
    exists img, font. split; [exact Hopen|]. split; [exact Hfont|].
    split; [exact Hname|]. split; [exact Hs|].
    cbn [print w_stdout]. rewrite Ho. reflexivity.
Qed.

Lemma add_pov_text_to_image_outcome (wordsep : str -> list str) (w : World)
    (self : POVTextOverlay.t) (image_path : string) (quote_text : str)
    (output_filename : option string) :
  let out := POVTextOverlay.add_pov_text_to_image wordsep w self image_path
               quote_text output_filename in
  match snd out with
  | None =>
      exists e,
        snd (POVTextOverlay.add_pov_text_body wordsep w self image_path
               quote_text output_filename) = inl e
        /\ fst out = print w (PrErrorAddingPOVText e)
  | Some name =>
      exists img pov_font quote_font wrapped_quote,
        Image_open w image_path = inr img
        /\ truetype w (POVTextOverlay.font_path self)
             (int_of_float (truediv (fst (im_size img)) 12)) = inr pov_font
        /\ truetype w (POVTextOverlay.font_path self)
             (int_of_float (truediv (fst (im_size img)) 18)) = inr quote_font
        /\ POVTextOverlay.wrap_text wordsep quote_text quote_font
             (fst (im_size img) - 2 * 40) = inr wrapped_quote
        /\ name = output_name (POVTextOverlay.default_output self image_path)
                    output_filename
        /\ w_saved (fst out)
           = w_saved w
             ++ [(name, pov_rendered (w_metrics w) pov_font quote_font img
                          wrapped_quote)]
        /\ w_stdout (fst out) = w_stdout w ++ [PrCreated name]
  end.
Proof.
  pose proof (add_pov_text_body_outcome wordsep w self image_path quote_text
                output_filename) as Hbody.
  cbv zeta in *. unfold POVTextOverlay.add_pov_text_to_image.
  destruct (POVTextOverlay.add_pov_text_body wordsep w self image_path
              quote_text output_filename) as [wb [e | name]];
    cbn [fst snd] in *.
  - exists e. subst wb. split; reflexivity.
  - destruct Hbody
      as [img [pf [qf [wq [w1 [Hopen [Hpf [Hqf [Hwrap [Hname [Hsave Hw]]]]]]]]]]].
    subst wb. apply save_sink in Hsave. destruct Hsave as [Hs Ho].
    exists img, pf, qf, wq. split; [exact Hopen|]. split; [exact Hpf|].
    split; [exact Hqf|]. split; [exact Hwrap|]. split; [exact Hname|].
    split; [exact Hs|]. cbn [print w_stdout]. rewrite Ho. reflexivity.
Qed.



(** ** Blank captions *)

Lemma split_blank (text : str) :
  Forall (fun c => isspace c = true) text -> split text = [].
Proof.
  unfold split. induction 1 as [|c text Hc Hb IH]; [reflexivity|].
  simpl. rewrite Hc. exact IH.
Qed.

Lemma wrap_text_blank (m : Metrics) (text : str) (font : Font) (max_width : Z) :
  Forall (fun c => isspace c = true) text ->
  TextOverlay.wrap_text m text font max_width = [].
Proof.
  intros Hb. unfold TextOverlay.wrap_text, TextOverlay.wrap_lines.
  rewrite (split_blank text Hb). reflexivity.
Qed.

Lemma rendered_blank (m : Metrics) (font : Font) (img : Image) (text : str) :
  Forall (fun c => isspace c = true) text ->
  rendered m font img text = rendered m font img [].
Proof.
  intros Hb. unfold rendered, TextOverlay.layout.
  rewrite (wrap_text_blank m text font _ Hb). reflexivity.
Qed.

(** C3 as stated fails: with the sample background and a caption of three
    spaces, the composer returns the name of an output and the sink
    holds that file. *)
Lemma blank_caption_is_saved :
  let out := TextOverlay.add_text_to_image studio overlay_tool "bg.jpg"
               (py "   ") None in
  snd out = Some "output/bg_quote.jpg"%string
  /\ map fst (w_saved (fst out)) = ["output/bg_quote.jpg"%string]
  /\ w_stdout (fst out) = [PrCreated "output/bg_quote.jpg"].
Proof. vm_compute. repeat split; reflexivity. Qed.

(** C3, as the code has it.  [add_text_to_image] does not look at the
    caption before laying it out: for a caption that is empty or made of
    whitespace only, the wrapped text is empty and the call does what it
    does for the empty caption; when the image opens, the font loads and
    the file can be written, the vignetted image, with the empty text
    drawn on it, goes to the sink and the name of the output is returned. *)
Theorem blank_caption_is_rendered (w w' : World) (self : TextOverlay.t)
    (image_path : string) (text : str) (output_filename : option string)
    (img : Image) (font : Font) :
  Forall (fun c => isspace c = true) text ->
  Image_open w image_path = inr img ->
  truetype w (TextOverlay.font_path self)
    (int_of_float (truediv (fst (im_size img)) 15)) = inr font ->
  save w (output_name (TextOverlay.default_output self image_path)
            output_filename)
    (rendered (w_metrics w) font img []) = inr w' ->
  TextOverlay.wrap_text (w_metrics w) text font (fst (im_size img) - 2 * 20) = []
  /\ TextOverlay.add_text_to_image w self image_path text output_filename
     = TextOverlay.add_text_to_image w self image_path [] output_filename
  /\ snd (TextOverlay.add_text_to_image w self image_path text output_filename)
     = Some (output_name (TextOverlay.default_output self image_path)
               output_filename)
  /\ w_saved (fst (TextOverlay.add_text_to_image w self image_path text
                     output_filename))
     = w_saved w
       ++ [(output_name (TextOverlay.default_output self image_path)
              output_filename,
            rendered (w_metrics w) font img [])].
Proof.
  intros Hb Hopen Hfont Hsave.
  assert (Hbody : forall t, Forall (fun c => isspace c = true) t ->
    TextOverlay.add_text_body w self image_path t output_filename
    = (print w' (PrCreated (output_name
             (TextOverlay.default_output self image_path) output_filename)),
       inr (output_name (TextOverlay.default_output self image_path)
              output_filename))).
  { intros t Ht. rewrite add_text_body_stages.
    unfold io_bind, reads, writes, prints, io_ret, ret.
    rewrite Hopen, Hfont, (rendered_blank _ _ _ t Ht), Hsave. reflexivity. }
  split; [apply wrap_text_blank, Hb|].
  unfold TextOverlay.add_text_to_image.
  rewrite (Hbody text Hb), (Hbody [] (List.Forall_nil _)). cbn [fst snd].
  split; [reflexivity|]. split; [reflexivity|].
  cbn [print w_saved]. apply save_sink in Hsave. apply Hsave.
Qed.

Lemma blank_caption_is_rendered_witness :
  exists w' img font,
    TextOverlay.wrap_text (w_metrics studio) (py "   ") font (1080 - 2 * 20) = []
    /\ snd (TextOverlay.add_text_to_image studio overlay_tool "bg.jpg"
              (py "   ") None)
       = Some "output/bg_quote.jpg"%string
    /\ w_saved (fst (TextOverlay.add_text_to_image studio overlay_tool "bg.jpg"
                       (py "   ") None))
       = [("output/bg_quote.jpg"%string, rendered mono_metrics font img [])]
    /\ save studio "output/bg_quote.jpg" (rendered mono_metrics font img [])
       = inr w'.
Proof.
  eexists _, sample_dark_bg, {| font_file := DEJAVU; font_size := 72 |}.
  assert (Hsave : save studio
            (output_name (TextOverlay.default_output overlay_tool "bg.jpg") None)
            (rendered (w_metrics studio)
               {| font_file := DEJAVU; font_size := 72 |} sample_dark_bg [])
          = inr _) by reflexivity.
  destruct (blank_caption_is_rendered studio _ overlay_tool "bg.jpg"
              (py "   ") None sample_dark_bg
              {| font_file := DEJAVU; font_size := 72 |}
              ltac:(repeat constructor) eq_refl eq_refl Hsave)
    as [H1 [_ [H3 H4]]].
  split; [exact H1|]. split; [exact H3|]. split; [exact H4 | exact Hsave].
Defined.

(** ** Sizes and positions computed in floating point *)

Lemma all_from_spec (n : nat) (z : Z) (p : Z -> bool) :
  all_from n z p = true ->
  forall k, z <= k < z + Z.of_nat n -> p k = true.
Proof.
  revert z. induction n as [|n IH]; intros z H k Hk; [lia|].
  simpl in H. apply andb_true_iff in H. destruct H as [Hz Hrest].
  destruct (Z.eq_dec k z) as [->|Hne]; [exact Hz|].
  apply (IH (z + 1) Hrest). lia.
Qed.

Lemma sizes_checked :
  all_from (Z.to_nat (MAX_SIDE + 1)) 0 sizes_as_quotients = true.
Proof. vm_compute. reflexivity. Qed.

Lemma sizes_checked_at (n : Z) :
  0 <= n <= MAX_SIDE -> sizes_as_quotients n = true.
Proof.
  intros Hn. apply (all_from_spec _ _ _ sizes_checked n).
  unfold MAX_SIDE in *. lia.
Qed.

(** On every side length up to 65535, [int(n / 15)], [int(n / 12)] and
    [int(n / 18)] are the integer quotients, [int(n * 0.05)] is
    [n // 20], and [int(n * 0.35)] is [7 * n // 20] or one less. *)
Lemma sizes_in_range (n : Z) :
  0 <= n <= MAX_SIDE ->
  int_of_float (truediv n 15) = n / 15
  /\ int_of_float (truediv n 12) = n / 12
  /\ int_of_float (truediv n 18) = n / 18
  /\ int_of_float (fmul (float_of_Z n) 0.05%float) = n / 20
  /\ 7 * n / 20 - 1 <= int_of_float (fmul (float_of_Z n) 0.35%float) <= 7 * n / 20.
Proof.
  intros Hn. pose proof (sizes_checked_at n Hn) as H.
  unfold sizes_as_quotients in H.
  repeat (apply andb_true_iff in H; destruct H as [H ?]).
  repeat split; lia.
Qed.

(** Half a font size between 1 and 65535 is not zero, and the budget of
    characters the second tool computes for an image of width between 80
    and 65535 is the integer quotient of twice the text width by the font
    size. *)
Lemma budget_in_range (n : Z) :
  1 <= n <= MAX_SIDE ->
  PrimFloat.eqb (fmul (float_of_Z n) 0.5%float) 0%float = false
  /\ (80 <= n ->
      int_of_float (fdiv (float_of_Z (n - 80))
                      (fmul (float_of_Z (n / 18)) 0.5%float))
      = 2 * (n - 80) / (n / 18)).
Proof.
  intros Hn. pose proof (sizes_checked_at n ltac:(lia)) as H.
  unfold sizes_as_quotients in H.
  repeat (apply andb_true_iff in H; destruct H as [H ?]).
  split.
  - destruct (Z.eqb_spec n 0); [lia|].
    destruct (PrimFloat.eqb _ _); [discriminate | reflexivity].
  - intros H80. destruct (Z.ltb_spec n 80); [lia|]. simpl in *. lia.
Qed.


Lemma truetype_font (w : World) (path : string) (size : Z) (font : Font) :
  truetype w path size = inr font ->
  font = {| font_file := path; font_size := size |} /\ 1 <= size.
Proof.
  unfold truetype. destruct (Z.leb_spec size 0) as [Hle | Hgt]; [discriminate|].
  destruct (bool_decide (path ∈ w_fonts w)); [|discriminate].
  intros Hf. injection Hf as <-. split; [reflexivity | lia].
Qed.

(** ** Single-block mode *)

(** The position [add_text_to_image] draws at: the box of the measured
    width and height, put at that position, has its middle within one
    pixel of the middle of the image; the ink of the text is that box
    moved by the left and top offsets of the measured box, which the code
    leaves out of the position. *)
Lemma single_block_origin (m : Metrics) (font : Font) (width height : Z)
    (text : str) :
  let lay := TextOverlay.layout m font width height text in
  let '(b0, b1, b2, b3) := m font AlignLeft (TextOverlay.lay_text lay) in
  let '(text_x, text_y) := TextOverlay.lay_xy lay in
  TextOverlay.lay_text lay = TextOverlay.wrap_text m text font (width - 2 * 20)
  /\ 0 <= width - (2 * text_x + (b2 - b0)) <= 1
  /\ 0 <= height - (2 * text_y + (b3 - b1)) <= 1
  /\ textbbox m (text_x, text_y) (TextOverlay.lay_text lay) font AlignLeft
     = (text_x + b0, text_y + b1, text_x + b2, text_y + b3).
Proof.
  unfold TextOverlay.layout, textbbox. cbn [fst snd].
  set (wrapped := TextOverlay.wrap_text m text font (width - 2 * 20)).
  destruct (m font AlignLeft wrapped) as [[[b0 b1] b2] b3] eqn:Hbox.
  rewrite !Z.add_0_l. cbn [TextOverlay.lay_text TextOverlay.lay_xy].
  rewrite Hbox.
  split; [reflexivity|].
  pose proof (Z.div_mod (width - (b2 - b0)) 2 ltac:(lia)).
  pose proof (Z.mod_pos_bound (width - (b2 - b0)) 2 ltac:(lia)).
  pose proof (Z.div_mod (height - (b3 - b1)) 2 ltac:(lia)).
  pose proof (Z.mod_pos_bound (height - (b3 - b1)) 2 ltac:(lia)).
  repeat split; try lia.
Qed.

(** C6 fails on the code.  On the 1080 x 1920 sample background, with the
    caption "Hi" and a font whose ink starts 14 pixels below the drawing
    position at size 72, the font size is 72 = 1080 // 15 and the fill
    pass is drawn at (497, 931); its ink spans 497..583 horizontally, with
    middle 540 = 1080 / 2, and 945..1003 vertically, with middle 974, that
    is 14 pixels below 1920 / 2 = 960. *)
Theorem single_block_ink_below_center :
  let out := TextOverlay.add_text_to_image studio overlay_tool "bg.jpg"
               (py "Hi") None in
  map (fun saved =>
         (fst saved, im_size (snd saved),
          map (fun op => (font_size (op_font op), op_xy op))
            (List.filter (fun op => color_eqb (op_fill op) WHITE)
               (im_text (snd saved))),
          ink_of mono_metrics WHITE (snd saved)))
      (w_saved (fst out))
  = [("output/bg_quote.jpg"%string, (1080, 1920), [(72, (497, 931))],
      [(497, 945, 583, 1003)])].
Proof. vm_compute. reflexivity. Qed.

(** ** Two-block mode *)

(** The placement of the two blocks, for any metrics. *)
Lemma two_block_origins (m : Metrics) (pov_font quote_font : Font)
    (width height : Z) (wrapped_quote : str) :
  let lay := POVTextOverlay.layout m pov_font quote_font width height
               wrapped_quote in
  let '(p0, p1, p2, p3) := m pov_font AlignLeft POVTextOverlay.pov_text in
  let '(q0, q1, q2, q3) := m quote_font AlignCenter wrapped_quote in
  POVTextOverlay.pov_xy lay
  = ((width - (p2 - p0)) / 2,
     int_of_float (fmul (float_of_Z height) 0.35%float))
  /\ POVTextOverlay.quote_xy lay
     = ((width - (q2 - q0)) / 2,
        int_of_float (fmul (float_of_Z height) 0.35%float) + (p3 - p1)
        + int_of_float (fmul (float_of_Z height) 0.05%float))
  /\ 0 <= width - (2 * fst (POVTextOverlay.pov_xy lay) + (p2 - p0)) <= 1
  /\ 0 <= width - (2 * fst (POVTextOverlay.quote_xy lay) + (q2 - q0)) <= 1.
Proof.
  unfold POVTextOverlay.layout, textbbox. cbn [fst snd].
  destruct (m pov_font AlignLeft POVTextOverlay.pov_text)
    as [[[p0 p1] p2] p3].
  destruct (m quote_font AlignCenter wrapped_quote) as [[[q0 q1] q2] q3].
  rewrite !Z.add_0_l. cbn [POVTextOverlay.pov_xy POVTextOverlay.quote_xy fst snd].
  split; [reflexivity|]. split; [reflexivity|].
  pose proof (Z.div_mod (width - (p2 - p0)) 2 ltac:(lia)).
  pose proof (Z.mod_pos_bound (width - (p2 - p0)) 2 ltac:(lia)).
  pose proof (Z.div_mod (width - (q2 - q0)) 2 ltac:(lia)).
  pose proof (Z.mod_pos_bound (width - (q2 - q0)) 2 ltac:(lia)).
  lia.
Qed.


(** ** The vignette *)

(** C1 fails on the code.  On the uniformly coloured 1080 x 1920 sample
    background, colour (20, 20, 30), the vignette leaves the alpha 1 at
    the centre pixel (540, 960) of the overlay and the alpha 100 at the
    corner pixel (0, 0): every band replaces the transparency written by
    the bands before it, so the centre keeps the alpha of the last and
    smallest band and the border that of the first.  Once composited, the
    image is darkened by 8 levels of luminance at the corner, the pixel
    farthest from the centre, and not at all at the centre.  The saved
    image shows the same: the pixel (540, 940), just above the text, is
    not darkened and the corner is darkened by 8. *)
Theorem vignette_darkens_corner_not_center :
  let out := TextOverlay.add_text_to_image studio overlay_tool "bg.jpg"
               (py "Hi") None in
  let overlay := vignette 1080 1920 (Image_new RGBA (1080, 1920) (0, 0, 0, 0)) in
  let composited := vignetted (convert sample_dark_bg RGBA) in
  im_px overlay 540 960 = (0, 0, 0, 1)
  /\ im_px overlay 0 0 = (0, 0, 0, 100)
  /\ (darkening (20, 20, 30, 255) (im_px composited 540 960),
      darkening (20, 20, 30, 255) (im_px composited 0 0)) = (0, 8)
  /\ map (fun saved =>
            (darkening (20, 20, 30, 255) (im_px (snd saved) 540 940),
             darkening (20, 20, 30, 255) (im_px (snd saved) 0 0)))
       (w_saved (fst out))
     = [(0, 8)].
Proof. vm_compute. repeat split; reflexivity. Qed.

(** ** [textwrap.wrap] *)

Lemma total_len_app (a b : list str) :
  total_len (a ++ b) = total_len a + total_len b.
Proof.
  induction a as [|c a IH]; simpl; [reflexivity|]. rewrite IH. lia.
Qed.

Lemma len_concat (l : list str) : textwrap.len (concat l) = total_len l.
Proof.
  unfold textwrap.len. induction l as [|c l IH]; simpl; [reflexivity|].
  rewrite length_app, Nat2Z.inj_add, IH. reflexivity.
Qed.

Lemma total_len_nonneg (l : list str) : 0 <= total_len l.
Proof.
  induction l as [|c l IH]; simpl; [lia|]. unfold textwrap.len. lia.
Qed.

Lemma weight_app (a b : list str) :
  textwrap.weight (a ++ b) = (textwrap.weight a + textwrap.weight b)%nat.
Proof.
  induction a as [|c a IH]; simpl; [reflexivity|]. rewrite IH. lia.
Qed.

(** The inner loop moves a prefix of the chunks to the line; the line
    still fits; the chunk left first, if any, does not fit any more. *)
Lemma take_fitting_spec (width : Z) (chunks : list str) :
  forall cur_line cur_len chunks' cur_line' cur_len',
  textwrap.take_fitting width chunks cur_line cur_len
    = (chunks', cur_line', cur_len') ->
  cur_len = total_len cur_line ->
  exists taken,
    chunks = taken ++ chunks'
    /\ cur_line' = cur_line ++ taken
    /\ cur_len' = total_len cur_line'
    /\ (cur_len <= width -> cur_len' <= width)
    /\ match chunks' with
       | [] => True
       | c :: _ => width < cur_len' + textwrap.len c
       end.
Proof.
  induction chunks as [|c chunks IH];
    intros cur_line cur_len chunks' cur_line' cur_len' Htake Hlen; simpl in Htake.
  - injection Htake as <- <- <-. exists []. rewrite !app_nil_r.
    split; [reflexivity|]. split; [reflexivity|]. split; [exact Hlen|].
    split; [auto | exact I].
  - destruct (Z.leb_spec (cur_len + textwrap.len c) width) as [Hfit | Hover].
    + apply IH in Htake.
      * destruct Htake as [taken [H1 [H2 [H3 [H4 H5]]]]].
        exists (c :: taken). rewrite <- app_assoc in H2.
        split; [rewrite H1; reflexivity|]. split; [exact H2|].
        split; [exact H3|]. split; [intros; apply H4; lia | exact H5].
      * rewrite total_len_app. simpl. lia.
    + injection Htake as <- <- <-. exists []. rewrite !app_nil_r.
      split; [reflexivity|]. split; [reflexivity|]. split; [exact Hlen|].
      split; [auto | lia].
Qed.

Lemma rfind_hyphen_from_bound (chunk : str) :
  forall i stop found,
  found < stop -> textwrap.rfind_hyphen_from i chunk stop found < stop.
Proof.
  induction chunk as [|c chunk IH]; intros i stop found Hf; simpl; [exact Hf|].
  destruct (Z.ltb_spec i stop); [|exact Hf].
  apply IH. destruct (Ascii.eqb c textwrap.HYPHEN); assumption.
Qed.

(** A word too long for a line is cut: its head, no longer than the room
    left, joins the line; on an empty line the head is not empty. *)
Lemma handle_long_word_spec (chunk : str) (rest cur_line : list str)
    (cur_len width : Z) :
  1 <= width -> 0 <= cur_len <= width ->
  exists e : nat,
    textwrap.handle_long_word (chunk :: rest) cur_line cur_len width
      = (skipn e chunk :: rest, cur_line ++ [firstn e chunk])
    /\ Z.of_nat e <= width - cur_len
    /\ (cur_len = 0 -> (1 <= e)%nat).
Proof.
  intros Hw Hlen. unfold textwrap.handle_long_word.
  destruct (Z.ltb_spec width 1); [lia|].
  set (hyphen := textwrap.rfind_hyphen chunk (width - cur_len)).
  assert (Hh : hyphen < width - cur_len).
  { destruct (Z.eq_dec (width - cur_len) 0) as [H0 | H0].
    - unfold hyphen, textwrap.rfind_hyphen. rewrite H0.
      destruct chunk; simpl; lia.
    - apply rfind_hyphen_from_bound. lia. }
  match goal with
  | |- context [if ?c then hyphen + 1 else _] => destruct c eqn:Hc
  end.
  - exists (Z.to_nat (hyphen + 1)). split; [reflexivity|].
    apply andb_true_iff in Hc. destruct Hc as [Hc _].
    apply andb_true_iff in Hc. destruct Hc as [_ Hc].
    apply Z.gtb_lt in Hc. split; lia.
  - exists (Z.to_nat (width - cur_len)). split; [reflexivity|]. split; lia.
Qed.

Lemma skipn_weight (e : nat) (chunk : str) (rest : list str) :
  (textwrap.weight (skipn e chunk :: rest)
   <= textwrap.weight (chunk :: rest))%nat
  /\ ((1 <= e)%nat -> chunk <> [] ->
      (textwrap.weight (skipn e chunk :: rest)
       < textwrap.weight (chunk :: rest))%nat).
Proof.
  simpl. rewrite length_skipn. split; [lia|].
  intros He Hc. destruct chunk; [contradiction|]. simpl. lia.
Qed.

Lemma len_firstn (e : nat) (chunk : str) :
  textwrap.len (firstn e chunk) <= Z.of_nat e.
Proof. unfold textwrap.len. rewrite length_firstn. lia. Qed.

Lemma total_len_drop_last (cur_line before : list str) (c : str) :
  rev cur_line = c :: before -> total_len (rev before) <= total_len cur_line.
Proof.
  intros H. apply (f_equal (@rev str)) in H. rewrite rev_involutive in H.
  subst cur_line. simpl. rewrite total_len_app. simpl. unfold textwrap.len. lia.
Qed.

(** One turn of the outer loop on a positive width: the chunks lose
    weight, and the line added, if any, is not longer than the width. *)
Lemma wrap_step_spec (width : Z) (chunks lines chunks' lines' : list str) :
  1 <= width -> chunks <> [] ->
  textwrap.wrap_step width chunks lines = (chunks', lines') ->
  (textwrap.weight chunks' < textwrap.weight chunks)%nat
  /\ exists new,
       lines' = lines ++ new
       /\ Forall (fun l => textwrap.len l <= width) new.
Proof.
  intros Hw Hne. unfold textwrap.wrap_step.
  set (chunks1 := match chunks with
                  | c :: rest =>
                      if textwrap.is_blank c && truthy lines then rest else chunks
                  | [] => chunks
                  end).
  assert (H1 : (textwrap.weight chunks1 <= textwrap.weight chunks)%nat
               /\ (chunks1 = chunks
                   \/ (textwrap.weight chunks1 < textwrap.weight chunks)%nat)).
  { unfold chunks1. destruct chunks as [|c rest]; [contradiction|].
    destruct (textwrap.is_blank c && truthy lines); simpl.
    - split; [lia | right; lia].
    - split; [lia | left; reflexivity]. }
  destruct H1 as [Hle Hdrop].
  destruct (textwrap.take_fitting width chunks1 [] 0)
    as [[chunks2 cur_line2] cur_len2] eqn:Htake.
  apply take_fitting_spec in Htake; [|reflexivity].
  destruct Htake as [taken [Hc1 [Hl2 [Hlen2 [Hfit2 Hnext]]]]].
  simpl in Hl2. subst cur_line2. specialize (Hfit2 ltac:(lia)).
  assert (Hw1 : textwrap.weight chunks1
                = (textwrap.weight taken + textwrap.weight chunks2)%nat).
  { rewrite Hc1. apply weight_app. }
  pose proof (total_len_nonneg taken) as Hnn.
  (* the long word *)
  assert (H3 : exists chunks3 cur_line3,
    (match chunks2 with
     | c :: _ => if textwrap.len c >? width
                 then textwrap.handle_long_word chunks2 taken cur_len2 width
                 else (chunks2, taken)
     | [] => (chunks2, taken)
     end) = (chunks3, cur_line3)
    /\ total_len cur_line3 <= width
    /\ (textwrap.weight chunks3 < textwrap.weight chunks)%nat).
  { destruct chunks2 as [|c rest2].
    - exists [], taken. split; [reflexivity|]. split; [lia|].
      destruct Hdrop as [Heq | Hlt]; [|simpl in *; lia].
      rewrite <- Heq, Hw1. destruct taken as [|t taken].
      + rewrite app_nil_l in Hc1. rewrite Heq in Hc1. contradiction.
      + simpl. lia.
    - destruct (Z.gtb_spec (textwrap.len c) width) as [Hlong | Hshort].
      + destruct (handle_long_word_spec c rest2 taken cur_len2 width Hw
                    ltac:(lia)) as [e [He [Hroom Hpos]]].
        exists (skipn e c :: rest2), (taken ++ [firstn e c]).
        split; [exact He|]. split.
        * rewrite total_len_app. simpl. pose proof (len_firstn e c). lia.
        * destruct (skipn_weight e c rest2) as [Hsk Hsk'].
          destruct Hdrop as [Heq | Hlt]; [|lia].
          rewrite <- Heq, Hw1. destruct taken as [|t taken].
          -- simpl. apply Hsk'; [apply Hpos; subst cur_len2; reflexivity|].
             intros ->. unfold textwrap.len in Hlong. simpl in Hlong. lia.
          -- simpl in *. lia.
      + exists (c :: rest2), taken. split; [reflexivity|]. split; [lia|].
        destruct Hdrop as [Heq | Hlt]; [|lia].
        rewrite <- Heq, Hw1. destruct taken as [|t taken].
        * simpl in Hlen2. subst cur_len2. lia.
        * simpl. lia. }
  destruct H3 as [chunks3 [cur_line3 [Heq3 [Hfit3 Hlt3]]]].
  rewrite Heq3. intros Hstep.
  set (cur_line4 := match rev cur_line3 with
                    | c :: before =>
                        if textwrap.is_blank c then rev before else cur_line3
                    | [] => cur_line3
                    end) in Hstep.
  assert (Hfit4 : total_len cur_line4 <= width).
  { unfold cur_line4. destruct (rev cur_line3) as [|c before] eqn:Hrev;
      [exact Hfit3|].
    destruct (textwrap.is_blank c); [|exact Hfit3].
    pose proof (total_len_drop_last _ _ _ Hrev). lia. }
  injection Hstep as <- <-. split; [exact Hlt3|].
  destruct (truthy cur_line4).
  - exists [concat cur_line4]. split; [reflexivity|].
    constructor; [|constructor]. rewrite len_concat. exact Hfit4.
  - exists []. rewrite app_nil_r. split; [reflexivity | constructor].
Qed.

(** The loop ends within the turns given, and every line it adds is
    within the width. *)
Lemma wrap_loop_spec (width : Z) (fuel : nat) :
  1 <= width ->
  forall chunks lines,
  (textwrap.weight chunks <= fuel)%nat ->
  exists new,
    textwrap.wrap_loop fuel width chunks lines = Some (lines ++ new)
    /\ Forall (fun l => textwrap.len l <= width) new.
Proof.
  intros Hw. induction fuel as [|fuel IH]; intros chunks lines Hfuel.
  - destruct chunks as [|c chunks]; [|simpl in Hfuel; lia].
    exists []. rewrite app_nil_r. split; [reflexivity | constructor].
  - destruct chunks as [|c chunks].
    + exists []. rewrite app_nil_r. split; [reflexivity | constructor].
    + cbn [textwrap.wrap_loop].
      destruct (textwrap.wrap_step width (c :: chunks) lines)
        as [chunks' lines'] eqn:Hstep.
      apply wrap_step_spec in Hstep; [|exact Hw | discriminate].
      destruct Hstep as [Hlt [new [-> Hnew]]].
      destruct (IH chunks' (lines ++ new) ltac:(lia)) as [new' [Hloop Hnew']].
      exists (new ++ new'). rewrite app_assoc. split; [exact Hloop|].
      apply Forall_app. split; assumption.
Qed.

(** [textwrap.wrap] raises on a width that is not positive and otherwise
    returns lines of at most [width] characters. *)
Lemma textwrap_wrap_spec (wordsep : str -> list str) (text : str) (width : Z) :
  (width <= 0 ->
   textwrap.wrap wordsep text width
   = inl (ValueError "invalid width (must be > 0)"))
  /\ (1 <= width ->
      exists lines,
        textwrap.wrap wordsep text width = inr lines
        /\ Forall (fun l => textwrap.len l <= width) lines).
Proof.
  unfold textwrap.wrap, textwrap.wrap_chunks. split; intros Hw.
  - destruct (Z.leb_spec width 0); [reflexivity | lia].
  - destruct (Z.leb_spec width 0); [lia|].
    set (chunks := List.filter (fun c : str => truthy c)
                     (wordsep (textwrap.munge_whitespace text))).
    destruct (wrap_loop_spec width (textwrap.weight chunks) Hw chunks []
                (Nat.le_refl _)) as [new [Hloop Hnew]].
    rewrite Hloop. exists new. split; [reflexivity | exact Hnew].
Qed.

(** ** [POVTextOverlay.wrap_text]: the wrap by a count of characters *)

(** C8 as stated fails: at font size 10 and a width of 4 pixels the
    budget is [int(4 / 5.0)] = 0 characters and the call raises instead of
    returning lines. *)
Lemma wrap_text_budget_zero :
  POVTextOverlay.chars_per_line {| font_file := DEJAVU; font_size := 10 |} 4
  = inr 0
  /\ POVTextOverlay.wrap_text textwrap.wordsep_simple (py "a b")
       {| font_file := DEJAVU; font_size := 10 |} 4
     = inl (ValueError "invalid width (must be > 0)").
Proof. vm_compute. split; reflexivity. Qed.

(** C8, as the code has it.  For a font of size S between 1 and 65535 the
    budget of characters per line is [int(max_width / (S * 0.5))],
    computed in floating point.  When the budget is at least 1 the text is
    wrapped by [textwrap.wrap] with that width, the lines are joined by
    newlines, and no line has more characters than the budget.  When the
    budget is 0 or less the call raises [ValueError].  For the widths the
    tool passes (image width W from 80 to 65535, S = W // 18 and
    max_width = W - 80) the budget is 2 * (W - 80) // S. *)
Theorem wrap_text_by_characters (wordsep : str -> list str) (text : str)
    (font : Font) (max_width : Z) :
  1 <= font_size font <= MAX_SIDE ->
  let budget :=
    int_of_float (fdiv (float_of_Z max_width)
                    (fmul (float_of_Z (font_size font)) 0.5%float)) in
  POVTextOverlay.chars_per_line font max_width = inr budget
  /\ (budget <= 0 ->
      POVTextOverlay.wrap_text wordsep text font max_width
      = inl (ValueError "invalid width (must be > 0)"))
  /\ (1 <= budget ->
      exists lines,
        textwrap.wrap wordsep text budget = inr lines
        /\ POVTextOverlay.wrap_text wordsep text font max_width
           = inr (join [NEWLINE] lines)
        /\ Forall (fun l => Z.of_nat (length l) <= budget) lines)
  /\ (forall W, 80 <= W <= MAX_SIDE ->
      POVTextOverlay.chars_per_line
        {| font_file := font_file font; font_size := W / 18 |} (W - 80)
      = inr (2 * (W - 80) / (W / 18))).
Proof.
  intros HS budget.
  destruct (budget_in_range (font_size font) HS) as [Hnz _].
  assert (Hcpl : POVTextOverlay.chars_per_line font max_width = inr budget).
  { unfold POVTextOverlay.chars_per_line. rewrite Hnz. reflexivity. }
  destruct (textwrap_wrap_spec wordsep text budget) as [Hbad Hgood].
  split; [exact Hcpl|]. split; [|split].
  - intros Hb. unfold POVTextOverlay.wrap_text. rewrite Hcpl. unfold bind.
    rewrite (Hbad Hb). reflexivity.
  - intros Hb. destruct (Hgood Hb) as [lines [Hwrap Hlines]].
    exists lines. split; [exact Hwrap|]. split; [|exact Hlines].
    unfold POVTextOverlay.wrap_text. rewrite Hcpl. unfold bind.
    rewrite Hwrap. reflexivity.
  - intros W HW.
    assert (H18 : 1 <= W / 18 <= MAX_SIDE).
    { unfold MAX_SIDE in *. split.
      - apply Z.div_le_lower_bound; lia.
      - apply Z.lt_succ_r, Z.div_lt_upper_bound; lia. }
    destruct (budget_in_range (W / 18) H18) as [Hnz' _].
    destruct (budget_in_range W ltac:(lia)) as [_ Hq].
    unfold POVTextOverlay.chars_per_line. cbn [font_size].
    rewrite Hnz', (Hq ltac:(lia)). reflexivity.
Qed.

Lemma wrap_text_by_characters_witness :
  POVTextOverlay.chars_per_line {| font_file := DEJAVU; font_size := 60 |} 1000
  = inr 33
  /\ exists lines,
       POVTextOverlay.wrap_text textwrap.wordsep_simple
         (py "Discipline beats motivation. Start now.")
         {| font_file := DEJAVU; font_size := 60 |} 1000
       = inr (join [NEWLINE] lines)
       /\ Forall (fun l => Z.of_nat (length l) <= 33) lines.
Proof.
  destruct (wrap_text_by_characters textwrap.wordsep_simple
              (py "Discipline beats motivation. Start now.")
              {| font_file := DEJAVU; font_size := 60 |} 1000
              ltac:(unfold MAX_SIDE; simpl; lia))
    as [Hc [_ [Hgood _]]].
  change (int_of_float
            (fdiv (float_of_Z 1000)
               (fmul (float_of_Z
                        (font_size {| font_file := DEJAVU; font_size := 60 |}))
                  0.5%float)))
    with 33 in *.
  split; [exact Hc|].
  destruct (Hgood ltac:(lia)) as [lines [_ [Hw Hl]]].
  exists lines. split; [exact Hw | exact Hl].
Defined.

Lemma wrap_text_preserves_words_witness :
  split (TextOverlay.wrap_text mono_metrics (py "Discipline beats motivation.")
           {| font_file := DEJAVU; font_size := 72 |} 1040)
  = split (py "Discipline beats motivation.")
  /\ split_on NEWLINE
       (TextOverlay.wrap_text mono_metrics (py "Discipline beats motivation.")
          {| font_file := DEJAVU; font_size := 72 |} 1040)
     = TextOverlay.wrap_lines mono_metrics (py "Discipline beats motivation.")
         {| font_file := DEJAVU; font_size := 72 |} 1040.
Proof.
  destruct (wrap_text_preserves_words mono_metrics
              (py "Discipline beats motivation.")
              {| font_file := DEJAVU; font_size := 72 |} 1040)
    as [H1 [_ [H3 _]]].
  - exists (ascii_of_nat 68). split; [left; reflexivity | reflexivity].
  - split; [exact H1 | exact H3].
Defined.

Example wrap_text_sample :
  TextOverlay.wrap_lines mono_metrics (py "Discipline beats motivation.")
    {| font_file := DEJAVU; font_size := 72 |} 1040
  = [py "Discipline beats"; py "motivation."].
Proof. vm_compute. reflexivity. Qed.


(* ===================================================================== *)
(** * Further properties of the code *)
(* ===================================================================== *)

(** ** The vignette, band by band *)

Lemma rectangle_px (im : Image) (xy : float * float * float * float)
    (fill : Color) (x y : Z) :
  im_px (rectangle im xy fill) x y
  = if covers (im_size im) xy x y then fill else im_px im x y.
Proof.
  destruct xy as [[[x0 y0] x1] y1]. unfold rectangle, covers, in_image.
  cbn [im_px]. reflexivity.
Qed.

Lemma map_seq_from (n : nat) : forall (a : Z) (s : nat),
  map (fun k => a + Z.of_nat k) (seq s n)
  = map (fun k => a + Z.of_nat s + Z.of_nat k) (seq 0 n).
Proof.
  induction n as [|n IH]; intros a s; [reflexivity|]. simpl.
  f_equal; [lia|].
  rewrite (IH a (S s)), (IH (a + Z.of_nat s) 1%nat).
  apply map_ext. intros k. lia.
Qed.

Lemma py_range_cut (a j b : Z) :
  a <= j < b -> py_range a b = py_range a j ++ j :: py_range (j + 1) b.
Proof.
  intros H. unfold py_range.
  replace (Z.to_nat (b - a))
    with (Z.to_nat (j - a) + S (Z.to_nat (b - (j + 1))))%nat by lia.
  rewrite seq_app, map_app. f_equal.
  rewrite map_seq_from. simpl. f_equal; [lia|].
  rewrite <- seq_shift, map_map. apply map_ext. intros k. lia.
Qed.

Lemma bands_size (width height : Z) (l : list Z) (overlay : Image) :
  im_size (bands width height l overlay) = im_size overlay.
Proof.
  unfold bands.
  apply (fold_left_invariant (fun im => im_size im = im_size overlay));
    [reflexivity|].
  intros im i H. rewrite <- H.
  apply (rectangle_mode_size im (vignette_band width height i) (0, 0, 0, 100 - i)).
Qed.

Lemma bands_untouched (width height : Z) (l : list Z) (overlay : Image)
    (x y : Z) :
  (forall i, In i l ->
     covers (im_size overlay) (vignette_band width height i) x y = false) ->
  im_px (bands width height l overlay) x y = im_px overlay x y.
Proof.
  revert overlay. induction l as [|i l IH]; intros overlay H; [reflexivity|].
  change (bands width height (i :: l) overlay)
    with (bands width height l
            (rectangle overlay (vignette_band width height i) (0, 0, 0, 100 - i))).
  rewrite IH.
  - rewrite rectangle_px, (H i) by (left; reflexivity). reflexivity.
  - intros k Hk.
    replace (im_size (rectangle overlay (vignette_band width height i)
                        (0, 0, 0, 100 - i))) with (im_size overlay)
      by (symmetry; apply rectangle_mode_size).
    apply H. right. exact Hk.
Qed.

(** X1.  In the vignette loop the last band that reaches a pixel decides
    its transparency: a pixel reached by band [j] and by no later band has
    the overlay value (0, 0, 0, 100 - j) when the loop ends, whatever the
    earlier and larger bands wrote; a pixel no band reaches keeps its
    value. *)
Theorem vignette_last_band_wins (width height : Z) (overlay : Image)
    (x y j : Z) :
  0 <= j < 100 ->
  covers (im_size overlay) (vignette_band width height j) x y = true ->
  (forall i, j < i < 100 ->
     covers (im_size overlay) (vignette_band width height i) x y = false) ->
  im_px (vignette width height overlay) x y = (0, 0, 0, 100 - j).
Proof.
  intros Hj Hcov Hlater.
  change (vignette width height overlay)
    with (bands width height (py_range 0 100) overlay).
  rewrite (py_range_cut 0 j 100) by lia.
  set (before := bands width height (py_range 0 j) overlay).
  assert (Hsize : im_size before = im_size overlay) by apply bands_size.
  assert (Hcut : bands width height (py_range 0 j ++ j :: py_range (j + 1) 100)
                   overlay
                 = bands width height (py_range (j + 1) 100)
                     (rectangle before (vignette_band width height j)
                        (0, 0, 0, 100 - j))).
  { unfold bands, before. rewrite fold_left_app. reflexivity. }
  rewrite Hcut, bands_untouched.
  - rewrite rectangle_px, Hsize, Hcov. reflexivity.
  - intros i Hi. apply in_py_range in Hi.
    replace (im_size (rectangle before (vignette_band width height j)
                        (0, 0, 0, 100 - j))) with (im_size overlay)
      by (rewrite <- Hsize; symmetry; apply rectangle_mode_size).
    apply Hlater. lia.
Qed.

Lemma vignette_last_band_wins_witness :
  im_px (vignette 1080 1920 (Image_new RGBA (1080, 1920) (0, 0, 0, 0))) 3 500
  = (0, 0, 0, 100 - 0).
Proof.
  apply vignette_last_band_wins.
  - lia.
  - vm_compute. reflexivity.
  - intros i Hi.
    assert (Hc : forallb (fun i => negb (covers (1080, 1920)
                                   (vignette_band 1080 1920 i) 3 500))
                   (py_range 1 100) = true) by (vm_compute; reflexivity).
    rewrite forallb_forall in Hc. apply negb_true_iff, Hc, in_py_range. lia.
Defined.

Lemma fold_left_invariant_in {A B} (P : A -> Prop) (f : A -> B -> A)
    (l : list B) (a : A) :
  P a -> (forall a b, In b l -> P a -> P (f a b)) -> P (fold_left f l a).
Proof.
  revert a. induction l as [|b l IH]; intros a Ha Hf; simpl; [exact Ha|].
  apply IH.
  - apply Hf; [left; reflexivity | exact Ha].
  - intros a' b' Hb'. apply Hf. right. exact Hb'.
Qed.

(** Every pixel of the overlay is black with an opacity from 0 to 100. *)
Lemma vignette_alpha_range (width height : Z) (size : Z * Z) (x y : Z) :
  exists a,
    im_px (vignette width height (Image_new RGBA size (0, 0, 0, 0))) x y
    = (0, 0, 0, a)
    /\ 0 <= a <= 100.
Proof.
  unfold vignette.
  apply (fold_left_invariant_in
           (fun im => exists a, im_px im x y = (0, 0, 0, a) /\ 0 <= a <= 100)).
  - exists 0. split; [reflexivity | lia].
  - intros im i Hi [a [Ha Hr]]. apply in_py_range in Hi.
    cbv zeta. rewrite rectangle_px.
    destruct (covers (im_size im) (vignette_band width height i) x y).
    + exists (100 - i). split; [reflexivity | lia].
    + exists a. split; assumption.
Qed.

Lemma darkened_within_checked :
  forallb (fun d => forallb (darkened_within d) (py_range 0 101))
    (py_range 0 256) = true.
Proof. vm_compute. reflexivity. Qed.

Lemma composite_opaque_black (r g b a : Z) :
  composite_px (r, g, b, 255) (0, 0, 0, a)
  = if a =? 0 then (r, g, b, 255)
    else (under_black r a, under_black g a, under_black b a,
          shift_for_div255 (a * 255 + 255 * (255 - a) + 128)).
Proof. unfold composite_px, under_black. destruct (a =? 0); reflexivity. Qed.

(** A text whose mask is 0 at a pixel leaves the pixel as it is. *)
Lemma add_ops_clear (m : Metrics) (ops : list TextOp) (x y : Z) :
  forall im : Image,
  Forall (fun op => coverage m (op_font op) (op_align op) (op_text op)
                      (x - fst (op_xy op)) (y - snd (op_xy op)) = 0) ops ->
  im_px (add_ops m im ops) x y = im_px im x y.
Proof.
  induction ops as [|op ops IH]; intros im Hops; [reflexivity|].
  inversion Hops as [|op' ops' Hop Hrest]; subst.
  change (add_ops m im (op :: ops))
    with (add_ops m (draw_text m im (op_xy op) (op_text op) (op_font op)
                       (op_fill op) (op_align op)) ops).
  rewrite (IH _ Hrest). unfold draw_text. cbn [im_px]. rewrite Hop.
  destruct (in_image im x y); reflexivity.
Qed.

Lemma add_ops_mode_size (m : Metrics) (ops : list TextOp) :
  forall im : Image,
  im_size (add_ops m im ops) = im_size im
  /\ im_mode (add_ops m im ops) = im_mode im.
Proof.
  induction ops as [|op ops IH]; intros im; [split; reflexivity|].
  change (add_ops m im (op :: ops))
    with (add_ops m (draw_text m im (op_xy op) (op_text op) (op_font op)
                       (op_fill op) (op_align op)) ops).
  destruct (IH (draw_text m im (op_xy op) (op_text op) (op_font op)
                  (op_fill op) (op_align op))) as [H1 H2].
  rewrite H1, H2. split; reflexivity.
Qed.

Lemma draw_text_as_op (m : Metrics) (im : Image) (x y : Z) (text : str)
    (font : Font) (c : Color) (a : Align) :
  draw_text m im (x, y) text font c a
  = add_ops m im [pass x y text font c a (0, 0)].
Proof.
  unfold add_ops, pass.
  cbn [fold_left op_xy op_text op_font op_fill op_align fst snd].
  rewrite !Z.add_0_r. reflexivity.
Qed.

(** Drawing a text leaves the size and the mode alone, and the pixels
    that none of its passes inks. *)
Lemma draw_text_with_outline_background (m : Metrics) (im : Image)
    (position : Z * Z) (text : str) (font : Font) (fill outline : Color)
    (w x y : Z) :
  0 <= w ->
  (clear_of_text m font AlignLeft text position w x y ->
   im_px (TextOverlay.draw_text_with_outline m im position text font fill
            outline w) x y
   = im_px im x y)
  /\ im_size (TextOverlay.draw_text_with_outline m im position text font fill
                outline w) = im_size im
  /\ im_mode (TextOverlay.draw_text_with_outline m im position text font fill
                outline w) = im_mode im.
Proof.
  intros Hw. destruct position as [px py].
  assert (Hops : TextOverlay.draw_text_with_outline m im (px, py) text font
                   fill outline w
                 = add_ops m im
                     (map (pass px py text font outline AlignLeft)
                        (outline_offsets w)
                      ++ [pass px py text font fill AlignLeft (0, 0)])).
  { unfold TextOverlay.draw_text_with_outline.
    rewrite outline_loop_passes, draw_text_as_op, add_ops_app. reflexivity. }
  rewrite Hops. split; [|apply add_ops_mode_size].
  intros Hclear. apply add_ops_clear. apply Forall_app. split.
  - apply List.Forall_forall. intros op Hop. apply in_map_iff in Hop.
    destruct Hop as [[dx dy] [<- Hd]]. apply in_outline_offsets in Hd.
    cbn [pass op_xy op_text op_font op_fill op_align fst snd] in *.
    apply (Hclear dx dy); lia.
  - constructor; [|constructor].
    cbn [pass op_xy op_text op_font op_fill op_align fst snd].
    apply (Hclear 0 0); lia.
Qed.

(** X2.  The image [add_text_to_image] hands to [save] has the size of
    the input and mode RGB, and apart from the text its pixels are the
    input's, darkened: for an RGB input with channels from 0 to 255, at
    every pixel that no pass of the text inks (the masks of the fill pass
    and of the 24 outline passes are 0 there), every channel is at most
    its value in the input and at least 155/255 of it (to the rounding),
    and the pixel is opaque.  The vignette never brightens and never
    removes more than 100/255 of a channel. *)
Theorem rendered_background_darkened (m : Metrics) (font : Font) (img : Image)
    (text : str) (x y r g b a : Z) :
  im_mode img = RGB ->
  im_px img x y = (r, g, b, a) ->
  0 <= r <= 255 -> 0 <= g <= 255 -> 0 <= b <= 255 ->
  (let lay := TextOverlay.layout m font (fst (im_size img))
                (snd (im_size img)) text in
   clear_of_text m font AlignLeft (TextOverlay.lay_text lay)
     (TextOverlay.lay_xy lay) 2 x y) ->
  im_size (rendered m font img text) = im_size img
  /\ im_mode (rendered m font img text) = RGB
  /\ exists r' g' b',
       im_px (rendered m font img text) x y = (r', g', b', 255)
       /\ r' <= r /\ g' <= g /\ b' <= b
       /\ 155 * r <= 255 * r' + 128
       /\ 155 * g <= 255 * g' + 128
       /\ 155 * b <= 255 * b' + 128.
Proof.
  intros Hmode Hpx Hr Hg Hb Hclear. unfold rendered.
  cbv zeta in Hclear.
  change (im_size (convert img RGBA)) with (im_size img).
  match goal with
  | |- context [TextOverlay.draw_text_with_outline m ?im ?p ?t ?f ?c ?o ?w] =>
      destruct (draw_text_with_outline_background m im p t f c o w x y
                  ltac:(lia))
        as [Hbpx [Hbsize Hbmode]];
      set (drawn := TextOverlay.draw_text_with_outline m im p t f c o w) in *
  end.
  specialize (Hbpx Hclear).
  split; [exact Hbsize|]. split; [reflexivity|].
  cbn [convert im_px]. rewrite Hbpx, Hbmode.
  cbn [convert im_px vignetted im_mode im_size].
  rewrite Hmode, Hpx. cbn [convert_px].
  destruct (vignette_alpha_range (fst (im_size img)) (snd (im_size img))
              (im_size img) x y) as [al [Hal Hrange]].
  rewrite Hal, composite_opaque_black.
  assert (Hch : forall d, 0 <= d <= 255 -> darkened_within d al = true).
  { intros d Hd. pose proof darkened_within_checked as Hc.
    rewrite forallb_forall in Hc.
    specialize (Hc d ltac:(apply in_py_range; lia)).
    rewrite forallb_forall in Hc. apply Hc, in_py_range. lia. }
  pose proof (Hch r Hr) as Hr'. pose proof (Hch g Hg) as Hg'.
  pose proof (Hch b Hb) as Hb'. unfold darkened_within in Hr', Hg', Hb'.
  destruct (al =? 0).
  - exists r, g, b. cbn [convert_px]. split; [reflexivity|]. lia.
  - exists (under_black r al), (under_black g al), (under_black b al).
    split; [reflexivity|]. lia.
Qed.

Lemma rendered_background_darkened_witness :
  exists r' g' b',
    im_px (rendered mono_metrics {| font_file := DEJAVU; font_size := 72 |}
             sample_dark_bg (py "Hi")) 0 0 = (r', g', b', 255)
    /\ r' <= 20 /\ g' <= 20 /\ b' <= 30.
Proof.
  assert (Hclear :
    let lay := TextOverlay.layout mono_metrics
                 {| font_file := DEJAVU; font_size := 72 |}
                 (fst (im_size sample_dark_bg)) (snd (im_size sample_dark_bg))
                 (py "Hi") in
    clear_of_text mono_metrics {| font_file := DEJAVU; font_size := 72 |}
      AlignLeft (TextOverlay.lay_text lay) (TextOverlay.lay_xy lay) 2 0 0).
  { intros lay dx dy Hdx Hdy.
    assert (Hlay : lay = {| TextOverlay.lay_font :=
                              {| font_file := DEJAVU; font_size := 72 |};
                            TextOverlay.lay_text := py "Hi";
                            TextOverlay.lay_xy := (497, 931) |})
      by (vm_compute; reflexivity).
    rewrite Hlay. cbn [TextOverlay.lay_text TextOverlay.lay_xy fst snd].
    unfold mono_metrics. cbn [coverage].
    assert (Hbox : mono_box {| font_file := DEJAVU; font_size := 72 |}
                     (py "Hi") = (0, 14, 86, 72)) by (vm_compute; reflexivity).
    rewrite Hbox. unfold solid.
    destruct (Z.leb_spec 0 (0 - (497 + dx))) as [H | H]; [lia | reflexivity]. }
  destruct (rendered_background_darkened mono_metrics
              {| font_file := DEJAVU; font_size := 72 |} sample_dark_bg
              (py "Hi") 0 0 20 20 30 255 eq_refl eq_refl
              ltac:(lia) ltac:(lia) ltac:(lia) Hclear)
    as [_ [_ [r' [g' [b' [Hpx [H1 [H2 [H3 _]]]]]]]]].
  exists r', g', b'. auto.
Defined.

(** ** The greedy wrap, line by line *)

Lemma wrap_loop_greedy (m : Metrics) (font : Font) (max_width : Z)
    (words : list str) : forall wl cl,
  exists gs,
    finish (TextOverlay.wrap_loop m font max_width words wl cl)
      = wl ++ map (join [SPACE]) gs
    /\ concat gs = cl ++ words
    /\ Forall (fun g => g <> []) gs
    /\ greedy m font max_width gs
    /\ (cl <> [] -> exists g0 rest, gs = (cl ++ g0) :: rest).
Proof.
  induction words as [|word words IH]; intros wl cl.
  - simpl. unfold finish. simpl. destruct cl as [|c cl].
    + exists []. simpl. rewrite !app_nil_r.
      split; [reflexivity|]. split; [reflexivity|]. split; [constructor|].
      split; [exact I | contradiction].
    + exists [c :: cl]. simpl. rewrite !app_nil_r.
      split; [reflexivity|]. split; [reflexivity|].
      split; [constructor; [discriminate | constructor]|].
      split; [split; exact I|].
      intros _. exists [], []. rewrite app_nil_r. reflexivity.
  - simpl.
    destruct (Z.leb_spec
                (TextOverlay.line_width m font (join [SPACE] (cl ++ [word])))
                max_width) as [Hfit | Hover].
    + destruct (IH wl (cl ++ [word])) as [gs [H1 [H2 [H3 [H4 H5]]]]].
      exists gs. rewrite <- app_assoc in H2.
      split; [exact H1|]. split; [exact H2|]. split; [exact H3|].
      split; [exact H4|].
      intros _. destruct H5 as [g0 [rest ->]]; [destruct cl; discriminate|].
      exists (word :: g0), rest. rewrite <- app_assoc. reflexivity.
    + destruct cl as [|c cl].
      * destruct (IH wl [word]) as [gs [H1 [H2 [H3 [H4 H5]]]]].
        exists gs. split; [exact H1|]. split; [exact H2|].
        split; [exact H3|]. split; [exact H4 | contradiction].
      * destruct (IH (wl ++ [join [SPACE] (c :: cl)]) [word])
          as [gs [H1 [H2 [H3 [H4 H5]]]]].
        destruct H5 as [g0 [rest ->]]; [discriminate|].
        exists ((c :: cl) :: ([word] ++ g0) :: rest).
        change (truthy (c :: cl)) with true. cbv iota.
        rewrite H1, <- app_assoc.
        split; [reflexivity|].
        split; [simpl in *; rewrite H2; reflexivity|].
        split; [constructor; [discriminate | exact H3]|].
        split; [split; [exact Hover | exact H4]|].
        intros _. exists [], (([word] ++ g0) :: rest).
        rewrite app_nil_r. reflexivity.
Qed.

(** X3.  The wrap by measured width is greedy and loses nothing: its
    lines are the words of the caption, in order, cut into consecutive
    non-empty groups joined by single spaces, and a line is closed only
    when the next word, added to it, would measure more than
    [max_width].  So there are never more lines than words. *)
Theorem wrap_text_greedy (m : Metrics) (text : str) (font : Font)
    (max_width : Z) :
  exists gs,
    TextOverlay.wrap_lines m text font max_width = map (join [SPACE]) gs
    /\ concat gs = split text
    /\ Forall (fun g => g <> []) gs
    /\ greedy m font max_width gs
    /\ (length (TextOverlay.wrap_lines m text font max_width)
        <= length (split text))%nat.
Proof.
  destruct (wrap_loop_greedy m font max_width (split text) [] [])
    as [gs [H1 [H2 [H3 [H4 _]]]]].
  assert (Hlines : TextOverlay.wrap_lines m text font max_width
                   = map (join [SPACE]) gs).
  { unfold TextOverlay.wrap_lines.
    destruct (TextOverlay.wrap_loop m font max_width (split text) [] [])
      as [wl cl]. exact H1. }
  exists gs. split; [exact Hlines|]. split; [exact H2|]. split; [exact H3|].
  split; [exact H4|].
  rewrite Hlines, length_map. simpl in H2. rewrite <- H2.
  clear -H3. induction H3 as [|g gs Hg Hgs IH]; [simpl; lia|].
  simpl. rewrite length_app. destruct g; [contradiction|]. simpl. lia.
Qed.

Lemma wrap_loop_all_fit (m : Metrics) (font : Font) (max_width : Z)
    (words : list str) : forall wl cl,
  (forall n, (1 <= n <= length words)%nat ->
     TextOverlay.line_width m font (join [SPACE] (cl ++ firstn n words))
     <= max_width) ->
  TextOverlay.wrap_loop m font max_width words wl cl = (wl, cl ++ words).
Proof.
  induction words as [|word words IH]; intros wl cl Hfit; simpl.
  - rewrite app_nil_r. reflexivity.
  - assert (H1 : TextOverlay.line_width m font (join [SPACE] (cl ++ [word]))
                 <= max_width).
    { apply (Hfit 1%nat). simpl. lia. }
    destruct (Z.leb_spec
                (TextOverlay.line_width m font (join [SPACE] (cl ++ [word])))
                max_width) as [_ | Hover]; [|lia].
    rewrite IH.
    + rewrite <- app_assoc. reflexivity.
    + intros n Hn. rewrite <- app_assoc. apply (Hfit (S n)). simpl. lia.
Qed.

(** X4.  A caption of which every beginning fits (the first word, the
    first two words joined by a space, and so on, all measure at most
    [max_width]) is returned on one line, with every run of whitespace
    replaced by one space. *)
Theorem wrap_text_one_line (m : Metrics) (text : str) (font : Font)
    (max_width : Z) :
  split text <> [] ->
  (forall n, (1 <= n <= length (split text))%nat ->
     TextOverlay.line_width m font (join [SPACE] (firstn n (split text)))
     <= max_width) ->
  TextOverlay.wrap_text m text font max_width = join [SPACE] (split text).
Proof.
  intros Hne Hfit. unfold TextOverlay.wrap_text, TextOverlay.wrap_lines.
  rewrite (wrap_loop_all_fit m font max_width (split text) [] [] Hfit).
  simpl. destruct (split text); [contradiction | reflexivity].
Qed.

Lemma wrap_text_one_line_witness :
  TextOverlay.wrap_text mono_metrics (py "  Stay   hard ")
    {| font_file := DEJAVU; font_size := 72 |} 1040
  = py "Stay hard".
Proof.
  apply (wrap_text_one_line mono_metrics (py "  Stay   hard ")
           {| font_file := DEJAVU; font_size := 72 |} 1040).
  - discriminate.
  - intros n Hn. change (length (split (py "  Stay   hard "))) with 2%nat in Hn.
    destruct n as [|[|[|n]]]; [lia | | | lia]; vm_compute; discriminate.
Defined.

(** ** [process_random_quote] *)

Lemma lstrip_spec (s : str) :
  exists pre,
    s = pre ++ lstrip s
    /\ Forall (fun c => isspace c = true) pre
    /\ match lstrip s with [] => True | c :: _ => isspace c = false end.
Proof.
  induction s as [|c s IH]; [exists []; repeat split; constructor|].
  simpl. destruct (isspace c) eqn:Hc.
  - destruct IH as [pre [H1 [H2 H3]]]. exists (c :: pre).
    split; [simpl; f_equal; exact H1|]. split; [constructor; assumption|].
    exact H3.
  - exists []. split; [reflexivity|]. split; [constructor | exact Hc].
Qed.

(** What [strip()] returns: the text without a whitespace prefix and a
    whitespace suffix, and, unless empty, starting and ending with
    characters that are not whitespace. *)
Lemma strip_spec (s : str) :
  exists pre post,
    s = pre ++ strip s ++ post
    /\ Forall (fun c => isspace c = true) pre
    /\ Forall (fun c => isspace c = true) post
    /\ (strip s = []
        \/ exists a b, hd_error (strip s) = Some a
                       /\ hd_error (rev (strip s)) = Some b
                       /\ isspace a = false /\ isspace b = false).
Proof.
  unfold strip, rstrip.
  destruct (lstrip_spec s) as [pre [H1 [H2 H3]]].
  destruct (lstrip_spec (rev (lstrip s))) as [post [H4 [H5 H6]]].
  exists pre, (rev post).
  assert (Hl : lstrip s = rev (lstrip (rev (lstrip s))) ++ rev post).
  { rewrite <- rev_app_distr, <- H4, rev_involutive. reflexivity. }
  split; [rewrite <- Hl; exact H1|]. split; [exact H2|].
  split; [apply Forall_rev; exact H5|].
  destruct (lstrip (rev (lstrip s))) as [|b t] eqn:Ht; [left; reflexivity|].
  right. rewrite rev_involutive.
  destruct (rev (b :: t)) as [|a u] eqn:Hu.
  { apply (f_equal (@rev ascii)) in Hu. rewrite rev_involutive in Hu.
    discriminate. }
  exists a, b. split; [reflexivity|]. split; [reflexivity|].
  split; [|exact H6].
  (* the first character of the result is the first of [lstrip s] *)
  rewrite Hl in H3. exact H3.
Qed.

Lemma strip_nonblank (s : str) :
  truthy (strip s) = true -> exists c, In c s /\ isspace c = false.
Proof.
  intros Ht. destruct (strip_spec s) as [pre [post [Hs [_ [_ Hends]]]]].
  destruct Hends as [Hnil | [a [b [Ha [_ [Hna _]]]]]].
  - rewrite Hnil in Ht. discriminate.
  - exists a. split; [|exact Hna]. rewrite Hs.
    apply in_or_app. right. apply in_or_app. left.
    destruct (strip s); [discriminate|]. injection Ha as ->. left. reflexivity.
Qed.

Lemma random_choice_in {A} (r : nat) (l : list A) :
  l <> [] -> exists x, random_choice r l = Some x /\ In x l.
Proof.
  intros Hne. unfold random_choice.
  destruct (nth_error l (r mod length l)) as [x|] eqn:Hx.
  - exists x. split; [reflexivity|]. eapply nth_error_In. exact Hx.
  - exfalso. apply nth_error_None in Hx.
    assert (length l <> 0)%nat by (destruct l; [contradiction | discriminate]).
    pose proof (Nat.mod_upper_bound r (length l) ltac:(assumption)). lia.
Qed.

(** X5.  [TextOverlay.process_random_quote] never hands a blank caption
    to the composer.  If the quotes file cannot be read, or has no line
    with a character that is not whitespace, it prints, returns [None]
    and saves nothing; otherwise the caption it renders is a line of the
    file that has such a character, and the result is the composer's. *)
Theorem process_random_quote_caption (w : World) (self : TextOverlay.t)
    (r : nat) (image_path quotes_file : string)
    (output_filename : option string) :
  let result := TextOverlay.process_random_quote w self r image_path
                  quotes_file output_filename in
  match read_text w quotes_file with
  | inl e => result = (print w (PrErrorRandomQuote e), None)
  | inr content =>
      (Forall (fun q => strip q = []) (splitlines content)
       /\ result = (print w PrNoQuotes, None))
      \/ (exists quote,
            In quote (splitlines content)
            /\ (exists c, In c quote /\ isspace c = false)
            /\ result = TextOverlay.add_text_to_image w self image_path quote
                          output_filename)
  end.
Proof.
  cbv zeta. unfold TextOverlay.process_random_quote.
  destruct (read_text w quotes_file) as [e | content]; [reflexivity|].
  set (quotes := List.filter (fun q => truthy (strip q)) (splitlines content)).
  destruct quotes as [|q qs] eqn:Hq.
  - left. split; [|reflexivity].
    apply List.Forall_forall. intros x Hx.
    destruct (strip x) as [|c t] eqn:Hsx; [reflexivity|].
    assert (Hin : In x quotes).
    { unfold quotes. apply filter_In. split; [exact Hx|]. rewrite Hsx.
      reflexivity. }
    rewrite Hq in Hin. destruct Hin.
  - right. destruct (random_choice_in r (q :: qs) ltac:(discriminate))
      as [quote [Hc Hin]].
    rewrite <- Hq in Hin. unfold quotes in Hin. apply filter_In in Hin.
    destruct Hin as [Hin Hnb].
    exists quote. split; [exact Hin|]. split; [apply strip_nonblank, Hnb|].
    cbn [truthy negb]. rewrite Hc. reflexivity.
Qed.

(** X6.  [POVTextOverlay.process_random_quote] renders a line of the
    quotes file stripped of the whitespace at its ends: the caption is
    not empty and neither starts nor ends with whitespace.  A file that
    cannot be read or has only blank lines gives [None] and nothing
    saved. *)
Theorem pov_process_random_quote_caption (wordsep : str -> list str)
    (w : World) (self : POVTextOverlay.t) (r : nat)
    (image_path quotes_file : string) (output_filename : option string) :
  let result := POVTextOverlay.process_random_quote wordsep w self r
                  image_path quotes_file output_filename in
  match read_text w quotes_file with
  | inl e => result = (print w (PrErrorRandomQuote e), None)
  | inr content =>
      (Forall (fun q => strip q = []) (splitlines content)
       /\ result = (print w PrNoQuotes, None))
      \/ (exists line a b,
            In line (splitlines content)
            /\ hd_error (strip line) = Some a /\ isspace a = false
            /\ hd_error (rev (strip line)) = Some b /\ isspace b = false
            /\ result = POVTextOverlay.add_pov_text_to_image wordsep w self
                          image_path (strip line) output_filename)
  end.
Proof.
  cbv zeta. unfold POVTextOverlay.process_random_quote.
  destruct (read_text w quotes_file) as [e | content]; [reflexivity|].
  set (lines := List.filter (fun q => truthy (strip q)) (splitlines content)).
  destruct lines as [|q qs] eqn:Hq.
  - left. split; [|reflexivity].
    apply List.Forall_forall. intros x Hx.
    destruct (strip x) as [|c t] eqn:Hsx; [reflexivity|].
    assert (Hin : In x lines).
    { unfold lines. apply filter_In. split; [exact Hx|]. rewrite Hsx.
      reflexivity. }
    rewrite Hq in Hin. destruct Hin.
  - right.
    destruct (random_choice_in r (map strip (q :: qs)) ltac:(discriminate))
      as [quote [Hc Hin]].
    apply in_map_iff in Hin. destruct Hin as [line [<- Hin]].
    rewrite <- Hq in Hin. unfold lines in Hin. apply filter_In in Hin.
    destruct Hin as [Hin Hnb].
    destruct (strip_spec line) as [pre [post [_ [_ [_ Hends]]]]].
    destruct Hends as [Hnil | [a [b [Ha [Hb [Hna Hnb']]]]]];
      [rewrite Hnil in Hnb; discriminate|].
    exists line, a, b. repeat (split; [assumption|]).
    cbn [map truthy negb] in *. rewrite Hc. reflexivity.
Qed.

(** ** Font resolution of the second tool *)

(** X7.  Once the output directory is in place,
    [POVTextOverlay.__init__] selects, in this order of preference: the
    explicit path if it exists; else the first Comic Sans path that
    exists; else the first system font that exists.  It raises, with its
    font-not-found error and no other, exactly when none of these paths
    exists. *)
Theorem pov_font_resolution (w w1 : World) (font_path : option string)
    (output_dir : string) :
  os_makedirs w output_dir = inr w1 ->
  (forall p, font_path = Some p -> os_path_exists w1 p = true ->
     POVTextOverlay.init w font_path output_dir
     = inr (w1, {| POVTextOverlay.font_path := p;
                   POVTextOverlay.output_dir := output_dir |}))
  /\ (forall f,
        TextOverlay.explicit_font_usable w1 font_path = false ->
        find (os_path_exists w1) POVTextOverlay.comic_sans_paths = Some f ->
        POVTextOverlay.init w font_path output_dir
        = inr (print w1 (PrUsingComicSans f),
               {| POVTextOverlay.font_path := f;
                  POVTextOverlay.output_dir := output_dir |}))
  /\ (forall f,
        TextOverlay.explicit_font_usable w1 font_path = false ->
        find (os_path_exists w1) POVTextOverlay.comic_sans_paths = None ->
        find (os_path_exists w1) POVTextOverlay.system_fonts = Some f ->
        POVTextOverlay.init w font_path output_dir
        = inr (print (print w1 PrComicSansNotFound) (PrUsingFallback f),
               {| POVTextOverlay.font_path := f;
                  POVTextOverlay.output_dir := output_dir |}))
  /\ ((exists e, POVTextOverlay.init w font_path output_dir = inl e)
      <-> forall c,
            In c (candidates font_path
                    (POVTextOverlay.comic_sans_paths
                     ++ POVTextOverlay.system_fonts)) ->
            os_path_exists w1 c = false)
  /\ (forall e, POVTextOverlay.init w font_path output_dir = inl e ->
                e = POVTextOverlay.NO_FONT).
Proof.
  intros Hmk. unfold POVTextOverlay.init. rewrite Hmk. unfold bind.
  assert (Hprint : forall p q, os_path_exists (print w1 p) q = os_path_exists w1 q)
    by reflexivity.
  assert (Hfind : forall p l,
            find (os_path_exists (print w1 p)) l = find (os_path_exists w1) l)
    by reflexivity.
  split; [|split; [|split; [|split]]].
  - intros p -> Hp. rewrite explicit_font_usable_exists, Hp. reflexivity.
  - intros f Hno Hcs. rewrite Hno, Hcs. reflexivity.
  - intros f Hno Hcs Hsys. rewrite Hno, Hcs, Hfind, Hsys. reflexivity.
  - destruct (TextOverlay.explicit_font_usable w1 font_path) eqn:Hexp.
    + destruct font_path as [p|]; [|discriminate].
      split; [intros [e He]; discriminate|].
      intros Hnone. rewrite explicit_font_usable_exists in Hexp.
      rewrite Hnone in Hexp; [discriminate | left; reflexivity].
    + destruct (find (os_path_exists w1) POVTextOverlay.comic_sans_paths)
        as [f|] eqn:Hcs.
      * split; [intros [e He]; discriminate|].
        intros Hnone. apply find_some in Hcs. destruct Hcs as [Hin Hf].
        rewrite Hnone in Hf; [discriminate|].
        unfold candidates. apply in_or_app. right.
        apply in_or_app. left. exact Hin.
      * rewrite Hfind.
        destruct (find (os_path_exists w1) POVTextOverlay.system_fonts)
          as [f|] eqn:Hsys.
        -- split; [intros [e He]; discriminate|].
           intros Hnone. apply find_some in Hsys. destruct Hsys as [Hin Hf].
           rewrite Hnone in Hf; [discriminate|].
           unfold candidates. apply in_or_app. right.
           apply in_or_app. right. exact Hin.
        -- split; [|intros _; eexists; reflexivity].
           intros _ c Hc. unfold candidates in Hc.
           apply in_app_or in Hc. destruct Hc as [Hc | Hc].
           ++ destruct font_path as [p|]; [|destruct Hc].
              destruct Hc as [<- | []].
              rewrite explicit_font_usable_exists in Hexp. exact Hexp.
           ++ apply in_app_or in Hc. rewrite find_none_iff in Hcs, Hsys.
              destruct Hc as [Hc | Hc]; [apply Hcs | apply Hsys]; exact Hc.
  - intros e.
    destruct (TextOverlay.explicit_font_usable w1 font_path) eqn:Hexp.
    { destruct font_path; discriminate. }
    destruct (find (os_path_exists w1) POVTextOverlay.comic_sans_paths);
      [discriminate|].
    rewrite Hfind.
    destruct (find (os_path_exists w1) POVTextOverlay.system_fonts);
      [discriminate|].
    intros H. injection H as <-. reflexivity.
Qed.

Lemma pov_font_resolution_witness :
  POVTextOverlay.init studio None "output"
  = inr (print (print studio PrComicSansNotFound) (PrUsingFallback DEJAVU),
         {| POVTextOverlay.font_path := DEJAVU;
            POVTextOverlay.output_dir := "output" |}).
Proof.
  destruct (pov_font_resolution studio studio None "output" eq_refl)
    as [_ [_ [H _]]].
  apply H; vm_compute; reflexivity.
Defined.

(** ** Images too narrow for the text *)

Lemma truetype_zero (w : World) (path : string) :
  truetype w path 0 = inl (ValueError "font size must be greater than 0").
Proof. reflexivity. Qed.

(** X8.  An image less than 15 pixels wide is never rendered by
    [add_text_to_image]: the font size [int(width / 15)] is 0, loading
    the font raises, and the call prints the error, returns [None] and
    saves nothing. *)
Theorem narrow_image_not_rendered (w : World) (self : TextOverlay.t)
    (image_path : string) (text : str) (output_filename : option string)
    (img : Image) :
  Image_open w image_path = inr img ->
  0 <= fst (im_size img) < 15 ->
  TextOverlay.add_text_to_image w self image_path text output_filename
  = (print w (PrErrorAddingText
                (ValueError "font size must be greater than 0")), None).
Proof.
  intros Hopen HW. unfold TextOverlay.add_text_to_image.
  rewrite add_text_body_stages. unfold io_bind, reads. rewrite Hopen.
  destruct (sizes_in_range (fst (im_size img))) as [H15 _];
    [unfold MAX_SIDE; lia|].
  rewrite H15, Z.div_small by lia. rewrite truetype_zero. reflexivity.
Qed.

Lemma narrow_image_not_rendered_witness :
  let tiny := {| w_dirs := w_dirs studio; w_files := w_files studio;
                 w_denied := w_denied studio;
                 w_images := {[ "bg.jpg"%string :=
                                  Image_new RGB (14, 100) (20, 20, 30, 255) ]};
                 w_fonts := w_fonts studio; w_metrics := w_metrics studio;
                 w_texts := w_texts studio;
                 w_extensions := w_extensions studio; w_codec := w_codec studio;
                 w_saved := []; w_stdout := [] |} in
  snd (TextOverlay.add_text_to_image tiny overlay_tool "bg.jpg" (py "Hi") None)
  = None.
Proof.
  intros tiny.
  rewrite (narrow_image_not_rendered tiny overlay_tool "bg.jpg" (py "Hi") None
             (Image_new RGB (14, 100) (20, 20, 30, 255)) eq_refl
             ltac:(simpl; lia)).
  reflexivity.
Defined.

Lemma narrow_budget_checked :
  forallb budget_not_positive (py_range 18 82) = true.
Proof. vm_compute. reflexivity. Qed.

Lemma chars_per_line_file (f g : string) (size max_width : Z) :
  POVTextOverlay.chars_per_line {| font_file := f; font_size := size |} max_width
  = POVTextOverlay.chars_per_line {| font_file := g; font_size := size |} max_width.
Proof. reflexivity. Qed.

(** X9.  [add_pov_text_to_image] renders no image narrower than 82
    pixels: below 18 pixels a font size is 0; from 18 to 81 pixels the
    budget of characters per line, computed from the text width
    [width - 80], is 0 or negative and [textwrap] refuses it.  The call
    returns [None] and the sink is as before. *)
Theorem pov_narrow_image_not_rendered (wordsep : str -> list str) (w : World)
    (self : POVTextOverlay.t) (image_path : string) (quote_text : str)
    (output_filename : option string) (img : Image) :
  Image_open w image_path = inr img ->
  0 <= fst (im_size img) <= 81 ->
  snd (POVTextOverlay.add_pov_text_to_image wordsep w self image_path
         quote_text output_filename) = None
  /\ w_saved (fst (POVTextOverlay.add_pov_text_to_image wordsep w self
                     image_path quote_text output_filename)) = w_saved w.
Proof.
  intros Hopen HW.
  assert (Hbody : exists e,
    POVTextOverlay.add_pov_text_body wordsep w self image_path quote_text
      output_filename = (w, inl e)).
  { rewrite add_pov_text_body_stages. unfold io_bind, reads. rewrite Hopen.
    destruct (sizes_in_range (fst (im_size img))) as [_ [H12 [H18 _]]];
      [unfold MAX_SIDE; lia|].
    rewrite H12, H18.
    destruct (truetype w (POVTextOverlay.font_path self)
                (fst (im_size img) / 12)) as [e | pf]; [eexists; reflexivity|].
    destruct (truetype w (POVTextOverlay.font_path self)
                (fst (im_size img) / 18)) as [e | qf] eqn:Hqf;
      [eexists; reflexivity|].
    apply truetype_font in Hqf. destruct Hqf as [-> Hpos].
    assert (H18' : 18 <= fst (im_size img)).
    { destruct (Z_lt_le_dec (fst (im_size img)) 18) as [Hlt|]; [|assumption].
      rewrite Z.div_small in Hpos; lia. }
    pose proof narrow_budget_checked as Hc. rewrite forallb_forall in Hc.
    specialize (Hc (fst (im_size img)) ltac:(apply in_py_range; lia)).
    unfold budget_not_positive in Hc.
    unfold POVTextOverlay.wrap_text.
    rewrite (chars_per_line_file _ "" _ _).
    destruct (POVTextOverlay.chars_per_line _ _) as [e | b];
      [eexists; reflexivity|].
    unfold bind.
    destruct (textwrap_wrap_spec wordsep quote_text b) as [Hbad _].
    rewrite Hbad by lia. eexists. reflexivity. }
  destruct Hbody as [e He].
  unfold POVTextOverlay.add_pov_text_to_image. rewrite He.
  split; reflexivity.
Qed.

Lemma pov_narrow_image_not_rendered_witness :
  let small := {| w_dirs := w_dirs studio; w_files := w_files studio;
                  w_denied := w_denied studio;
                  w_images := {[ "bg.jpg"%string :=
                                   Image_new RGB (81, 144) (20, 20, 30, 255) ]};
                  w_fonts := w_fonts studio; w_metrics := w_metrics studio;
                  w_texts := w_texts studio;
                  w_extensions := w_extensions studio; w_codec := w_codec studio;
                  w_saved := []; w_stdout := [] |} in
  snd (POVTextOverlay.add_pov_text_to_image textwrap.wordsep_simple small
         pov_tool "bg.jpg" (py "Hi") None) = None.
Proof.
  intros small.
  apply (pov_narrow_image_not_rendered textwrap.wordsep_simple small pov_tool
           "bg.jpg" (py "Hi") None
           (Image_new RGB (81, 144) (20, 20, 30, 255)) eq_refl
           ltac:(simpl; lia)).
Defined.

(** X10.  In an image that [add_pov_text_to_image] has rendered, of width
    W from 80 to 65535, the caption drawn is made of lines of at most
    [2 * (W - 80) // (W // 18)] characters, joined by newlines. *)
Theorem pov_caption_lines_bounded (wordsep : str -> list str) (w : World)
    (self : POVTextOverlay.t) (image_path : string) (quote_text : str)
    (output_filename : option string) (img : Image) (name : string) :
  Image_open w image_path = inr img ->
  80 <= fst (im_size img) <= MAX_SIDE ->
  snd (POVTextOverlay.add_pov_text_to_image wordsep w self image_path
         quote_text output_filename) = Some name ->
  exists pov_font quote_font lines,
    w_saved (fst (POVTextOverlay.add_pov_text_to_image wordsep w self
                    image_path quote_text output_filename))
    = w_saved w
      ++ [(name, pov_rendered (w_metrics w) pov_font quote_font img
                   (join [NEWLINE] lines))]
    /\ Forall (fun l => Z.of_nat (length l)
                        <= 2 * (fst (im_size img) - 80)
                           / (fst (im_size img) / 18)) lines.
Proof.
  intros Hopen HW Hret.
  pose proof (add_pov_text_to_image_outcome wordsep w self image_path
                quote_text output_filename) as Hout.
  cbv zeta in Hout. rewrite Hret in Hout.
  destruct Hout as [img' [pf [qf [wq [Ho [_ [Hqf [Hwrap [_ [Hs _]]]]]]]]]].
  rewrite Hopen in Ho. injection Ho as <-.
  destruct (sizes_in_range (fst (im_size img)) ltac:(lia)) as [_ [_ [H18 _]]].
  rewrite H18 in Hqf. apply truetype_font in Hqf. destruct Hqf as [-> _].
  destruct (budget_in_range (fst (im_size img)) ltac:(lia)) as [_ Hq].
  specialize (Hq ltac:(lia)).
  assert (H18' : 1 <= fst (im_size img) / 18 <= MAX_SIDE).
  { unfold MAX_SIDE in *. split.
    - apply Z.div_le_lower_bound; lia.
    - apply Z.lt_succ_r, Z.div_lt_upper_bound; lia. }
  destruct (budget_in_range (fst (im_size img) / 18) H18') as [Hnz _].
  unfold POVTextOverlay.wrap_text, POVTextOverlay.chars_per_line in Hwrap.
  cbn [font_size] in Hwrap. rewrite Hnz in Hwrap.
  change (fst (im_size img) - 2 * 40) with (fst (im_size img) - 80) in Hwrap.
  rewrite Hq in Hwrap. unfold bind, ret in Hwrap.
  set (budget := 2 * (fst (im_size img) - 80) / (fst (im_size img) / 18)) in *.
  destruct (textwrap_wrap_spec wordsep quote_text budget) as [Hbad Hgood].
  destruct (Z_le_gt_dec budget 0) as [Hle | Hgt].
  - rewrite (Hbad Hle) in Hwrap. discriminate.
  - destruct (Hgood ltac:(lia)) as [lines [Hw Hl]].
    rewrite Hw in Hwrap. injection Hwrap as <-.
    exists pf, {| font_file := POVTextOverlay.font_path self;
                  font_size := fst (im_size img) / 18 |}, lines.
    split; [exact Hs | exact Hl].
Qed.

Lemma pov_caption_lines_bounded_witness :
  exists (pov_font quote_font : Font) (lines : list str),
    map fst (w_saved (fst (POVTextOverlay.add_pov_text_to_image
                             textwrap.wordsep_simple studio pov_tool "bg.jpg"
                             (py "Discipline beats motivation. Start now.")
                             None)))
    = ["output/bg_pov_quote_centered.jpg"%string]
    /\ font_size pov_font = 90 /\ font_size quote_font = 60
    /\ Forall (fun l => Z.of_nat (length l) <= 33) lines.
Proof.
  assert (Hret : snd (POVTextOverlay.add_pov_text_to_image
                        textwrap.wordsep_simple studio pov_tool "bg.jpg"
                        (py "Discipline beats motivation. Start now.") None)
                 = Some "output/bg_pov_quote_centered.jpg"%string)
    by (vm_compute; reflexivity).
  destruct (pov_caption_lines_bounded textwrap.wordsep_simple studio pov_tool
              "bg.jpg" (py "Discipline beats motivation. Start now.") None
              sample_dark_bg "output/bg_pov_quote_centered.jpg" eq_refl
              ltac:(unfold MAX_SIDE; simpl; lia) Hret)
    as [pf [qf [lines [Hs Hl]]]].
  exists {| font_file := DEJAVU; font_size := 90 |},
         {| font_file := DEJAVU; font_size := 60 |}, lines.
  split; [rewrite Hs; reflexivity|]. split; [reflexivity|].
  split; [reflexivity | exact Hl].
Defined.

(** ** The name of the output *)

Lemma existsb_eqb_in (c : ascii) (p : str) :
  existsb (Ascii.eqb c) p = true <-> In c p.
Proof.
  rewrite existsb_exists. split.
  - intros [x [Hx Heq]]. apply Ascii.eqb_eq in Heq. subst x. exact Hx.
  - intros H. exists c. split; [exact H | apply Ascii.eqb_refl].
Qed.

Lemma existsb_eqb_not_in (c : ascii) (p : str) :
  ~ In c p -> existsb (Ascii.eqb c) p = false.
Proof.
  intros H. destruct (existsb (Ascii.eqb c) p) eqn:He; [|reflexivity].
  apply existsb_eqb_in in He. contradiction.
Qed.

Lemma after_last_none (sep : ascii) (p : str) :
  ~ In sep p -> after_last sep p = p.
Proof.
  induction p as [|c p IH]; intros H; [reflexivity|]. simpl.
  rewrite existsb_eqb_not_in by (intros Hin; apply H; right; exact Hin).
  destruct (Ascii.eqb_spec c sep) as [->|]; [|reflexivity].
  exfalso. apply H. left. reflexivity.
Qed.

(** What follows the last separator. *)
Lemma after_last_cut (sep : ascii) (a b : str) :
  ~ In sep b -> after_last sep (a ++ sep :: b) = b.
Proof.
  intros Hb. induction a as [|c a IH]; simpl.
  - rewrite existsb_eqb_not_in by exact Hb. rewrite Ascii.eqb_refl. reflexivity.
  - assert (Hin : existsb (Ascii.eqb sep) (a ++ sep :: b) = true).
    { apply existsb_eqb_in, in_or_app. right. left. reflexivity. }
    rewrite Hin. exact IH.
Qed.

Lemma py_file (p : str) : py (file p) = p.
Proof. apply list_ascii_of_string_of_list_ascii. Qed.

Lemma splitext_root_name (stem ext : str) :
  ~ In SLASH stem -> ~ In SLASH ext -> ~ In DOT ext ->
  (exists c, In c stem /\ c <> DOT) ->
  splitext_root (stem ++ DOT :: ext) = stem.
Proof.
  intros Hs He Hd [c [Hc Hne]]. unfold splitext_root, basename.
  assert (Hns : ~ In SLASH (stem ++ DOT :: ext)).
  { intros H. apply in_app_or in H. destruct H as [H | [H | H]]; auto.
    discriminate. }
  rewrite (after_last_none SLASH) by exact Hns.
  rewrite after_last_cut by exact Hd.
  assert (Hdot : existsb (Ascii.eqb DOT) (stem ++ DOT :: ext) = true).
  { apply existsb_eqb_in, in_or_app. right. left. reflexivity. }
  rewrite Hdot.
  assert (Hlen : (length (stem ++ DOT :: ext) - length ext - 1)%nat
                 = length stem).
  { rewrite length_app. simpl. lia. }
  rewrite Hlen, firstn_app, Nat.sub_diag, firstn_all. simpl.
  rewrite app_nil_r.
  destruct (forallb (Ascii.eqb DOT) stem) eqn:Hall; [|reflexivity].
  rewrite forallb_forall in Hall. specialize (Hall c Hc).
  apply Ascii.eqb_eq in Hall. congruence.
Qed.

Lemma last_nonempty {A} (l : list A) (d e : A) :
  l <> [] -> List.last l d = List.last l e.
Proof.
  induction l as [|x l IH]; intros H; [contradiction|].
  destruct l as [|y l]; [reflexivity|].
  change (List.last (y :: l) d = List.last (y :: l) e).
  apply IH. discriminate.
Qed.

Lemma path_join_plain (a b : str) (c : ascii) :
  a <> [] -> List.last a DOT <> SLASH -> c <> SLASH ->
  path_join a (c :: b) = a ++ SLASH :: c :: b.
Proof.
  intros Ha Hlast Hc. unfold path_join.
  destruct (Ascii.eqb_spec c SLASH) as [|_]; [contradiction|].
  destruct a as [|a0 a]; [contradiction|].
  destruct (Ascii.eqb_spec (List.last (a0 :: a) SLASH) SLASH) as [Heq|_];
    [|reflexivity].
  exfalso. apply Hlast. rewrite <- Heq. apply last_nonempty. discriminate.
Qed.

(** X11.  When no output name is given, [add_text_to_image] names the
    output after the stem of the image alone: for an image
    [dir/stem.ext] (the stem without slash and not made of dots only, the
    extension without dot or slash) and an output directory that does
    not end with a slash, the output is [output_dir/stem_quote.jpg].
    Neither the directory nor the extension of the image enters the
    name, so two images with the same stem are written to one file. *)
Theorem default_output_from_stem (od dir stem ext : str) :
  od <> [] -> List.last od DOT <> SLASH ->
  ~ In SLASH stem -> ~ In SLASH ext -> ~ In DOT ext ->
  (exists c, In c stem /\ c <> DOT) ->
  TextOverlay.default_output
    {| TextOverlay.font_path := ""; TextOverlay.output_dir := file od |}
    (file (dir ++ SLASH :: stem ++ DOT :: ext))
  = file (od ++ SLASH :: stem ++ py "_quote.jpg").
Proof.
  intros Hod Hlast Hs He Hd Hstem. unfold TextOverlay.default_output.
  cbn [TextOverlay.output_dir]. rewrite !py_file. f_equal.
  unfold basename. rewrite after_last_cut.
  2:{ intros H. apply in_app_or in H. destruct H as [H | [H | H]]; auto.
      discriminate. }
  rewrite splitext_root_name by assumption.
  destruct Hstem as [c [Hc Hne]].
  destruct stem as [|s0 stem]; [destruct Hc|].
  change ((s0 :: stem) ++ py "_quote.jpg")
    with (s0 :: (stem ++ py "_quote.jpg")).
  apply path_join_plain; [assumption | assumption |].
  intros ->. apply Hs. left. reflexivity.
Qed.

Lemma default_output_from_stem_witness :
  TextOverlay.default_output overlay_tool "images/dark.city.png"
  = "output/dark.city_quote.jpg"%string
  /\ TextOverlay.default_output overlay_tool "backup/dark.city.jpeg"
     = "output/dark.city_quote.jpg"%string.
Proof.
  split.
  - apply (default_output_from_stem (py "output") (py "images")
             (py "dark.city") (py "png")); try discriminate.
    + intros H. repeat (destruct H as [H | H]; [discriminate|]). exact H.
    + intros H. repeat (destruct H as [H | H]; [discriminate|]). exact H.
    + intros H. repeat (destruct H as [H | H]; [discriminate|]). exact H.
    + exists (ascii_of_nat 100). split; [left; reflexivity | discriminate].
  - apply (default_output_from_stem (py "output") (py "backup")
             (py "dark.city") (py "jpeg")); try discriminate.
    + intros H. repeat (destruct H as [H | H]; [discriminate|]). exact H.
    + intros H. repeat (destruct H as [H | H]; [discriminate|]). exact H.
    + intros H. repeat (destruct H as [H | H]; [discriminate|]). exact H.
    + exists (ascii_of_nat 100). split; [left; reflexivity | discriminate].
Defined.

(** ** The pipeline: quotes without repetition *)

Lemma filter_nil_all {A} (f : A -> bool) (l : list A) :
  List.filter f l = [] -> forall x, In x l -> f x = false.
Proof.
  intros H x Hx. destruct (f x) eqn:Hf; [|reflexivity].
  assert (Hin : In x (List.filter f l)) by (apply filter_In; auto).
  rewrite H in Hin. destruct Hin.
Qed.

(** One call of [_get_random_quote]. *)
Lemma get_random_quote_spec (self : ContentPipeline.t) (r : nat) :
  ContentPipeline.quotes (fst (ContentPipeline.get_random_quote self r))
  = ContentPipeline.quotes self
  /\ match snd (ContentPipeline.get_random_quote self r) with
     | None => ContentPipeline.quotes self = []
     | Some q =>
         In q (ContentPipeline.quotes self)
         /\ (((q ∉ ContentPipeline.used_quotes self)
              /\ ContentPipeline.used_quotes
                   (fst (ContentPipeline.get_random_quote self r))
                 = {[ q ]} ∪ ContentPipeline.used_quotes self)
             \/ ((forall q', In q' (ContentPipeline.quotes self) ->
                             q' ∈ ContentPipeline.used_quotes self)
                 /\ ContentPipeline.used_quotes
                      (fst (ContentPipeline.get_random_quote self r))
                    = {[ q ]}))
     end.
Proof.
  unfold ContentPipeline.get_random_quote.
  destruct (List.filter
              (fun q => negb (bool_decide (q ∈ ContentPipeline.used_quotes self)))
              (ContentPipeline.quotes self)) as [|a l] eqn:Hav.
  - cbn [truthy negb].
    assert (Hall : forall q', In q' (ContentPipeline.quotes self) ->
                              q' ∈ ContentPipeline.used_quotes self).
    { intros q' Hq'. pose proof (filter_nil_all _ _ Hav q' Hq') as Hf.
      apply negb_false_iff, bool_decide_eq_true in Hf. exact Hf. }
    destruct (ContentPipeline.quotes self) as [|q0 qs] eqn:Hq.
    + split; reflexivity.
    + cbn [truthy negb ContentPipeline.quotes].
      destruct (random_choice_in r (q0 :: qs) ltac:(discriminate))
        as [q [Hc Hin]].
      rewrite Hc. cbn [fst snd ContentPipeline.quotes
                         ContentPipeline.used_quotes].
      split; [reflexivity|]. split; [exact Hin|]. right.
      split; [exact Hall|]. apply union_empty_r_L.
  - cbn [truthy negb].
    destruct (random_choice_in r (a :: l) ltac:(discriminate))
      as [q [Hc Hin]].
    rewrite Hc. cbn [fst snd ContentPipeline.quotes
                       ContentPipeline.used_quotes].
    split; [reflexivity|].
    rewrite <- Hav in Hin. apply filter_In in Hin. destruct Hin as [Hin Hf].
    apply negb_true_iff, bool_decide_eq_false in Hf.
    split; [exact Hin|]. left. split; [exact Hf | reflexivity].
Qed.

(** X12.  [_get_random_quote] returns [None] only when no quote is
    loaded.  Otherwise it returns a loaded quote that was not in the set
    of used quotes, and adds it to the set; only when every loaded quote
    is in the set does it empty the set first and return any loaded
    quote. *)
Theorem get_random_quote_fresh (self : ContentPipeline.t) (r : nat) :
  match snd (ContentPipeline.get_random_quote self r) with
  | None => ContentPipeline.quotes self = []
  | Some q =>
      In q (ContentPipeline.quotes self)
      /\ (((q ∉ ContentPipeline.used_quotes self)
           /\ ContentPipeline.used_quotes
                (fst (ContentPipeline.get_random_quote self r))
              = {[ q ]} ∪ ContentPipeline.used_quotes self)
          \/ ((forall q', In q' (ContentPipeline.quotes self) ->
                          q' ∈ ContentPipeline.used_quotes self)
              /\ ContentPipeline.used_quotes
                   (fst (ContentPipeline.get_random_quote self r))
                 = {[ q ]}))
  end.
Proof. apply get_random_quote_spec. Qed.

Lemma quote_run_fresh (draws : list nat) : forall self : ContentPipeline.t,
  ContentPipeline.used_quotes self
    ⊆ (list_to_set (ContentPipeline.quotes self) : gset str) ->
  (size (ContentPipeline.used_quotes self) + length draws
   <= size (list_to_set (ContentPipeline.quotes self) : gset str))%nat ->
  exists qs,
    quote_run self draws = map Some qs
    /\ List.NoDup qs
    /\ Forall (fun q => In q (ContentPipeline.quotes self)
                        /\ q ∉ ContentPipeline.used_quotes self) qs.
Proof.
  induction draws as [|r draws IH]; intros self Hsub Hsize.
  - exists []. split; [reflexivity|]. split; constructor.
  - cbn [quote_run].
    destruct (get_random_quote_spec self r) as [Hq Hres].
    set (self' := fst (ContentPipeline.get_random_quote self r)) in *.
    destruct (snd (ContentPipeline.get_random_quote self r)) as [q|].
    2:{ exfalso. rewrite Hres in Hsize.
        assert (H0 : size (list_to_set (@nil str) : gset str) = 0%nat)
          by apply size_empty.
        rewrite H0 in Hsize. simpl in Hsize. lia. }
    destruct Hres as [Hin Hcase].
    assert (Hfresh : (q ∉ ContentPipeline.used_quotes self)
                     /\ ContentPipeline.used_quotes self'
                        = {[ q ]} ∪ ContentPipeline.used_quotes self).
    { destruct Hcase as [H | [Hall Hreset]]; [exact H|]. exfalso.
      assert (Hsup : (list_to_set (ContentPipeline.quotes self) : gset str)
                     ⊆ ContentPipeline.used_quotes self).
      { intros x Hx. apply elem_of_list_to_set, list_elem_of_In in Hx.
        apply Hall, Hx. }
      apply subseteq_size in Hsup. simpl in Hsize. lia. }
    destruct Hfresh as [Hnew Hused].
    assert (Hqset : q ∈ (list_to_set (ContentPipeline.quotes self) : gset str)).
    { apply elem_of_list_to_set, list_elem_of_In, Hin. }
    destruct (IH self') as [qs [Hrun [Hnd Hall]]].
    + rewrite Hq, Hused. intros x Hx. apply elem_of_union in Hx.
      destruct Hx as [Hx | Hx]; [|apply Hsub, Hx].
      apply elem_of_singleton in Hx. subst x. exact Hqset.
    + rewrite Hq, Hused, size_union, size_singleton
        by (apply disjoint_singleton_l; exact Hnew).
      simpl in Hsize. lia.
    + exists (q :: qs). split; [simpl; rewrite Hrun; reflexivity|].
      rewrite Hq, Hused in Hall. split.
      * constructor; [|exact Hnd]. intros Hqs.
        rewrite List.Forall_forall in Hall. destruct (Hall q Hqs) as [_ Hn].
        apply Hn, elem_of_union. left. apply elem_of_singleton. reflexivity.
      * constructor; [split; assumption|].
        eapply List.Forall_impl; [|exact Hall]. intros x [Hx Hn].
        split; [exact Hx|]. intros Hu. apply Hn, elem_of_union. right. exact Hu.
Qed.

(** X13.  Starting with no quote used, successive calls of
    [_get_random_quote] return loaded quotes that are all different, for
    as many calls as there are different loaded quotes, whatever the
    random draws. *)
Theorem quotes_not_repeated (self : ContentPipeline.t) (draws : list nat) :
  ContentPipeline.used_quotes self = ∅ ->
  (length draws
   <= size (list_to_set (ContentPipeline.quotes self) : gset str))%nat ->
  exists qs,
    quote_run self draws = map Some qs
    /\ List.NoDup qs
    /\ Forall (fun q => In q (ContentPipeline.quotes self)) qs.
Proof.
  intros Hempty Hlen.
  destruct (quote_run_fresh draws self) as [qs [H1 [H2 H3]]].
  - rewrite Hempty. apply empty_subseteq.
  - rewrite Hempty, size_empty. simpl. exact Hlen.
  - exists qs. split; [exact H1|]. split; [exact H2|].
    eapply List.Forall_impl; [|exact H3]. intros q [Hq _]. exact Hq.
Qed.

Lemma quotes_not_repeated_witness :
  exists qs,
    quote_run
      {| ContentPipeline.quotes := [py "a"; py "b"; py "a"; py "c"];
         ContentPipeline.images := []; ContentPipeline.overlay_tool := pov_tool;
         ContentPipeline.used_quotes := ∅; ContentPipeline.used_images := ∅ |}
      [5; 0; 7]%nat
    = map Some qs
    /\ List.NoDup qs.
Proof.
  destruct (quotes_not_repeated
              {| ContentPipeline.quotes := [py "a"; py "b"; py "a"; py "c"];
                 ContentPipeline.images := [];
                 ContentPipeline.overlay_tool := pov_tool;
                 ContentPipeline.used_quotes := ∅;
                 ContentPipeline.used_images := ∅ |}
              [5; 0; 7]%nat eq_refl)
    as [qs [H1 [H2 _]]].
  - vm_compute. lia.
  - exists qs. split; assumption.
Defined.

(** ** The pipeline: loading and generating *)

Lemma file_cons_nonempty (c : ascii) (l : str) :
  String.eqb (file (c :: l)) "" = false.
Proof. reflexivity. Qed.

Lemma path_join_nonempty (a b : str) (c : ascii) :
  exists d l, path_join a (c :: b) = d :: l.
Proof.
  unfold path_join. destruct (Ascii.eqb c SLASH); [eexists _, _; reflexivity|].
  destruct a as [|a0 a]; [eexists _, _; reflexivity|].
  destruct (Ascii.eqb (List.last (a0 :: a) SLASH) SLASH);
    eexists _, _; reflexivity.
Qed.

Lemma post_name_nonempty (base : str) (n : Z) :
  String.eqb (ContentPipeline.post_name base n) "" = false.
Proof.
  unfold ContentPipeline.post_name.
  destruct (path_join_nonempty (ContentPipeline.OUTPUT_DIR base)
              (py "ost_pov_" ++ format_03d n ++ py ".jpg") (ascii_of_nat 112))
    as [d [l Hd]].
  change (py "post_pov_" ++ format_03d n ++ py ".jpg")
    with (ascii_of_nat 112 :: (py "ost_pov_" ++ format_03d n ++ py ".jpg")).
  rewrite Hd. apply file_cons_nonempty.
Qed.

(** One turn of the loop saves at most one image, under the name of the
    post, and counts it. *)
Lemma post_step (wordsep : str -> list str) (base : str) (num_posts : Z)
    (draw : Z -> nat * nat) (st : ContentPipeline.Loop) (i : Z) :
  let st' := ContentPipeline.post wordsep base num_posts draw st i in
  exists new,
    w_saved (ContentPipeline.lp_world st')
    = w_saved (ContentPipeline.lp_world st) ++ new
    /\ ContentPipeline.lp_count st'
       = ContentPipeline.lp_count st + Z.of_nat (length new)
    /\ (length new <= 1)%nat
    /\ Forall (fun s => fst s = ContentPipeline.post_name base (i + 1)
                        /\ im_mode (snd s) = RGB) new.
Proof.
  cbv zeta. unfold ContentPipeline.post.
  assert (Hnone : forall st0 : ContentPipeline.Loop,
    w_saved (ContentPipeline.lp_world st0)
      = w_saved (ContentPipeline.lp_world st)
    -> ContentPipeline.lp_count st0 = ContentPipeline.lp_count st
    -> exists new,
         w_saved (ContentPipeline.lp_world st0)
         = w_saved (ContentPipeline.lp_world st) ++ new
         /\ ContentPipeline.lp_count st0
            = ContentPipeline.lp_count st + Z.of_nat (length new)
         /\ (length new <= 1)%nat
         /\ Forall (fun s => fst s = ContentPipeline.post_name base (i + 1)
                             /\ im_mode (snd s) = RGB) new).
  { intros st0 Hs Hc. exists []. rewrite app_nil_r. simpl.
    split; [exact Hs|]. split; [lia|]. split; [lia | constructor]. }
  destruct (ContentPipeline.lp_stopped st); [apply Hnone; reflexivity|].
  destruct (ContentPipeline.get_random_quote (ContentPipeline.lp_self st)
              (fst (draw i))) as [self1 quote].
  destruct (ContentPipeline.get_random_image self1 (snd (draw i)))
    as [self2 image_path].
  destruct quote as [quote|]; [|apply Hnone; reflexivity].
  destruct image_path as [image_path|]; [|apply Hnone; reflexivity].
  destruct (truthy quote && negb (String.eqb image_path ""));
    [|apply Hnone; reflexivity].
  set (w1 := print (ContentPipeline.lp_world st) _).
  pose proof (add_pov_text_to_image_outcome wordsep w1
                (ContentPipeline.overlay_tool self2) image_path quote
                (Some (ContentPipeline.post_name base (i + 1)))) as Hout.
  cbv zeta in Hout.
  destruct (POVTextOverlay.add_pov_text_to_image wordsep w1
              (ContentPipeline.overlay_tool self2) image_path quote
              (Some (ContentPipeline.post_name base (i + 1))))
    as [w2 result_path].
  cbn [fst snd] in Hout. destruct result_path as [p|].
  - destruct Hout as [img [pf [qf [wq [_ [_ [_ [_ [Hname [Hs _]]]]]]]]]].
    unfold output_name in Hname. rewrite post_name_nonempty in Hname.
    subst p. rewrite post_name_nonempty. cbn [negb].
    cbn [ContentPipeline.lp_world ContentPipeline.lp_count].
    exists [(ContentPipeline.post_name base (i + 1),
             pov_rendered (w_metrics w1) pf qf img wq)].
    split; [exact Hs|]. split; [reflexivity|]. split; [simpl; lia|].
    constructor; [split; reflexivity | constructor].
  - destruct Hout as [e [_ Hw]]. apply Hnone; [|reflexivity].
    cbn [ContentPipeline.lp_world]. rewrite Hw. reflexivity.
Qed.

Lemma post_fold (wordsep : str -> list str) (base : str) (num_posts : Z)
    (draw : Z -> nat * nat) (l : list Z) : forall st : ContentPipeline.Loop,
  let st' := fold_left (ContentPipeline.post wordsep base num_posts draw) l st in
  exists new,
    w_saved (ContentPipeline.lp_world st')
    = w_saved (ContentPipeline.lp_world st) ++ new
    /\ ContentPipeline.lp_count st'
       = ContentPipeline.lp_count st + Z.of_nat (length new)
    /\ (length new <= length l)%nat
    /\ Forall (fun s => (exists i, In i l
                           /\ fst s = ContentPipeline.post_name base (i + 1))
                        /\ im_mode (snd s) = RGB) new.
Proof.
  induction l as [|i l IH]; intros st; cbv zeta.
  - exists []. rewrite app_nil_r. simpl.
    split; [reflexivity|]. split; [lia|]. split; [lia | constructor].
  - cbn [fold_left].
    destruct (post_step wordsep base num_posts draw st i)
      as [new1 [Hs1 [Hc1 [Hl1 Hn1]]]].
    destruct (IH (ContentPipeline.post wordsep base num_posts draw st i))
      as [new2 [Hs2 [Hc2 [Hl2 Hn2]]]].
    exists (new1 ++ new2). rewrite Hs2, Hs1, Hc2, Hc1, app_assoc, length_app.
    split; [reflexivity|]. split; [lia|]. split; [simpl; lia|].
    apply Forall_app. split.
    + eapply List.Forall_impl; [|exact Hn1]. intros s [Hname Hmode].
      split; [|exact Hmode]. exists i. split; [left; reflexivity | exact Hname].
    + eapply List.Forall_impl; [|exact Hn2]. intros s [[k [Hk Hname]] Hmode].
      split; [|exact Hmode]. exists k. split; [right; exact Hk | exact Hname].
Qed.

(** X14.  With images at hand, [generate_content] gives the sink at most
    [num_posts] images and none without quotes; each is an RGB image
    saved as [OUTPUT_DIR/post_pov_NNN.jpg] for a post number from 1 to
    [num_posts]; and the count printed at the end is the number of images
    saved. *)
Theorem generate_content_posts (wordsep : str -> list str) (base : str)
    (w : World) (self : ContentPipeline.t) (num_posts : Z)
    (draw : Z -> nat * nat) :
  ContentPipeline.images self <> [] ->
  let w' := fst (ContentPipeline.generate_content wordsep base w self
                   num_posts draw) in
  exists new,
    w_saved w' = w_saved w ++ new
    /\ Z.of_nat (length new) <= Z.max 0 num_posts
    /\ Forall (fun s => (exists n, 1 <= n <= num_posts
                           /\ fst s = ContentPipeline.post_name base n)
                        /\ im_mode (snd s) = RGB) new
    /\ (ContentPipeline.quotes self = [] -> new = [])
    /\ (ContentPipeline.quotes self <> [] ->
        w_stdout w'
        = removelast (w_stdout w')
          ++ [PrComplete (Z.of_nat (length new)) num_posts]).
Proof.
  intros Himg. cbv zeta. unfold ContentPipeline.generate_content.
  destruct (ContentPipeline.quotes self) as [|q qs] eqn:Hq.
  - exists []. rewrite app_nil_r. cbn [truthy negb fst length].
    split; [reflexivity|]. split; [lia|]. split; [constructor|].
    split; [reflexivity | contradiction].
  - cbn [truthy negb].
    destruct (ContentPipeline.images self) as [|im ims]; [contradiction|].
    cbn [truthy negb]. unfold ContentPipeline.run_posts. cbn [fst].
    destruct (post_fold wordsep base num_posts draw (py_range 0 num_posts)
                {| ContentPipeline.lp_world := print w (PrStarting num_posts);
                   ContentPipeline.lp_self := self;
                   ContentPipeline.lp_count := 0;
                   ContentPipeline.lp_stopped := false |})
      as [new [Hs [Hc [Hl Hn]]]].
    cbv zeta in Hs, Hc. cbn [ContentPipeline.lp_world ContentPipeline.lp_count]
      in Hs, Hc.
    exists new. cbn [print w_saved w_stdout] in *.
    split; [exact Hs|]. split.
    { unfold py_range in Hl. rewrite length_map, length_seq in Hl. lia. }
    split.
    { eapply List.Forall_impl; [|exact Hn]. intros s [[i [Hi Hname]] Hmode].
      split; [|exact Hmode]. apply in_py_range in Hi.
      exists (i + 1). split; [lia | exact Hname]. }
    split; [discriminate|]. intros _.
    rewrite removelast_last, Hc. reflexivity.
Qed.

Lemma generate_content_posts_witness :
  exists new,
    Z.of_nat (length new) <= 3
    /\ Forall (fun s : string * Image =>
                 exists n, 1 <= n <= 3
                           /\ fst s = ContentPipeline.post_name (py "/app") n)
         new.
Proof.
  destruct (generate_content_posts textwrap.wordsep_simple (py "/app") app
              {| ContentPipeline.quotes := [py "Stay hard."];
                 ContentPipeline.images := ["/app/images/a.jpg"%string];
                 ContentPipeline.overlay_tool := pov_tool;
                 ContentPipeline.used_quotes := ∅;
                 ContentPipeline.used_images := ∅ |}
              3 (fun i => (Z.to_nat i, 0%nat)) ltac:(discriminate))
    as [new [_ [Hlen [Hall _]]]].
  exists new. split; [exact Hlen|].
  eapply List.Forall_impl; [|exact Hall]. intros s [H _]. exact H.
Defined.

Lemma strip_idempotent (s : str) : strip (strip s) = strip s.
Proof.
  destruct (strip_spec s) as [pre [post [_ [_ [_ Hends]]]]].
  destruct Hends as [Hnil | [a [b [Ha [Hb [Hna Hnb]]]]]].
  - rewrite Hnil. reflexivity.
  - eapply strip_id; eassumption.
Qed.

Lemma lstrip_app_space (s : str) (c : ascii) :
  isspace c = true ->
  lstrip (s ++ [c]) = match lstrip s with [] => [] | _ => lstrip s ++ [c] end.
Proof.
  intros Hc. induction s as [|x s IH]; simpl.
  - rewrite Hc. reflexivity.
  - destruct (isspace x); [exact IH | reflexivity].
Qed.

(** A whitespace character at the end, such as the newline of a line, is
    stripped with the rest. *)
Lemma strip_app_space (s : str) (c : ascii) :
  isspace c = true -> strip (s ++ [c]) = strip s.
Proof.
  intros Hc. unfold strip, rstrip. rewrite lstrip_app_space by exact Hc.
  destruct (lstrip s) as [|x l]; [reflexivity|].
  rewrite rev_app_distr.
  change (lstrip (rev [c] ++ rev (x :: l)))
    with (if isspace c then lstrip (rev (x :: l)) else c :: rev (x :: l)).
  rewrite Hc. reflexivity.
Qed.

Lemma strip_incl (s : str) (c : ascii) : In c (strip s) -> In c s.
Proof.
  intros H. destruct (strip_spec s) as [pre [post [Hs _]]].
  rewrite Hs. apply in_or_app. right. apply in_or_app. left. exact H.
Qed.

(** The lines of a text hold a newline at their end only. *)
Lemma readlines_from_lines (s : str) : forall cur : str,
  ~ In NEWLINE cur ->
  Forall (fun line => exists body, ~ In NEWLINE body
                        /\ (line = body \/ line = body ++ [NEWLINE]))
    (readlines_from cur s).
Proof.
  induction s as [|c s IH]; intros cur Hcur; simpl.
  - destruct cur; constructor; [|constructor].
    eexists. split; [exact Hcur | left; reflexivity].
  - destruct (Ascii.eqb_spec c NEWLINE) as [->|Hne].
    + constructor.
      * exists cur. split; [exact Hcur | right; reflexivity].
      * apply IH. intros [].
    + apply IH. intros Hin. apply in_app_or in Hin.
      destruct Hin as [Hin | [Heq | []]]; [exact (Hcur Hin) | congruence].
Qed.

(** X15.  [_load_quotes] changes nothing but the terminal.  When the
    quotes file exists and can be read, the quotes it returns are the
    lines of the file with a character that is not whitespace, each
    stripped: a quote is the [strip()] of a line of the file, and every
    line that is not blank gives its [strip()] as a quote.  When the file
    does not exist or cannot be read, it returns no quote.  Every quote
    returned is not empty, is its own [strip()], so that no whitespace is
    left at its ends, and holds no newline. *)
Theorem load_quotes_stripped (w : World) (base : str) :
  let out := ContentPipeline.load_quotes w base in
  let quotes_file := file (ContentPipeline.QUOTES_FILE base) in
  same_files w (fst out)
  /\ Forall (fun q => q <> [] /\ strip q = q /\ ~ In NEWLINE q) (snd out)
  /\ (os_path_exists w quotes_file = false -> snd out = [])
  /\ match read_text w quotes_file with
     | inl _ => snd out = []
     | inr content =>
         os_path_exists w quotes_file = true ->
         forall q,
           In q (snd out)
           <-> exists line,
                 In line (readlines content) /\ strip line = q /\ q <> []
     end.
Proof.
  cbv zeta. unfold ContentPipeline.load_quotes.
  assert (Hsame : forall p, same_files w (print w p)).
  { intros p. repeat split. }
  destruct (os_path_exists w (file (ContentPipeline.QUOTES_FILE base)));
    cbn [negb].
  2: { split; [apply Hsame|]. split; [constructor|].
       split; [reflexivity|].
       destruct (read_text w _); [reflexivity | discriminate]. }
  destruct (read_text w (file (ContentPipeline.QUOTES_FILE base)))
    as [e|content].
  { split; [apply Hsame|]. split; [constructor|].
    split; [discriminate | reflexivity]. }
  set (quotes := map strip (List.filter (fun line => truthy (strip line))
                              (readlines content))).
  assert (Hq : Forall (fun q => q <> [] /\ strip q = q /\ ~ In NEWLINE q)
                 quotes).
  { apply List.Forall_forall. intros q Hin. apply in_map_iff in Hin.
    destruct Hin as [line [<- Hline]]. apply List.filter_In in Hline.
    destruct Hline as [Hline Ht].
    split; [intros Hnil; rewrite Hnil in Ht; discriminate|].
    split; [apply strip_idempotent|].
    pose proof (readlines_from_lines content [] (fun H => H)) as Hall.
    rewrite List.Forall_forall in Hall.
    destruct (Hall line Hline) as [body [Hbody [-> | ->]]].
    - intros Hin. apply Hbody. exact (strip_incl _ _ Hin).
    - rewrite strip_app_space by reflexivity.
      intros Hin. apply Hbody. exact (strip_incl _ _ Hin). }
  assert (Hfrom : forall q,
            In q quotes
            <-> exists line,
                  In line (readlines content) /\ strip line = q /\ q <> []).
  { intros q. unfold quotes. rewrite in_map_iff. split.
    - intros [line [<- Hline]]. apply List.filter_In in Hline.
      destruct Hline as [Hline Ht]. exists line.
      split; [exact Hline|]. split; [reflexivity|].
      intros Hnil. rewrite Hnil in Ht. discriminate.
    - intros [line [Hline [<- Hne]]]. exists line.
      split; [reflexivity|]. apply List.filter_In. split; [exact Hline|].
      destruct (strip line); [contradiction | reflexivity]. }
  destruct (truthy quotes); cbn [negb fst snd];
    (split; [first [apply Hsame | repeat split]|]);
    (split; [exact Hq|]); (split; [discriminate|]); intros _; exact Hfrom.
Qed.

Lemma load_quotes_stripped_witness :
  In (py "Stay hard.") (snd (ContentPipeline.load_quotes app (py "/app")))
  /\ ~ In (py "  Stay hard. ")
         (snd (ContentPipeline.load_quotes app (py "/app"))).
Proof.
  pose proof (load_quotes_stripped app (py "/app")) as H. cbv zeta in H.
  destruct H as [_ [Hall [_ H]]].
  assert (Hread : read_text app (file (ContentPipeline.QUOTES_FILE (py "/app")))
                  = inr (py "  Stay hard. " ++ [NEWLINE] ++ [NEWLINE]
                         ++ py "Discipline beats motivation." ++ [NEWLINE]))
    by (vm_compute; reflexivity).
  rewrite Hread in H. specialize (H ltac:(vm_compute; reflexivity)).
  split.
  - apply H. exists (py "  Stay hard. " ++ [NEWLINE]).
    split; [left; reflexivity|]. split; [reflexivity | discriminate].
  - intros Hin. rewrite List.Forall_forall in Hall.
    destruct (Hall _ Hin) as [_ [Hstrip _]]. discriminate.
Defined.

Lemma endswith_spec (s suffix : str) :
  endswith s suffix = true -> exists stem, s = stem ++ suffix.
Proof.
  unfold endswith. intros H. apply andb_true_iff in H. destruct H as [_ H].
  apply bool_decide_eq_true in H.
  exists (firstn (length s - length suffix) s).
  rewrite <- (firstn_skipn (length s - length suffix) s) at 1.
  rewrite H. reflexivity.
Qed.

Lemma os_listdir_names (w : World) (path : string) (names : list str) :
  os_listdir w path = inr names ->
  Forall (fun name => name <> []
            /\ (file (path_join (py path) name) ∈ w_files w
                \/ file (path_join (py path) name) ∈ w_dirs w)) names.
Proof.
  unfold os_listdir. destruct (os_path_isdir w path); [|discriminate].
  intros H. injection H as <-. apply List.Forall_forall. intros name Hin.
  apply list_elem_of_In, list_elem_of_omap in Hin.
  destruct Hin as [p [Hp Hname]].
  destruct (truthy (basename (py p))) eqn:Ht; [|discriminate].
  destruct (String.eqb_spec (file (path_join (py path) (basename (py p)))) p)
    as [Heq|]; [|discriminate].
  cbn [andb] in Hname. injection Hname as <-.
  split; [intros Hnil; rewrite Hnil in Ht; discriminate|].
  rewrite Heq. apply elem_of_elements, elem_of_union in Hp. exact Hp.
Qed.

(** X16.  [_find_images] changes nothing but the terminal, and every path
    it returns is [IMAGES_DIR] joined with a name that exists there, as a
    file or as a directory, and that ends, once in lower case, with one of
    the four image suffixes. *)
Theorem find_images_listed (w : World) (base : str) :
  let out := ContentPipeline.find_images w base in
  same_files w (fst out)
  /\ Forall (fun p =>
       exists name stem suffix,
         p = file (path_join (ContentPipeline.IMAGES_DIR base) name)
         /\ os_path_exists w p = true
         /\ lower name = stem ++ suffix
         /\ In suffix [py ".png"; py ".jpg"; py ".jpeg"; py ".webp"])
       (snd out).
Proof.
  cbv zeta. unfold ContentPipeline.find_images.
  assert (Hsame : forall p, same_files w (print w p)).
  { intros p. repeat split. }
  destruct (os_path_isdir w (file (ContentPipeline.IMAGES_DIR base)));
    cbn [negb]; [|split; [apply Hsame | constructor]].
  destruct (os_listdir w (file (ContentPipeline.IMAGES_DIR base)))
    as [e|names] eqn:Hls; [split; [apply Hsame | constructor]|].
  apply os_listdir_names in Hls. rewrite py_file in Hls.
  rewrite List.Forall_forall in Hls.
  match goal with |- context [truthy ?l] => set (images := l) end.
  assert (Himg : Forall (fun p =>
       exists name stem suffix,
         p = file (path_join (ContentPipeline.IMAGES_DIR base) name)
         /\ os_path_exists w p = true
         /\ lower name = stem ++ suffix
         /\ In suffix [py ".png"; py ".jpg"; py ".jpeg"; py ".webp"]) images).
  { apply List.Forall_forall. intros p Hin. apply in_map_iff in Hin.
    destruct Hin as [name [<- Hname]]. apply List.filter_In in Hname.
    destruct Hname as [Hname Hsuf]. apply existsb_exists in Hsuf.
    destruct Hsuf as [suffix [Hsuffix Hends]].
    apply endswith_spec in Hends. destruct Hends as [stem Hstem].
    exists name, stem, suffix. split; [reflexivity|].
    split; [|split; [exact Hstem | exact Hsuffix]].
    destruct (Hls name Hname) as [Hne Hex]. unfold os_path_exists.
    apply andb_true_iff. split.
    - destruct name as [|c name]; [contradiction|].
      destruct (path_join_nonempty (ContentPipeline.IMAGES_DIR base) name c)
        as [d [l ->]]. reflexivity.
    - apply orb_true_iff.
      destruct Hex as [H|H]; [left | right]; apply bool_decide_eq_true; exact H. }
  destruct (truthy images); cbn [negb fst snd];
    (split; [first [apply Hsame | repeat split] | exact Himg]).
Qed.
